(** * BitBox02 firmware: mnemonic recovery workflow and multisig confirmation

    A shallow embedding of
    - [src/apps/btc/confirm_multisig.c] ([apps_btc_confirm_multisig]) and
    - [src/workflow/restore_from_mnemonic.c]
      ([_pick_number_of_words], [_get_mnemonic],
      [workflow_restore_from_mnemonic]),
    followed by the properties of the two workflows.

    Both C functions are sequential, blocking UI workflows.  They are
    embedded in a state monad over a [world] that holds the outcomes the
    user will produce, the log of everything shown or called so far, the
    secret buffers of the running call and the persistent device state.
    A computation ends in a [flow]: it falls through to the next statement,
    executes a C [return], halts the firmware through [Abort], or waits
    forever for a user who produces no further outcome. *)

From Stdlib Require Import ZArith NArith Ascii String Lia.
From stdpp Require Import base list strings sets.

Set Warnings "-clear-no-such-hyp".

(** ** Characters, C strings and formatted output *)

Definition NUL : ascii := Ascii.zero.
Definition SPACE : ascii := " "%char.

(** The newline escape of the C string literals. *)
Definition nl : string := String (ascii_of_nat 10) "".

(** Decimal rendering of an unsigned value, as printf's %lu and %d (for a
    non-negative argument) produce it.  Digits are emitted from the least
    significant one; a value has at most [N.log2 n + 1] digits. *)
Fixpoint decimal_digits (fuel : nat) (n : N) (acc : string) : string :=
  let acc' := String (ascii_of_N (48 + n mod 10)) acc in
  match fuel with
  | O => acc'
  | S fuel' => if (n / 10 =? 0)%N then acc' else decimal_digits fuel' (n / 10) acc'
  end.

Definition decimal (n : N) : string :=
  decimal_digits (N.to_nat (N.log2 n)) n "".

(** [snprintf(buf, size, fmt, ...)]: [formatted] is the fully expanded
    format.  The buffer receives at most [size - 1] characters and the
    call returns the length the full expansion has. *)
Definition snprintf (size : nat) (formatted : string) : string * Z :=
  (substring 0 (size - 1) formatted, Z.of_nat (String.length formatted)).

(** A [char] array as its list of bytes. *)
Definition buffer := list ascii.

Definition zeroed (n : nat) : buffer := replicate n NUL.

(** [strlen]: the number of bytes before the first NUL.  A buffer without
    terminator is read past its end in C; [None] stands for that. *)
Fixpoint c_strlen (buf : buffer) : option nat :=
  match buf with
  | [] => None
  | c :: rest => if Ascii.eqb c NUL then Some 0 else S <$> c_strlen rest
  end.

(** The C string a buffer holds: the bytes before the first NUL. *)
Fixpoint c_str (buf : buffer) : string :=
  match buf with
  | [] => ""
  | c :: rest => if Ascii.eqb c NUL then "" else String c (c_str rest)
  end.

(** Store [s] and its terminator at offset [off]; [None] when that would
    write past the end of the buffer. *)
Definition write_at (buf : buffer) (off : nat) (s : string) : option buffer :=
  let bytes := list_ascii_of_string s ++ [NUL] in
  if decide (off + length bytes <= length buf)
  then Some (take off buf ++ bytes ++ drop (off + length bytes) buf)
  else None.

(** [strncat(dst, src, n)]: append at most [n] characters of [src] and a
    terminator. *)
Definition strncat (dst : buffer) (src : string) (n : nat) : option buffer :=
  match c_strlen dst with
  | Some len => write_at dst len (substring 0 n src)
  | None => None
  end.

(** [strcat(dst, src)]. *)
Definition strcat (dst : buffer) (src : string) : option buffer :=
  strncat dst src (String.length src).

(** ** Enumerations of the protobuf messages and of the UI

    The generated headers fix the numeric values; the code only switches
    on the enumerators.  A C enum variable can hold any integer, so each
    type has a constructor for the values no enumerator names. *)

Inductive BTCCoin : Type :=
| BTCCoin_BTC
| BTCCoin_TBTC
| BTCCoin_LTC
| BTCCoin_TLTC
| BTCCoin_unrecognized (raw : Z).

Inductive BTCScriptConfig_Multisig_ScriptType : Type :=
| BTCScriptConfig_Multisig_ScriptType_P2WSH
| BTCScriptConfig_Multisig_ScriptType_P2WSH_P2SH
| BTCScriptConfig_Multisig_ScriptType_unrecognized (raw : Z).

Inductive BTCRegisterScriptConfigRequest_XPubType : Type :=
| BTCRegisterScriptConfigRequest_XPubType_AUTO_ELECTRUM
| BTCRegisterScriptConfigRequest_XPubType_AUTO_XPUB_TPUB
| BTCRegisterScriptConfigRequest_XPubType_unrecognized (raw : Z).

(** The output encodings [apps_btc_confirm_multisig] can select. *)
Inductive BTCPubRequest_XPubType : Type :=
| BTCPubRequest_XPubType_TPUB
| BTCPubRequest_XPubType_XPUB
| BTCPubRequest_XPubType_CAPITAL_VPUB
| BTCPubRequest_XPubType_CAPITAL_ZPUB
| BTCPubRequest_XPubType_CAPITAL_UPUB
| BTCPubRequest_XPubType_CAPITAL_YPUB.

Inductive trinary_choice_t : Type :=
| TRINARY_CHOICE_LEFT
| TRINARY_CHOICE_MIDDLE
| TRINARY_CHOICE_RIGHT
| TRINARY_CHOICE_unrecognized (raw : Z).

(** Modelled from the spec: the result of [workflow_trinary_input_wordlist]
    (declared in trinary_input.h, which is not part of the sources).
    "enter_word(position, wordlist, preset_or_none) ->
    {Accepted(word) | Cancel | Delete}": the accepted word is what the call
    leaves in its output buffer; Cancel and Delete leave it untouched. *)
Inductive workflow_trinary_input_result_t : Type :=
| WORKFLOW_TRINARY_INPUT_RESULT_OK (word : string)
| WORKFLOW_TRINARY_INPUT_RESULT_CANCEL
| WORKFLOW_TRINARY_INPUT_RESULT_DELETE.

(** Modelled from the spec: the result of [keystore_unlock] (keystore.h is
    not part of the sources).  "unlock(password) -> Ok(remaining_attempts) |
    WrongPassword | Fatal". *)
Inductive keystore_error_t : Type :=
| KEYSTORE_OK
| KEYSTORE_ERR_INCORRECT_PASSWORD
| KEYSTORE_ERR_FATAL.

(** [confirm_params_t]: the fields the two workflows set; every other
    field of a designated initializer is zero. *)
Record confirm_params_t : Type := {
  title : string;
  body : string;
  scrollable : bool;
  longtouch : bool;
  accept_is_nextarrow : bool;
}.

(** ** The world a workflow runs in *)

(** What the user is going to do, per kind of interaction and in the order
    of the calls.  When a list is exhausted the user produces no further
    outcome and the blocking call never returns. *)
Record user_script : Type := {
  number_of_words_picks : list trinary_choice_t;
  word_entries : list workflow_trinary_input_result_t;
  password_entries : list (string * string);
  confirm_answers : list bool;
  confirm_time_answers : list bool;
}.

(** Everything presented to the user and every call into the keystore, the
    memory and the secure chip that changes or reads persistent state, in
    call order and with the result of the call. *)
Inductive event : Type :=
| ui_trinary_choice (message left middle right : string)
| ui_status (message : string) (success : bool)
| ui_trinary_input_wordlist (word_idx : nat) (preset : option string)
| ui_password_set
| ui_confirm (params : confirm_params_t)
| ui_confirm_time (timestamp : N) (timezone_offset : Z)
| ui_unlock_bip39
| call_keystore_bip39_mnemonic_to_seed (mnemonic : string) (ok : bool)
| call_keystore_encrypt_and_store_seed (ok : bool)
| call_securechip_u2f_counter_set (counter : N) (ok : bool)
| call_memory_set_initialized (ok : bool)
| call_keystore_unlock (result : keystore_error_t).

(** The three secret buffers of [workflow_restore_from_mnemonic], each
    [None] until its declaration is executed. *)
Record secrets : Type := {
  mnemonic : option buffer;
  seed : option (list Byte.byte);
  password : option buffer;
}.

(** Persistent device state the recovery workflow changes. *)
Record device : Type := {
  stored_seed : option (list Byte.byte * string);
  initialized : bool;
  u2f_counter : option N;
}.

Record world : Type := {
  user : user_script;
  trace : list event;
  mem : secrets;
  dev : device;
}.

Definition set_user (f : user_script -> user_script) (w : world) : world :=
  {| user := f (user w); trace := trace w; mem := mem w; dev := dev w |}.
Definition set_trace (f : list event -> list event) (w : world) : world :=
  {| user := user w; trace := f (trace w); mem := mem w; dev := dev w |}.
Definition set_mem (f : secrets -> secrets) (w : world) : world :=
  {| user := user w; trace := trace w; mem := f (mem w); dev := dev w |}.
Definition set_dev (f : device -> device) (w : world) : world :=
  {| user := user w; trace := trace w; mem := mem w; dev := f (dev w) |}.

Definition with_number_of_words_picks (l : list trinary_choice_t) (u : user_script) :=
  {| number_of_words_picks := l; word_entries := word_entries u;
     password_entries := password_entries u; confirm_answers := confirm_answers u;
     confirm_time_answers := confirm_time_answers u |}.
Definition with_word_entries (l : list workflow_trinary_input_result_t) (u : user_script) :=
  {| number_of_words_picks := number_of_words_picks u; word_entries := l;
     password_entries := password_entries u; confirm_answers := confirm_answers u;
     confirm_time_answers := confirm_time_answers u |}.
Definition with_password_entries (l : list (string * string)) (u : user_script) :=
  {| number_of_words_picks := number_of_words_picks u; word_entries := word_entries u;
     password_entries := l; confirm_answers := confirm_answers u;
     confirm_time_answers := confirm_time_answers u |}.
Definition with_confirm_answers (l : list bool) (u : user_script) :=
  {| number_of_words_picks := number_of_words_picks u; word_entries := word_entries u;
     password_entries := password_entries u; confirm_answers := l;
     confirm_time_answers := confirm_time_answers u |}.
Definition with_confirm_time_answers (l : list bool) (u : user_script) :=
  {| number_of_words_picks := number_of_words_picks u; word_entries := word_entries u;
     password_entries := password_entries u; confirm_answers := confirm_answers u;
     confirm_time_answers := l |}.

Definition with_mnemonic (b : option buffer) (m : secrets) :=
  {| mnemonic := b; seed := seed m; password := password m |}.
Definition with_seed (b : option (list Byte.byte)) (m : secrets) :=
  {| mnemonic := mnemonic m; seed := b; password := password m |}.
Definition with_password (b : option buffer) (m : secrets) :=
  {| mnemonic := mnemonic m; seed := seed m; password := b |}.

(** ** Control flow *)

Inductive flow (A : Type) : Type :=
| Next (a : A)          (* execution continues with the next statement *)
| Return (b : bool)     (* a return statement of the enclosing function *)
| Abort (msg : string)  (* hardfault Abort: the firmware halts *)
| Waiting               (* blocked in a UI call the user never answers *)
| Undefined.            (* a write past the end of a buffer *)
Arguments Next {A} a.
Arguments Return {A} b.
Arguments Abort {A} msg.
Arguments Waiting {A}.
Arguments Undefined {A}.

Definition M (A : Type) : Type := world -> flow A * world.

Definition ret {A} (a : A) : M A := fun w => (Next a, w).

Definition bind {A B} (m : M A) (k : A -> M B) : M B := fun w =>
  match m w with
  | (Next a, w') => k a w'
  | (Return b, w') => (Return b, w')
  | (Abort msg, w') => (Abort msg, w')
  | (Waiting, w') => (Waiting, w')
  | (Undefined, w') => (Undefined, w')
  end.

Notation "'let*' x := m 'in' k" := (bind m (fun x => k))
  (at level 10, x pattern, m at level 100, k at level 200).
Notation "m ;;; k" := (bind m (fun _ => k))
  (at level 100, k at level 200, right associativity).

(** [return b;] *)
Definition return_ {A} (b : bool) : M A := fun w => (Return b, w).

(** [Abort(msg);] *)
Definition abort {A} (msg : string) : M A := fun w => (Abort msg, w).

(** Calling a function that returns [bool]: its [return b] is the value of
    the call expression. *)
Definition call (body : M bool) : M bool := fun w =>
  match body w with
  | (Return b, w') => (Next b, w')
  | other => other
  end.

(** [for (i = start; i < start + count; i++) body(i)]. *)
Fixpoint for_loop (count start : nat) (body : nat -> M unit) : M unit :=
  match count with
  | O => ret tt
  | S count' => body start ;;; for_loop count' (S start) body
  end.

Definition log (e : event) : M unit := fun w =>
  (Next tt, set_trace (fun t => t ++ [e]) w).

Definition get_mem : M secrets := fun w => (Next (mem w), w).
Definition put_mem (f : secrets -> secrets) : M unit := fun w => (Next tt, set_mem f w).

(** Take the next outcome the user produces for one kind of interaction. *)
Definition await {A} (pending : user_script -> list A)
    (consume : list A -> user_script -> user_script) : M A := fun w =>
  match pending (user w) with
  | [] => (Waiting, w)
  | outcome :: rest => (Next outcome, set_user (consume rest) w)
  end.

(** An out-of-bounds access. *)
Definition undefined {A} : M A := fun w => (Undefined, w).

(** ** UI primitives shared by the workflows *)

(** [workflow_confirm_blocking(&params)]: show the confirmation and block
    until the user accepts or declines. *)
Definition workflow_confirm_blocking (params : confirm_params_t) : M bool :=
  log (ui_confirm params) ;;;
  await confirm_answers with_confirm_answers.

(** [workflow_status_blocking(msg, success)]: show a status screen; it
    disappears without the user deciding anything. *)
Definition workflow_status_blocking (msg : string) (success : bool) : M unit :=
  log (ui_status msg success).

(** ** Messages and local state of the two workflows *)

(** [BTCScriptConfig_Multisig] over the protobuf message [XPub] of one
    cosigner key; [xpubs_count] is the number of entries of [xpubs]. *)
Record BTCScriptConfig_Multisig (XPub : Type) : Type := {
  threshold : N;
  xpubs : list XPub;
  our_xpub_index : N;
  script_type : BTCScriptConfig_Multisig_ScriptType;
}.
Arguments threshold {XPub} _.
Arguments xpubs {XPub} _.
Arguments our_xpub_index {XPub} _.
Arguments script_type {XPub} _.

Record RestoreFromMnemonicRequest : Type := {
  timestamp : N;
  timezone_offset : Z;
}.

(** The variables of the entry loop of [_get_mnemonic]: [word_idx] (a
    [uint8_t]) and the [words] array, one C string per slot. *)
Record entry_state : Type := {
  word_idx : nat;
  words : list string;
}.

Section Firmware.

(** ** Collaborators of [apps_btc_confirm_multisig]

    [XPub] is the protobuf message of one cosigner key, [ext_key] the
    decoded key of libwally.  The three functions are defined in
    btc_common.c and apps/common/bip32.c; they read nothing but their
    arguments.  The encoder receives the size of its output buffer. *)
Variable XPub : Type.
Variable ext_key : Type.
Variable XPUB_ENCODED_LEN : nat.
Variable btc_common_coin_name : BTCCoin -> string.
Variable apps_common_bip32_xpub_from_protobuf : XPub -> option ext_key.
Variable btc_common_encode_xpub :
  ext_key -> BTCPubRequest_XPubType -> nat -> option string.

Definition xpubs_count (multisig : BTCScriptConfig_Multisig XPub) : nat :=
  length (xpubs multisig).

(** ** confirm_multisig.c *)

(** Lines 66-116: the nested switch that selects [output_xpub_type].  It
    touches no state: it yields the selected type, executes
    [return false], or Aborts. *)
Definition select_output_xpub_type
    (xpub_type : BTCRegisterScriptConfigRequest_XPubType) (coin : BTCCoin)
    (script_type : BTCScriptConfig_Multisig_ScriptType)
    : flow BTCPubRequest_XPubType :=
  match xpub_type with
  | BTCRegisterScriptConfigRequest_XPubType_AUTO_ELECTRUM =>
      match coin with
      | BTCCoin_BTC | BTCCoin_LTC =>
          match script_type with
          | BTCScriptConfig_Multisig_ScriptType_P2WSH =>
              Next BTCPubRequest_XPubType_CAPITAL_ZPUB
          | BTCScriptConfig_Multisig_ScriptType_P2WSH_P2SH =>
              Next BTCPubRequest_XPubType_CAPITAL_YPUB
          | _ => Return false
          end
      | BTCCoin_TBTC | BTCCoin_TLTC =>
          match script_type with
          | BTCScriptConfig_Multisig_ScriptType_P2WSH =>
              Next BTCPubRequest_XPubType_CAPITAL_VPUB
          | BTCScriptConfig_Multisig_ScriptType_P2WSH_P2SH =>
              Next BTCPubRequest_XPubType_CAPITAL_UPUB
          | _ => Return false
          end
      | _ => Abort "confirm multisig: unknown coin"
      end
  | BTCRegisterScriptConfigRequest_XPubType_AUTO_XPUB_TPUB =>
      match coin with
      | BTCCoin_BTC | BTCCoin_LTC => Next BTCPubRequest_XPubType_XPUB
      | BTCCoin_TBTC | BTCCoin_TLTC => Next BTCPubRequest_XPubType_TPUB
      | _ => Abort "confirm multisig: unknown coin"
      end
  | _ => Abort "confirm multisig: unknown xpub_type"
  end.

Definition lift {A} (f : flow A) : M A := fun w => (f, w).

(** [if (snprintf_result < 0 || snprintf_result >= (int)sizeof(buf)) Abort(msg);] *)
Definition check_snprintf (snprintf_result : Z) (size : nat) (msg : string) : M unit :=
  if (snprintf_result <? 0)%Z || (snprintf_result >=? Z.of_nat size)%Z
  then abort msg
  else ret tt.

(** Lines 120-162: the body of the loop over the cosigners. *)
Definition confirm_cosigner (title : string) (multisig : BTCScriptConfig_Multisig XPub)
    (output_xpub_type : BTCPubRequest_XPubType) (num_cosigners : nat)
    (i : nat) : M unit :=
  match xpubs multisig !! i with
  | None => undefined
  | Some xpub_in =>
      match apps_common_bip32_xpub_from_protobuf xpub_in with
      | None => return_ false
      | Some xpub =>
          match btc_common_encode_xpub xpub output_xpub_type XPUB_ENCODED_LEN with
          | None => return_ false
          | Some xpub_str =>
              let* confirm :=
                if (N.of_nat i =? our_xpub_index multisig)%N then
                  let '(confirm, snprintf_result) :=
                    snprintf (XPUB_ENCODED_LEN + 100)
                      ("Cosigner " +:+ decimal (N.of_nat (i + 1)) +:+ "/" +:+
                       decimal (N.of_nat num_cosigners) +:+ " (this device): " +:+
                       xpub_str) in
                  check_snprintf snprintf_result (XPUB_ENCODED_LEN + 100)
                    "apps_btc_confirm_multisig/1" ;;;
                  ret confirm
                else
                  let '(confirm, snprintf_result) :=
                    snprintf (XPUB_ENCODED_LEN + 100)
                      ("Cosigner " +:+ decimal (N.of_nat (i + 1)) +:+ "/" +:+
                       decimal (N.of_nat num_cosigners) +:+ ": " +:+ xpub_str) in
                  check_snprintf snprintf_result (XPUB_ENCODED_LEN + 100)
                    "apps_btc_confirm_multisig/2" ;;;
                  ret confirm in
              let params_xpub :=
                {| title := title;
                   body := confirm;
                   scrollable := true;
                   longtouch := Nat.eqb i (num_cosigners - 1);
                   accept_is_nextarrow := true |} in
              let* accepted := workflow_confirm_blocking params_xpub in
              if negb accepted then return_ false else ret tt
          end
      end
  end.

Definition apps_btc_confirm_multisig (title : string) (coin : BTCCoin)
    (name : string) (multisig : BTCScriptConfig_Multisig XPub) (verify_xpubs : bool)
    (xpub_type : BTCRegisterScriptConfigRequest_XPubType) : M bool :=
  call (
    let '(basic_info, snprintf_result) :=
      snprintf 100
        ("Coin: " +:+ btc_common_coin_name coin +:+ nl +:+ "Multisig type: " +:+
         decimal (threshold multisig) +:+ "-of-" +:+
         decimal (N.of_nat (xpubs_count multisig))) in
    check_snprintf snprintf_result 100 "apps_btc_confirm_multisig/0" ;;;
    let params_basic :=
      {| title := title;
         body := basic_info;
         scrollable := false;
         longtouch := false;
         accept_is_nextarrow := true |} in
    let* accepted := workflow_confirm_blocking params_basic in
    if negb accepted then return_ false else
    let params_name :=
      {| title := title;
         body := name;
         scrollable := true;
         longtouch := false;
         accept_is_nextarrow := true |} in
    let* accepted := workflow_confirm_blocking params_name in
    if negb accepted then return_ false else
    if negb verify_xpubs then return_ true else
    let* output_xpub_type :=
      lift (select_output_xpub_type xpub_type coin (script_type multisig)) in
    let num_cosigners := xpubs_count multisig in
    for_loop num_cosigners 0
      (confirm_cosigner title multisig output_xpub_type num_cosigners) ;;;
    return_ true).

(** ** Collaborators and constants of restore_from_mnemonic.c

    The two length macros come from trinary_input.h and password.h, the
    [APP_U2F] switch from the build configuration. *)
Variable WORKFLOW_TRINARY_INPUT_MAX_WORD_LENGTH : nat.
Variable SET_PASSWORD_MAX_PASSWORD_LENGTH : nat.
Variable APP_U2F : Z.

Definition WORKFLOW_RESTORE_FROM_MNEMONIC_MAX_WORDS : nat := 24.

(** Modelled from the spec: [BIP39_WORDLIST_LEN] of wally_bip39.h, "an
    ordered, fixed-size (2048-entry) sequence". *)
Definition BIP39_WORDLIST_LEN : nat := 2048.

(** What an automatic array holds before it is first written, by offset. *)
Variable indeterminate : nat -> Byte.byte.

(** Results of the keystore, memory and secure chip calls.
    [keystore_bip39_mnemonic_to_seed] yields the seed bytes, whose number is
    the [seed_len] it reports.  The state-changing calls are given the
    device state they run in. *)
Variable keystore_get_bip39_word : nat -> option string.
Variable keystore_bip39_mnemonic_to_seed : string -> option (list Byte.byte).
Variable keystore_encrypt_and_store_seed_result :
  device -> list Byte.byte -> string -> bool.
Variable securechip_u2f_counter_set_result : device -> N -> bool.
Variable memory_set_initialized_result : device -> bool.
Variable keystore_unlock_result : device -> string -> keystore_error_t.

(** *** Collaborator calls as computations *)

(** Modelled from the spec: [UTIL_CLEANUP_STR] and [UTIL_CLEANUP_32] of
    util.h, the "cleanup-attribute buffers" whose content "must be
    overwritten with zero bytes on every exit path".  The attribute runs
    the handler when the scope that declares the variable is left by
    falling off its end or by [return]; a scope in which the firmware
    halts or blocks forever is never left. *)
Definition cleanup_scope {A} (cleanup : secrets -> secrets) (scope : M A) : M A :=
  fun w =>
    match scope w with
    | (Next a, w') => (Next a, set_mem cleanup w')
    | (Return b, w') => (Return b, set_mem cleanup w')
    | other => other
    end.

Definition util_cleanup_str (buf : buffer) : buffer := zeroed (length buf).

Definition util_cleanup_32 (buf : list Byte.byte) : list Byte.byte :=
  replicate (Nat.min 32 (length buf)) Byte.x00 ++ drop 32 buf.

(** Apply a string function to the buffer [mnemonic_out] points to. *)
Definition on_mnemonic (f : buffer -> option buffer) : M unit := fun w =>
  match mnemonic (mem w) with
  | Some buf =>
      match f buf with
      | Some buf' => (Next tt, set_mem (with_mnemonic (Some buf')) w)
      | None => (Undefined, w)
      end
  | None => (Undefined, w)
  end.

(** [workflow_trinary_input_wordlist(word_idx, wordlist, len, preset, word)]. *)
Definition workflow_trinary_input_wordlist (word_idx : nat) (preset : option string)
    : M workflow_trinary_input_result_t :=
  log (ui_trinary_input_wordlist word_idx preset) ;;;
  await word_entries with_word_entries.

(** Modelled from the spec: [password_set] of password.c,
    "set_password() -> Result<Password, Mismatch>" on a password and its
    re-entry: when the two entries are equal the password is stored in
    [password_out], truncated to the buffer, and the call succeeds. *)
Definition password_set : M bool :=
  log ui_password_set ;;;
  let* entry := await password_entries with_password_entries in
  let '(entered, repeated) := entry in
  if String.eqb entered repeated then
    fun w =>
      match password (mem w) with
      | Some buf =>
          match write_at buf 0 (fst (snprintf (length buf) entered)) with
          | Some buf' => (Next true, set_mem (with_password (Some buf')) w)
          | None => (Undefined, w)
          end
      | None => (Undefined, w)
      end
  else ret false.

(** [workflow_confirm_time(timestamp, timezone_offset, false)]. *)
Definition workflow_confirm_time (timestamp : N) (timezone_offset : Z) : M bool :=
  log (ui_confirm_time timestamp timezone_offset) ;;;
  await confirm_time_answers with_confirm_time_answers.

(** [workflow_unlock_bip39_blocking()]: the next stage of the workflow. *)
Definition workflow_unlock_bip39_blocking : M unit := log ui_unlock_bip39.

(** [keystore_encrypt_and_store_seed(seed, seed_len, password)]: on success
    the seed is persisted under the password. *)
Definition keystore_encrypt_and_store_seed (seed : list Byte.byte) (seed_len : nat)
    (password : string) : M bool := fun w =>
  let ok := keystore_encrypt_and_store_seed_result (dev w) (take seed_len seed) password in
  let w' := set_trace (fun t => t ++ [call_keystore_encrypt_and_store_seed ok]) w in
  if ok then
    (Next true,
     set_dev (fun d => {| stored_seed := Some (take seed_len seed, password);
                          initialized := initialized d;
                          u2f_counter := u2f_counter d |}) w')
  else (Next false, w').

(** [securechip_u2f_counter_set(counter)]. *)
Definition securechip_u2f_counter_set (counter : N) : M bool := fun w =>
  let ok := securechip_u2f_counter_set_result (dev w) counter in
  let w' := set_trace (fun t => t ++ [call_securechip_u2f_counter_set counter ok]) w in
  if ok then
    (Next true,
     set_dev (fun d => {| stored_seed := stored_seed d;
                          initialized := initialized d;
                          u2f_counter := Some counter |}) w')
  else (Next false, w').

(** [memory_set_initialized()]. *)
Definition memory_set_initialized : M bool := fun w =>
  let ok := memory_set_initialized_result (dev w) in
  let w' := set_trace (fun t => t ++ [call_memory_set_initialized ok]) w in
  if ok then
    (Next true,
     set_dev (fun d => {| stored_seed := stored_seed d;
                          initialized := true;
                          u2f_counter := u2f_counter d |}) w')
  else (Next false, w').

(** [keystore_unlock(password, &remaining_attempts)]. *)
Definition keystore_unlock (password : string) : M keystore_error_t := fun w =>
  let result := keystore_unlock_result (dev w) password in
  (Next result, set_trace (fun t => t ++ [call_keystore_unlock result]) w).

(** ** restore_from_mnemonic.c *)

(** [_pick_number_of_words(&number_of_words_out)]: the callback stores the
    choice in [_number_of_words_choice] and unblocks the caller. *)
Definition _pick_number_of_words : M nat :=
  log (ui_trinary_choice "How many words?" "12" "18" "24") ;;;
  let* _number_of_words_choice :=
    await number_of_words_picks with_number_of_words_picks in
  match _number_of_words_choice with
  | TRINARY_CHOICE_LEFT => ret 12
  | TRINARY_CHOICE_MIDDLE => ret 18
  | TRINARY_CHOICE_RIGHT => ret 24
  | _ => abort "restore_from_mnemonic: unreachable"
  end.

(** Lines 88-95: fetch the word list; any unavailable word ends
    [_get_mnemonic] with [false]. *)
Definition fetch_wordlist : M unit :=
  for_loop BIP39_WORDLIST_LEN 0 (fun i =>
    match keystore_get_bip39_word i with
    | Some _ => ret tt
    | None => return_ false
    end).

(** [strlen(word) ? word : NULL] *)
Definition preset_of (word : string) : option string :=
  if Nat.eqb (String.length word) 0 then None else Some word.

(** Lines 108-129: one iteration of the entry loop.  On OK the input
    component has left the accepted word in [words[word_idx]]. *)
Definition entry_iteration (st : entry_state) : M entry_state :=
  match words st !! word_idx st with
  | None => undefined
  | Some word =>
      let* result :=
        workflow_trinary_input_wordlist (word_idx st) (preset_of word) in
      match result with
      | WORKFLOW_TRINARY_INPUT_RESULT_CANCEL => return_ false
      | WORKFLOW_TRINARY_INPUT_RESULT_DELETE =>
          ret {| word_idx := if 0 <? word_idx st then word_idx st - 1 else word_idx st;
                 words := words st |}
      | WORKFLOW_TRINARY_INPUT_RESULT_OK entered =>
          ret {| word_idx := (word_idx st + 1) mod 256;
                 words := <[word_idx st := entered]> (words st) |}
      end
  end.

(** Lines 107-130: [while (word_idx < num_words)].  Every iteration blocks
    for one user outcome, so a loop given more fuel than there are
    outcomes left never runs out of it. *)
Fixpoint entry_loop (fuel num_words : nat) (st : entry_state) : M entry_state :=
  if word_idx st <? num_words then
    match fuel with
    | O => fun w => (Waiting, w)
    | S fuel' =>
        let* st' := entry_iteration st in
        entry_loop fuel' num_words st'
    end
  else ret st.

(** Lines 131-136: join the words into [mnemonic_out]. *)
Definition assemble_mnemonic (num_words : nat) (words : list string) : M unit :=
  for_loop num_words 0 (fun word_idx =>
    (if negb (Nat.eqb word_idx 0)
     then on_mnemonic (fun buf => strcat buf " ")
     else ret tt) ;;;
    match words !! word_idx with
    | None => undefined
    | Some word =>
        on_mnemonic (fun buf =>
          strncat buf word WORKFLOW_TRINARY_INPUT_MAX_WORD_LENGTH)
    end).

Definition _get_mnemonic : M bool :=
  call (
    fetch_wordlist ;;;
    let* num_words := _pick_number_of_words in
    let num_words_success_msg :=
      fst (snprintf 20 ("Enter " +:+ decimal (N.of_nat num_words) +:+ " words")) in
    workflow_status_blocking num_words_success_msg true ;;;
    let* st :=
      (fun w =>
         entry_loop (S (length (word_entries (user w)))) num_words
           {| word_idx := 0;
              words := replicate WORKFLOW_RESTORE_FROM_MNEMONIC_MAX_WORDS "" |} w) in
    assemble_mnemonic num_words (words st) ;;;
    return_ true).

(** Lines 166-179: [while (true)] around [password_set]. *)
Fixpoint password_loop (fuel : nat) : M unit :=
  match fuel with
  | O => fun w => (Waiting, w)
  | S fuel' =>
      let* matched := password_set in
      if negb matched then
        let params :=
          {| title := "";
             body := "Passwords" +:+ nl +:+ "do not match." +:+ nl +:+ "Try again?";
             scrollable := false;
             longtouch := false;
             accept_is_nextarrow := false |} in
        let* again := workflow_confirm_blocking params in
        if negb again then return_ false else password_loop fuel'
      else ret tt
  end.

(** The C string a secret buffer holds. *)
Definition read_str (field : secrets -> option buffer) : M string := fun w =>
  match field (mem w) with
  | Some buf => (Next (c_str buf), w)
  | None => (Undefined, w)
  end.

(** [keystore_bip39_mnemonic_to_seed(mnemonic, seed, &seed_len)]: on success
    the seed bytes are in [seed], which keeps its size. *)
Definition mnemonic_to_seed (mnemonic : string) : M (option nat) := fun w =>
  match seed (mem w) with
  | None => (Undefined, w)
  | Some buf =>
      match keystore_bip39_mnemonic_to_seed mnemonic with
      | Some bytes =>
          (Next (Some (length bytes)),
           set_mem (with_seed (Some (take (length buf) (bytes ++ drop (length bytes) buf))))
             (set_trace (fun t => t ++ [call_keystore_bip39_mnemonic_to_seed mnemonic true]) w))
      | None =>
          (Next None,
           set_trace (fun t => t ++ [call_keystore_bip39_mnemonic_to_seed mnemonic false]) w)
      end
  end.

Definition read_seed : M (list Byte.byte) := fun w =>
  match seed (mem w) with
  | Some buf => (Next buf, w)
  | None => (Undefined, w)
  end.

Definition cleanup_mnemonic (m : secrets) : secrets :=
  with_mnemonic (util_cleanup_str <$> mnemonic m) m.
Definition cleanup_seed (m : secrets) : secrets :=
  with_seed (util_cleanup_32 <$> seed m) m.
Definition cleanup_password (m : secrets) : secrets :=
  with_password (util_cleanup_str <$> password m) m.

(** Lines 180-203: persist the seed under the password entered, confirm
    the time and set the U2F counter when the firmware is built with
    [APP_U2F], mark the device initialized and unlock the keystore. *)
Definition persist_and_unlock (request : RestoreFromMnemonicRequest) (seed_len : nat)
    : M bool :=
  let* seed_bytes := read_seed in
  let* password_str := read_str password in
  let* stored :=
    keystore_encrypt_and_store_seed seed_bytes seed_len password_str in
  if negb stored then
    workflow_status_blocking ("Could not" +:+ nl +:+ "restore backup") false ;;;
    return_ false
  else
  (if (APP_U2F =? 1)%Z then
     let* confirmed :=
       workflow_confirm_time (timestamp request) (timezone_offset request) in
     if negb confirmed then return_ false else
     let* counter_set := securechip_u2f_counter_set (timestamp request) in
     if negb counter_set then ret tt (* ignore error *) else ret tt
   else ret tt) ;;;
  let* marked := memory_set_initialized in
  if negb marked then return_ false else
  let* unlocked := keystore_unlock password_str in
  match unlocked with
  | KEYSTORE_OK => ret tt
  | _ => abort "workflow_restore_from_mnemonic: unlock failed"
  end ;;;
  workflow_unlock_bip39_blocking ;;;
  return_ true.

Definition workflow_restore_from_mnemonic (request : RestoreFromMnemonicRequest)
    : M bool :=
  call (
    put_mem (with_mnemonic (Some (zeroed
      ((WORKFLOW_TRINARY_INPUT_MAX_WORD_LENGTH + 1) *
       WORKFLOW_RESTORE_FROM_MNEMONIC_MAX_WORDS)))) ;;;
    cleanup_scope cleanup_mnemonic (
      let* got := _get_mnemonic in
      if negb got then return_ false else
      put_mem (with_seed (Some (indeterminate <$> seq 0 32))) ;;;
      cleanup_scope cleanup_seed (
        let* mnemonic_str := read_str mnemonic in
        let* seed_len := mnemonic_to_seed mnemonic_str in
        match seed_len with
        | None =>
            workflow_status_blocking ("Recovery words" +:+ nl +:+ "invalid") false ;;;
            return_ false
        | Some seed_len =>
            workflow_status_blocking ("Recovery words" +:+ nl +:+ "valid") true ;;;
            put_mem (with_password (Some (zeroed SET_PASSWORD_MAX_PASSWORD_LENGTH))) ;;;
            cleanup_scope cleanup_password (
              (fun w => password_loop (S (length (password_entries (user w)))) w) ;;;
              persist_and_unlock request seed_len)
        end))).

(** ** Reference definitions, written from the specification *)

(** *** The xpub-type resolver (specification, 4.4) *)

Inductive coin_class : Type := Mainnet | Testnet.

Definition coin_class_of (coin : BTCCoin) : option coin_class :=
  match coin with
  | BTCCoin_BTC | BTCCoin_LTC => Some Mainnet
  | BTCCoin_TBTC | BTCCoin_TLTC => Some Testnet
  | BTCCoin_unrecognized _ => None
  end.

Inductive resolution : Type :=
| Encoding (output : BTCPubRequest_XPubType)
| NotRepresentable
| ConfigurationError.

#[local] Instance coin_class_eq_dec : EqDecision coin_class.
Proof. solve_decision. Defined.
#[local] Instance script_type_eq_dec : EqDecision BTCScriptConfig_Multisig_ScriptType.
Proof. solve_decision. Defined.

Fixpoint assoc {K V : Type} `{EqDecision K} (k : K) (table : list (K * V)) : option V :=
  match table with
  | [] => None
  | (k', v) :: rest => if decide (k = k') then Some v else assoc k rest
  end.

(** "for mainnet-class coins, P2WSH -> capital Z, P2WSH-in-P2SH -> capital
    Y; for testnet-class coins, the analogous capital V / capital U". *)
Definition electrum_table
    : list (coin_class * BTCScriptConfig_Multisig_ScriptType * BTCPubRequest_XPubType) :=
  [ (Mainnet, BTCScriptConfig_Multisig_ScriptType_P2WSH,
     BTCPubRequest_XPubType_CAPITAL_ZPUB);
    (Mainnet, BTCScriptConfig_Multisig_ScriptType_P2WSH_P2SH,
     BTCPubRequest_XPubType_CAPITAL_YPUB);
    (Testnet, BTCScriptConfig_Multisig_ScriptType_P2WSH,
     BTCPubRequest_XPubType_CAPITAL_VPUB);
    (Testnet, BTCScriptConfig_Multisig_ScriptType_P2WSH_P2SH,
     BTCPubRequest_XPubType_CAPITAL_UPUB) ].

(** "mainnet-class coins -> plain xpub; testnet-class coins -> plain tpub". *)
Definition xpub_tpub_table : list (coin_class * BTCPubRequest_XPubType) :=
  [ (Mainnet, BTCPubRequest_XPubType_XPUB);
    (Testnet, BTCPubRequest_XPubType_TPUB) ].

Definition XPubTypeResolver (coin : BTCCoin)
    (script_type : BTCScriptConfig_Multisig_ScriptType)
    (family : BTCRegisterScriptConfigRequest_XPubType) : resolution :=
  match family, coin_class_of coin with
  | BTCRegisterScriptConfigRequest_XPubType_unrecognized _, _ => ConfigurationError
  | _, None => ConfigurationError
  | BTCRegisterScriptConfigRequest_XPubType_AUTO_ELECTRUM, Some class =>
      match assoc (class, script_type) electrum_table with
      | Some output => Encoding output
      | None => NotRepresentable
      end
  | BTCRegisterScriptConfigRequest_XPubType_AUTO_XPUB_TPUB, Some class =>
      match assoc class xpub_tpub_table with
      | Some output => Encoding output
      | None => ConfigurationError
      end
  end.

(** How a resolution shows in the control flow of the C function: the
    encoding is selected, the call returns [false], or the firmware halts. *)
Definition realizes (f : flow BTCPubRequest_XPubType) (r : resolution) : Prop :=
  match r with
  | Encoding output => f = Next output
  | NotRepresentable => f = Return false
  | ConfigurationError => exists msg, f = Abort msg
  end.

Definition recognized_family (family : BTCRegisterScriptConfigRequest_XPubType) : Prop :=
  match family with
  | BTCRegisterScriptConfigRequest_XPubType_unrecognized _ => False
  | _ => True
  end.

Definition recognized_coin (coin : BTCCoin) : Prop :=
  coin = BTCCoin_BTC \/ coin = BTCCoin_LTC \/ coin = BTCCoin_TBTC \/ coin = BTCCoin_TLTC.

(** *** The cosigner confirmation sequencer (specification, 4.5) *)

(** "Present a summary (coin name, threshold-of-total) confirmation". *)
Definition summary_text (coin : BTCCoin) (multisig : BTCScriptConfig_Multisig XPub)
    : string :=
  "Coin: " +:+ btc_common_coin_name coin +:+ nl +:+ "Multisig type: " +:+
  decimal (threshold multisig) +:+ "-of-" +:+ decimal (N.of_nat (xpubs_count multisig)).

Definition summary_confirmation (title : string) (coin : BTCCoin)
    (multisig : BTCScriptConfig_Multisig XPub) : confirm_params_t :=
  {| title := title; body := summary_text coin multisig; scrollable := false;
     longtouch := false; accept_is_nextarrow := true |}.

(** "Present the human-readable multisig account name for confirmation
    (scrollable if long)". *)
Definition name_confirmation (title name : string) : confirm_params_t :=
  {| title := title; body := name; scrollable := true;
     longtouch := false; accept_is_nextarrow := true |}.

(** "decode its extended public key, encode it in the resolved output
    format": [None] when the decoding or the encoding fails. *)
Definition cosigner_xpub_str (multisig : BTCScriptConfig_Multisig XPub)
    (output : BTCPubRequest_XPubType) (i : nat) : option string :=
  xpub_in ← xpubs multisig !! i;
  xpub ← apps_common_bip32_xpub_from_protobuf xpub_in;
  btc_common_encode_xpub xpub output XPUB_ENCODED_LEN.

(** "a confirmation labeled with its 1-based position, total count, and an
    explicit (this device) marker when i == our_xpub_index.  The final
    cosigner's confirmation requires a deliberately longer user
    acknowledgement gesture than the others". *)
Definition cosigner_confirmation (title : string)
    (multisig : BTCScriptConfig_Multisig XPub) (i : nat) (xpub_str : string)
    : confirm_params_t :=
  {| title := title;
     body :=
       "Cosigner " +:+ decimal (N.of_nat (i + 1)) +:+ "/" +:+
       decimal (N.of_nat (xpubs_count multisig)) +:+
       (if bool_decide (N.of_nat i = our_xpub_index multisig)
        then " (this device)" else "") +:+
       ": " +:+ xpub_str;
     scrollable := true;
     longtouch := bool_decide (i + 1 = xpubs_count multisig);
     accept_is_nextarrow := true |}.

(** The world after the summary, the name and the confirmations of the
    first cosigners have been presented and [rest] are the answers the
    user has not given yet. *)
Definition after_confirmations (w : world) (title : string) (coin : BTCCoin)
    (name : string) (multisig : BTCScriptConfig_Multisig XPub)
    (xpub_strs : list string) (rest : list bool) : world :=
  {| user := with_confirm_answers rest (user w);
     trace := trace w ++
       [ui_confirm (summary_confirmation title coin multisig);
        ui_confirm (name_confirmation title name)] ++
       imap (fun i xpub_str => ui_confirm (cosigner_confirmation title multisig i xpub_str))
         xpub_strs;
     mem := mem w;
     dev := dev w |}.

(** The world of the loop after the confirmations of [xpub_strs], the first
    of which is cosigner [start]. *)
Definition loop_world (title : string) (multisig : BTCScriptConfig_Multisig XPub)
    (w : world) (start : nat) (xpub_strs : list string) (rest : list bool) : world :=
  {| user := with_confirm_answers rest (user w);
     trace := trace w ++
       imap (fun j xpub_str =>
               ui_confirm (cosigner_confirmation title multisig (start + j) xpub_str))
         xpub_strs;
     mem := mem w;
     dev := dev w |}.

(** *** The mnemonic assembler (specification, 4.2) *)

(** "On Accepted: store the word at position, advance.  On Delete: if
    position > 0, decrement position, otherwise remain at 0.  On Cancel:
    terminate assembly, report failure." *)
Definition MnemonicAssembler_step (st : entry_state)
    (outcome : workflow_trinary_input_result_t) : option entry_state :=
  match outcome with
  | WORKFLOW_TRINARY_INPUT_RESULT_OK entered =>
      Some {| word_idx := S (word_idx st);
              words := <[word_idx st := entered]> (words st) |}
  | WORKFLOW_TRINARY_INPUT_RESULT_DELETE =>
      Some {| word_idx := Nat.pred (word_idx st); words := words st |}
  | WORKFLOW_TRINARY_INPUT_RESULT_CANCEL => None
  end.

(** Where the assembler stands once the user has produced [outcomes]:
    all [word_count] words entered (with the outcomes not consumed),
    cancelled, or still waiting for an entry. *)
Inductive assembly : Type :=
| Complete (st : entry_state) (remaining : list workflow_trinary_input_result_t)
| Cancelled (remaining : list workflow_trinary_input_result_t)
| AwaitingEntry (st : entry_state).

Fixpoint MnemonicAssembler_run (word_count : nat) (st : entry_state)
    (outcomes : list workflow_trinary_input_result_t) {struct outcomes} : assembly :=
  if word_idx st <? word_count then
    match outcomes with
    | [] => AwaitingEntry st
    | outcome :: rest =>
        match MnemonicAssembler_step st outcome with
        | Some st' => MnemonicAssembler_run word_count st' rest
        | None => Cancelled rest
        end
    end
  else Complete st outcomes.

(** The entry screens shown while the user produces [outcomes]: each shows
    the position and, as preset, the word stored there. *)
Fixpoint entry_screens (word_count : nat) (st : entry_state)
    (outcomes : list workflow_trinary_input_result_t) {struct outcomes} : list event :=
  if word_idx st <? word_count then
    ui_trinary_input_wordlist (word_idx st)
      (preset_of (default "" (words st !! word_idx st))) ::
    match outcomes with
    | [] => []
    | outcome :: rest =>
        match MnemonicAssembler_step st outcome with
        | Some st' => entry_screens word_count st' rest
        | None => []
        end
    end
  else [].

Definition initial_entry_state : entry_state :=
  {| word_idx := 0; words := replicate WORKFLOW_RESTORE_FROM_MNEMONIC_MAX_WORDS "" |}.

(** "WordCount: enumeration {12, 18, 24}" behind the ternary choice. *)
Definition WordCount (choice : trinary_choice_t) : option nat :=
  match choice with
  | TRINARY_CHOICE_LEFT => Some 12
  | TRINARY_CHOICE_MIDDLE => Some 18
  | TRINARY_CHOICE_RIGHT => Some 24
  | TRINARY_CHOICE_unrecognized _ => None
  end.

(** Whether the keystore delivers every entry of the word list. *)
Definition wordlist_available : bool :=
  forallb (fun i => bool_decide (is_Some (keystore_get_bip39_word i)))
    (seq 0 BIP39_WORDLIST_LEN).

(** The size of the [mnemonic] array. *)
Definition mnemonic_size : nat :=
  (WORKFLOW_TRINARY_INPUT_MAX_WORD_LENGTH + 1) * WORKFLOW_RESTORE_FROM_MNEMONIC_MAX_WORDS.

(** A zero-initialised array of [size] bytes that holds the C string [s]. *)
Definition cstring_in (size : nat) (s : string) : buffer :=
  list_ascii_of_string s ++ zeroed (size - String.length s).

(** A word as the input component delivers it from the word list: not
    empty, within the slot, and without NUL or space. *)
Definition wordlist_word (word : string) : Prop :=
  (0 < String.length word <= WORKFLOW_TRINARY_INPUT_MAX_WORD_LENGTH) /\
  (NUL ∉ list_ascii_of_string word) /\
  (SPACE ∉ list_ascii_of_string word).

Definition wordlist_entry (outcome : workflow_trinary_input_result_t) : Prop :=
  match outcome with
  | WORKFLOW_TRINARY_INPUT_RESULT_OK entered => wordlist_word entered
  | _ => True
  end.

(** Number of spaces of a string. *)
Definition count_spaces (s : string) : nat :=
  length (filter (fun c => c = SPACE) (list_ascii_of_string s)).

(** *** Observations on worlds *)

(** Two worlds that differ at most in what has been logged. *)
Definition same_state (w1 w2 : world) : Prop :=
  user w1 = user w2 /\ mem w1 = mem w2 /\ dev w1 = dev w2.

(** A computation that never reads the log. *)
Definition trace_blind {A} (m : M A) : Prop :=
  forall w1 w2, same_state w1 w2 ->
    fst (m w1) = fst (m w2) /\ same_state (snd (m w1)) (snd (m w2)).

(** The sizes of the secret buffers that exist. *)
Definition sizes (m : secrets) : option nat * option nat * option nat :=
  (length <$> mnemonic m, length <$> seed m, length <$> password m).

(** A computation that declares no secret buffer and resizes none. *)
Definition keeps_sizes {A} (m : M A) : Prop :=
  forall w, sizes (mem (snd (m w))) = sizes (mem w).

(** A flow in which the function (or the scope) is left. *)
Definition leaves {A} (f : flow A) : Prop :=
  match f with
  | Next _ | Return _ => True
  | _ => False
  end.

Definition no_secrets : secrets :=
  {| mnemonic := None; seed := None; password := None |}.

(** How the state of the assembler shows in the control flow of
    [_get_mnemonic], and the outcomes it has not consumed. *)
Definition flow_of_assembly (a : assembly) : flow entry_state :=
  match a with
  | Complete st _ => Next st
  | Cancelled _ => Return false
  | AwaitingEntry _ => Waiting
  end.

Definition unconsumed (a : assembly) : list workflow_trinary_input_result_t :=
  match a with
  | Complete _ remaining => remaining
  | Cancelled remaining => remaining
  | AwaitingEntry _ => []
  end.

(** The world of the entry loop after the user has produced [outcomes]. *)
Definition after_entries (w : world) (word_count : nat) (st : entry_state)
    (outcomes : list workflow_trinary_input_result_t) : world :=
  {| user :=
       with_word_entries (unconsumed (MnemonicAssembler_run word_count st outcomes))
         (user w);
     trace := trace w ++ entry_screens word_count st outcomes;
     mem := mem w;
     dev := dev w |}.

(** What holds of the loop variables throughout the entry loop: the array
    has its 24 slots and the position is within the word count. *)
Definition entry_invariant (word_count : nat) (st : entry_state) : Prop :=
  length (words st) = WORKFLOW_RESTORE_FROM_MNEMONIC_MAX_WORDS /\
  word_idx st <= word_count /\
  word_count <= WORKFLOW_RESTORE_FROM_MNEMONIC_MAX_WORDS.

(** When every accepted word is a word of the word list: no slot holds a
    NUL, and every slot before the position holds a word of the list. *)
Definition entered_words (st : entry_state) : Prop :=
  Forall (fun word => NUL ∉ list_ascii_of_string word) (words st) /\
  (forall i, i < word_idx st ->
     exists word, words st !! i = Some word /\ wordlist_word word).

(** The world in which the entry loop starts: the word count is picked and
    announced. *)
Definition after_pick (w : world) (picks : list trinary_choice_t) (word_count : nat)
    : world :=
  {| user := with_number_of_words_picks picks (user w);
     trace := trace w ++
       [ui_trinary_choice "How many words?" "12" "18" "24";
        ui_status
          (fst (snprintf 20 ("Enter " +:+ decimal (N.of_nat word_count) +:+ " words")))
          true];
     mem := mem w;
     dev := dev w |}.

(** *** The recovery coordinator (specification, 4.3) *)

(** Events of the steps before the seed is persisted: everything but the
    time confirmation and the calls that change or unlock the device. *)
Definition early_event (e : event) : Prop :=
  match e with
  | ui_confirm_time _ _
  | call_keystore_encrypt_and_store_seed _
  | call_securechip_u2f_counter_set _ _
  | call_memory_set_initialized _
  | call_keystore_unlock _ => False
  | _ => True
  end.

(** A computation of the steps before the seed is persisted: it leaves the
    device and the pending time confirmations alone and logs early events
    only. *)
Definition early {A} (m : M A) : Prop :=
  forall w,
    dev (snd (m w)) = dev w /\
    confirm_time_answers (user (snd (m w))) = confirm_time_answers (user w) /\
    exists es, trace (snd (m w)) = trace w ++ es /\ Forall early_event es.

(** The result of [workflow_restore_from_mnemonic] when the scope of the
    three secret buffers is left with [scope_result]. *)
Definition returned (scope_result : flow bool * world) : flow bool * world :=
  match scope_result with
  | (Next b, w) | (Return b, w) =>
      (Next b,
       set_mem cleanup_mnemonic (set_mem cleanup_seed (set_mem cleanup_password w)))
  | other => other
  end.

(** "On Mismatch, present a binary choice: try again?" *)
Definition try_again : confirm_params_t :=
  {| title := "";
     body := "Passwords" +:+ nl +:+ "do not match." +:+ nl +:+ "Try again?";
     scrollable := false;
     longtouch := false;
     accept_is_nextarrow := false |}.

(** The screens of [n] password prompts that end in a mismatch. *)
Definition mismatch_screens (n : nat) : list event :=
  concat (replicate n [ui_password_set; ui_confirm try_again]).

Definition mismatch (entry : string * string) : Prop := fst entry <> snd entry.

Definition unlock_failed : string := "workflow_restore_from_mnemonic: unlock failed".

(** The world in which the scope of the password buffer is entered: the
    mnemonic in [buf] is valid, [bytes] is the seed derived from it. *)
Definition password_scope_entry (w2 : world) (buf : buffer) (bytes : list Byte.byte)
    : world :=
  {| user := user w2;
     trace := trace w2 ++
       [call_keystore_bip39_mnemonic_to_seed (c_str buf) true;
        ui_status ("Recovery words" +:+ nl +:+ "valid") true];
     mem :=
       {| mnemonic := mnemonic (mem w2);
          seed := Some (take 32 (bytes ++ drop (length bytes) (indeterminate <$> seq 0 32)));
          password := Some (zeroed SET_PASSWORD_MAX_PASSWORD_LENGTH) |};
     dev := dev w2 |}.

(** The world after [n] password prompts that ended in a mismatch, each
    followed by an accepted "try again?". *)
Definition after_mismatches (w : world) (n : nat) (entries : list (string * string))
    (answers : list bool) : world :=
  {| user := with_password_entries entries (with_confirm_answers answers (user w));
     trace := trace w ++ mismatch_screens n;
     mem := mem w;
     dev := dev w |}.

(** ** A concrete configuration

    Collaborators and user sessions on which the properties below are
    instantiated: three cosigners of a 2-of-3 account, and the recovery of
    a wallet from twelve words. *)

Definition example_coin_name (coin : BTCCoin) : string :=
  match coin with
  | BTCCoin_BTC => "Bitcoin"
  | BTCCoin_TBTC => "BTC Testnet"
  | BTCCoin_LTC => "Litecoin"
  | BTCCoin_TLTC => "LTC Testnet"
  | BTCCoin_unrecognized _ => ""
  end.

(** Keys stand for themselves: a key message decodes unless it is empty,
    and is encoded behind the prefix of the output type when the result
    and its terminator fit the buffer. *)
Definition example_xpub_from_protobuf (xpub_in : string) : option string :=
  if String.eqb xpub_in "" then None else Some xpub_in.

Definition example_xpub_prefix (output : BTCPubRequest_XPubType) : string :=
  match output with
  | BTCPubRequest_XPubType_TPUB => "tpub"
  | BTCPubRequest_XPubType_XPUB => "xpub"
  | BTCPubRequest_XPubType_CAPITAL_VPUB => "Vpub"
  | BTCPubRequest_XPubType_CAPITAL_ZPUB => "Zpub"
  | BTCPubRequest_XPubType_CAPITAL_UPUB => "Upub"
  | BTCPubRequest_XPubType_CAPITAL_YPUB => "Ypub"
  end.

Definition example_encode_xpub (xpub : string) (output : BTCPubRequest_XPubType)
    (size : nat) : option string :=
  let xpub_str := example_xpub_prefix output +:+ xpub in
  if String.length xpub_str <? size then Some xpub_str else None.

Definition example_multisig : BTCScriptConfig_Multisig string :=
  {| threshold := 2;
     xpubs := ["5YdQc3i"; "5cqDRoK"; "5gEC6Kd"];
     our_xpub_index := 1;
     script_type := BTCScriptConfig_Multisig_ScriptType_P2WSH |}.

Definition example_device : device :=
  {| stored_seed := None; initialized := false; u2f_counter := None |}.

(** A device that has shown nothing yet, in front of a user who will act
    as [script] says. *)
Definition example_world (script : user_script) : world :=
  {| user := script; trace := []; mem := no_secrets; dev := example_device |}.

(** The user accepts the summary, the name and the first cosigner, and
    declines the second. *)
Definition example_cosigner_answers : user_script :=
  {| number_of_words_picks := [];
     word_entries := [];
     password_entries := [];
     confirm_answers := [true; true; true; false];
     confirm_time_answers := [] |}.

Definition example_words : list string :=
  ["abandon"; "ability"; "able"; "about"; "above"; "absent";
   "absorb"; "abstract"; "absurd"; "abuse"; "access"; "accident"].

Definition example_get_bip39_word (i : nat) : option string :=
  Some (default "zoo" (example_words !! i)).

(** Twelve words give a seed of sixteen bytes. *)
Definition example_mnemonic_to_seed (mnemonic : string) : option (list Byte.byte) :=
  if decide (count_spaces mnemonic = 11) then Some (replicate 16 Byte.x2a) else None.

Definition example_indeterminate (offset : nat) : Byte.byte := Byte.xa5.

Definition example_request : RestoreFromMnemonicRequest :=
  {| timestamp := 1600000000; timezone_offset := 3600 |}.

(** The user picks twelve words, enters them, mistypes the repetition of
    the first password, asks to try again and then sets a password; a
    time confirmation would be declined. *)
Definition example_recovery : user_script :=
  {| number_of_words_picks := [TRINARY_CHOICE_LEFT];
     word_entries := WORKFLOW_TRINARY_INPUT_RESULT_OK <$> example_words;
     password_entries := [("A", "B"); ("C", "C")];
     confirm_answers := [true];
     confirm_time_answers := [false] |}.

(** The device once [workflow_restore_from_mnemonic] has declared the
    [mnemonic] array, whose slots hold ten characters and a terminator. *)
Definition example_entry_world (script : user_script) : world :=
  set_mem (with_mnemonic (Some (zeroed ((10 + 1) * 24)))) (example_world script).

(** The user gives up at the third word. *)
Definition example_cancelled_entry : user_script :=
  with_word_entries
    [WORKFLOW_TRINARY_INPUT_RESULT_OK "abandon";
     WORKFLOW_TRINARY_INPUT_RESULT_OK "ability";
     WORKFLOW_TRINARY_INPUT_RESULT_CANCEL]
    example_recovery.

(** The user declines to try again after the mismatch. *)
Definition example_abandoned_password : user_script :=
  with_confirm_answers [false] example_recovery.

(** The user confirms the time. *)
Definition example_time_confirmed : user_script :=
  with_confirm_time_answers [true] example_recovery.

(** The first two words are entered and the third is awaited. *)
Definition example_entry_state : entry_state :=
  {| word_idx := 2; words := ["abandon"; "ability"] ++ replicate 22 "" |}.

Definition example_store_seed (d : device) (seed : list Byte.byte) (password : string)
    : bool := true.
Definition example_counter_set (d : device) (counter : N) : bool := false.
Definition example_set_initialized (d : device) : bool := true.
Definition example_unlock (d : device) (password : string) : keystore_error_t :=
  match stored_seed d with
  | Some (_, stored_password) =>
      if String.eqb password stored_password then KEYSTORE_OK
      else KEYSTORE_ERR_INCORRECT_PASSWORD
  | None => KEYSTORE_ERR_FATAL
  end.
(** A keystore that fails to unlock whatever it is given. *)
Definition example_unlock_fatal (d : device) (password : string) : keystore_error_t :=
  KEYSTORE_ERR_FATAL.

(** *** Observations on the confirmation of a multisig account *)

(** A confirmation shown under [heading] whose accept button is the next
    arrow. *)
Definition confirmation_under (heading : string) (e : event) : Prop :=
  match e with
  | ui_confirm params => title params = heading /\ accept_is_nextarrow params = true
  | _ => False
  end.

(** A computation that does nothing but show at most [bound] confirmations
    under [heading] and take the answers to them: the secret buffers, the
    device and every other outcome of the user stay as they are, and no
    more answers are taken than confirmations are shown. *)
Definition confirms_only {A} (heading : string) (bound : nat) (m : M A) : Prop :=
  forall w,
    mem (snd (m w)) = mem w /\
    dev (snd (m w)) = dev w /\
    with_confirm_answers [] (user (snd (m w))) = with_confirm_answers [] (user w) /\
    exists es used,
      trace (snd (m w)) = trace w ++ es /\
      Forall (confirmation_under heading) es /\
      length es <= bound /\
      confirm_answers (user w) = used ++ confirm_answers (user (snd (m w))) /\
      length used <= length es.

(** *** Observations on the entry of the recovery words *)

(** An outcome of the word entry whose word, if one is accepted, is a C
    string: no NUL occurs in it. *)
Definition c_string_entry (outcome : workflow_trinary_input_result_t) : Prop :=
  match outcome with
  | WORKFLOW_TRINARY_INPUT_RESULT_OK entered => NUL ∉ list_ascii_of_string entered
  | _ => True
  end.

(** *** The cleanup of the word list, restore_from_mnemonic.c lines 76-84 *)

(** [for (i = 0; i < BIP39_WORDLIST_LEN; i++)] of [_cleanup_wordlist], from
    index [i] with [count] entries to go: an entry that is not NULL is
    passed to [free] and set to NULL.  An entry is [None] for NULL and
    [Some word] for a pointer to an allocated word.  The result is the
    array and the pointers freed so far, in call order; it is [None] when
    an entry lies past the end of the array. *)
Fixpoint cleanup_wordlist_from {P : Type} (count i : nat) (wordlist : list (option P))
    (freed : list P) : option (list (option P) * list P) :=
  match count with
  | O => Some (wordlist, freed)
  | S count' =>
      match wordlist !! i with
      | None => None
      | Some None => cleanup_wordlist_from count' (S i) wordlist freed
      | Some (Some word) =>
          cleanup_wordlist_from count' (S i) (<[i := None]> wordlist) (freed ++ [word])
      end
  end.

(** [_cleanup_wordlist(&wordlist)]. *)
Definition _cleanup_wordlist {P : Type} (wordlist : list (option P))
    : option (list (option P) * list P) :=
  cleanup_wordlist_from BIP39_WORDLIST_LEN 0 wordlist [].

(** *** Further example configurations *)

(** A coin whose name alone overflows the summary. *)
Definition example_verbose_coin_name (coin : BTCCoin) : string :=
  "Bitcoin, a peer-to-peer electronic cash system, on its main network with real coins".

(** The user accepts everything shown for the three cosigners. *)
Definition example_all_accepted : user_script :=
  with_confirm_answers [true; true; true; true; true] example_cosigner_answers.

(** The user declines the summary. *)
Definition example_summary_declined : user_script :=
  with_confirm_answers [false; true] example_cosigner_answers.

(** A keystore that fails on the last word of the list. *)
Definition example_incomplete_wordlist (i : nat) : option string :=
  if Nat.eqb i 2047 then None else example_get_bip39_word i.

(** The twelve words with a first word of fourteen characters, as a word
    slot longer than the firmware's would hold it. *)
Definition example_long_first_word : user_script :=
  with_word_entries
    (WORKFLOW_TRINARY_INPUT_RESULT_OK <$> "abandonabandon" :: drop 1 example_words)
    example_recovery.

(** An array of fetched words, most entries NULL. *)
Definition example_wordlist_array : list (option string) :=
  [Some "abandon"; None; Some "able"] ++ replicate 2045 None.

Definition example_reject_mnemonic (mnemonic : string) : option (list Byte.byte) := None.
Definition example_store_fails (d : device) (seed : list Byte.byte) (password : string)
    : bool := false.
Definition example_marking_fails (d : device) : bool := false.

(** * Properties *)

Set Default Proof Using "Type".

(** ** The xpub-type resolution *)

(** C1: for every coin, script type and requested family the switch of
    [apps_btc_confirm_multisig] agrees with the reference table: under the
    Electrum family BTC and LTC give Zpub for P2WSH and Ypub for
    P2WSH-in-P2SH, TBTC and TLTC give Vpub and Upub, every other script
    type makes the call return false; under the xpub/tpub family BTC and
    LTC give xpub, TBTC and TLTC give tpub, whatever the script type. *)
Theorem C1_select_output_xpub_type_table :
  forall family coin script_type,
    realizes (select_output_xpub_type family coin script_type)
             (XPubTypeResolver coin script_type family).
Proof.
  intros [| |rawf] [| | | |rawc] [| |raws]; cbn; eauto;
    repeat (case_decide; try congruence); cbn; eauto.
Qed.

(** C7: an unrecognized coin and an unrecognized family each end the
    resolution in Abort, never in a return; with a recognized coin and a
    recognized family the resolution never Aborts; an unsupported script
    type under the Electrum family is an ordinary [return false]. *)
Theorem C7_unrecognized_values_abort :
  (forall raw family script_type,
      exists msg,
        select_output_xpub_type family (BTCCoin_unrecognized raw) script_type = Abort msg) /\
  (forall raw coin script_type,
      exists msg,
        select_output_xpub_type
          (BTCRegisterScriptConfigRequest_XPubType_unrecognized raw) coin script_type
        = Abort msg) /\
  (forall family coin script_type msg,
      recognized_coin coin -> recognized_family family ->
      select_output_xpub_type family coin script_type <> Abort msg) /\
  (forall coin raw,
      recognized_coin coin ->
      select_output_xpub_type BTCRegisterScriptConfigRequest_XPubType_AUTO_ELECTRUM
        coin (BTCScriptConfig_Multisig_ScriptType_unrecognized raw) = Return false).
Proof.
  repeat split.
  - intros raw [| |rawf] st; cbn; eauto.
  - intros raw coin st; cbn; eauto.
  - intros family coin st msg Hcoin Hfam.
    destruct Hcoin as [-> | [-> | [-> | ->]]];
      destruct family; try contradiction; destruct st; cbn; discriminate.
  - intros coin raw Hcoin.
    destruct Hcoin as [-> | [-> | [-> | ->]]]; reflexivity.
Qed.

(** ** Strings and formatted output *)

Lemma string_length_app (s t : string) :
  String.length (s +:+ t) = String.length s + String.length t.
Proof. induction s as [|c s IH]; simpl; [reflexivity | now rewrite IH]. Qed.

Lemma substring_whole (s : string) (n : nat) :
  String.length s <= n -> substring 0 n s = s.
Proof.
  revert n. induction s as [|c s IH]; intros [|n] Hlen; simpl in *;
    try reflexivity; try lia.
  rewrite IH; [reflexivity | lia].
Qed.

Lemma snprintf_fits (size : nat) (s : string) :
  String.length s < size ->
  snprintf size s = (s, Z.of_nat (String.length s)).
Proof.
  intros Hlen. unfold snprintf. rewrite substring_whole; [reflexivity | lia].
Qed.

Lemma check_snprintf_fits (len size : nat) (msg : string) (w : world) :
  len < size -> check_snprintf (Z.of_nat len) size msg w = (Next tt, w).
Proof.
  intros Hlen. unfold check_snprintf.
  destruct (Z.ltb_spec (Z.of_nat len) 0); [lia |].
  destruct (Z.geb_spec (Z.of_nat len) (Z.of_nat size)); [lia | reflexivity].
Qed.

Lemma decimal_digits_length (fuel k : nat) (n : N) (acc : string) :
  1 <= k -> (n < 10 ^ N.of_nat k)%N ->
  String.length (decimal_digits fuel n acc) <= k + String.length acc.
Proof.
  revert k n acc. induction fuel as [|fuel IH]; intros k n acc Hk Hn; simpl.
  - lia.
  - destruct (N.eqb_spec (n / 10) 0) as [Hsmall | Hbig]; simpl; [lia |].
    destruct k as [|[|k]]; [lia | |].
    + exfalso. apply Hbig, N.div_small. exact Hn.
    + etransitivity; [apply (IH (S k)) |]; simpl; [lia | | lia].
      apply N.Div0.div_lt_upper_bound.
      rewrite <- N.pow_succ_r', <- Nat2N.inj_succ. exact Hn.
Qed.

Lemma decimal_length (k : nat) (n : N) :
  1 <= k -> (n < 10 ^ N.of_nat k)%N -> String.length (decimal n) <= k.
Proof.
  intros Hk Hn. unfold decimal.
  etransitivity; [apply decimal_digits_length; eassumption | simpl; lia].
Qed.

Lemma decimal_length_32 (n : N) :
  (n < 2 ^ 32)%N -> String.length (decimal n) <= 10.
Proof.
  intros Hn. apply decimal_length; [lia |].
  eapply N.lt_trans; [exact Hn | reflexivity].
Qed.

(** ** The cosigner confirmation sequence *)

Section CosignerSequencer.

(** The encoder is given the size of [xpub_str] and never reports success
    for a string that does not fit it; the cosigner count is a 32-bit
    value. *)
Hypothesis btc_common_encode_xpub_fits :
  forall xpub output xpub_str,
    btc_common_encode_xpub xpub output XPUB_ENCODED_LEN = Some xpub_str ->
    String.length xpub_str < XPUB_ENCODED_LEN.

Variable title : string.
Variable multisig : BTCScriptConfig_Multisig XPub.
Variable output : BTCPubRequest_XPubType.

Hypothesis xpubs_count_32 : (N.of_nat (xpubs_count multisig) < 2 ^ 32)%N.

Lemma cosigner_xpub_str_Some (i : nat) (xpub_str : string) :
  cosigner_xpub_str multisig output i = Some xpub_str ->
  exists xpub_in xpub,
    xpubs multisig !! i = Some xpub_in /\
    apps_common_bip32_xpub_from_protobuf xpub_in = Some xpub /\
    btc_common_encode_xpub xpub output XPUB_ENCODED_LEN = Some xpub_str.
Proof.
  unfold cosigner_xpub_str. intros H.
  destruct (xpubs multisig !! i) as [xpub_in|]; [|discriminate].
  simpl in H.
  destruct (apps_common_bip32_xpub_from_protobuf xpub_in) as [xpub|] eqn:Hdec;
    [|discriminate].
  simpl in H. eauto.
Qed.

Lemma cosigner_xpub_str_None (i : nat) :
  i < xpubs_count multisig ->
  cosigner_xpub_str multisig output i = None ->
  exists xpub_in,
    xpubs multisig !! i = Some xpub_in /\
    (apps_common_bip32_xpub_from_protobuf xpub_in = None \/
     exists xpub,
       apps_common_bip32_xpub_from_protobuf xpub_in = Some xpub /\
       btc_common_encode_xpub xpub output XPUB_ENCODED_LEN = None).
Proof.
  unfold cosigner_xpub_str, xpubs_count. intros Hi H.
  destruct (lookup_lt_is_Some_2 (xpubs multisig) i Hi) as [xpub_in Hin].
  rewrite Hin in H. simpl in H. exists xpub_in. split; [exact Hin |].
  destruct (apps_common_bip32_xpub_from_protobuf xpub_in) as [xpub|]; eauto.
Qed.

(** One iteration whose key decodes and encodes: the confirmation is
    presented and the user's answer decides the flow. *)
Lemma confirm_cosigner_presented (i : nat) (xpub_str : string)
    (answer : bool) (rest : list bool) (w : world) :
  cosigner_xpub_str multisig output i = Some xpub_str ->
  confirm_answers (user w) = answer :: rest ->
  confirm_cosigner title multisig output (xpubs_count multisig) i w =
    (if answer then Next tt else Return false,
     {| user := with_confirm_answers rest (user w);
        trace := trace w ++ [ui_confirm (cosigner_confirmation title multisig i xpub_str)];
        mem := mem w;
        dev := dev w |}).
Proof using Type btc_common_encode_xpub_fits xpubs_count_32.
  intros Hstr Hanswers.
  destruct (cosigner_xpub_str_Some _ _ Hstr) as (xpub_in & xpub & Hin & Hdec & Henc).
  assert (Hi : i < xpubs_count multisig) by (eapply lookup_lt_Some; exact Hin).
  pose proof (btc_common_encode_xpub_fits _ _ _ Henc) as Hfit.
  assert (Hd1 : String.length (decimal (N.of_nat (i + 1))) <= 10)
    by (apply decimal_length_32; lia).
  assert (Hd2 : String.length (decimal (N.of_nat (xpubs_count multisig))) <= 10)
    by (apply decimal_length_32; lia).
  unfold confirm_cosigner. rewrite Hin, Hdec, Henc.
  assert (Hlong : Nat.eqb i (xpubs_count multisig - 1)
                  = bool_decide (i + 1 = xpubs_count multisig)).
  { destruct (Nat.eqb_spec i (xpubs_count multisig - 1));
      [rewrite bool_decide_eq_true_2 | rewrite bool_decide_eq_false_2];
      (reflexivity || lia). }
  unfold cosigner_confirmation. rewrite <- Hlong.
  destruct (N.eqb_spec (N.of_nat i) (our_xpub_index multisig)) as [Hour | Hother];
    [rewrite bool_decide_eq_true_2 by exact Hour
    | rewrite bool_decide_eq_false_2 by exact Hother];
    (rewrite snprintf_fits
       by (rewrite !string_length_app; simpl String.length; lia));
    cbv beta iota; unfold bind;
    (rewrite check_snprintf_fits
       by (rewrite !string_length_app; simpl String.length; lia));
    unfold workflow_confirm_blocking, log, await, bind, ret, return_; simpl;
    rewrite Hanswers; destruct answer; reflexivity.
Qed.

(** One iteration whose key does not decode or does not encode: the call
    returns [false] and nothing is presented. *)
Lemma confirm_cosigner_failed (i : nat) (w : world) :
  i < xpubs_count multisig ->
  cosigner_xpub_str multisig output i = None ->
  confirm_cosigner title multisig output (xpubs_count multisig) i w = (Return false, w).
Proof.
  intros Hi Hnone.
  destruct (cosigner_xpub_str_None _ Hi Hnone) as (xpub_in & Hin & [Hdec | (xpub & Hdec & Henc)]);
    unfold confirm_cosigner; rewrite Hin, Hdec; [| rewrite Henc]; reflexivity.
Qed.

Lemma with_confirm_answers_same (u : user_script) (l : list bool) :
  confirm_answers u = l -> with_confirm_answers l u = u.
Proof. destruct u; simpl; intros ->; reflexivity. Qed.

Lemma bind_assoc {A B C} (m : M A) (f : A -> M B) (g : B -> M C) (w : world) :
  bind (bind m f) g w = bind m (fun a => bind (f a) g) w.
Proof. unfold bind. destruct (m w) as [[a|b|msg| |] w']; reflexivity. Qed.

Lemma bind_ext {A B} (m : M A) (f g : A -> M B) (w : world) :
  (forall a w', f a w' = g a w') -> bind m f w = bind m g w.
Proof. intros H. unfold bind. destruct (m w) as [[a|b|msg| |] w']; auto. Qed.

Lemma for_loop_app (count1 count2 start : nat) (body : nat -> M unit) (w : world) :
  for_loop (count1 + count2) start body w =
  (for_loop count1 start body ;;; for_loop count2 (start + count1) body) w.
Proof.
  revert start w. induction count1 as [|count1 IH]; intros start w; simpl.
  - unfold bind, ret. simpl. now rewrite Nat.add_0_r.
  - rewrite bind_assoc. apply bind_ext. intros _ w'.
    rewrite IH. now rewrite Nat.add_succ_r.
Qed.

(** As long as every key decodes and encodes and the user accepts, the loop
    presents one confirmation per cosigner, in ascending order. *)
Lemma cosigner_loop_accepted (xpub_strs : list string) (start : nat)
    (rest : list bool) (w : world) :
  (forall j xpub_str,
      xpub_strs !! j = Some xpub_str ->
      cosigner_xpub_str multisig output (start + j) = Some xpub_str) ->
  confirm_answers (user w) = replicate (length xpub_strs) true ++ rest ->
  for_loop (length xpub_strs) start
    (confirm_cosigner title multisig output (xpubs_count multisig)) w =
  (Next tt, loop_world title multisig w start xpub_strs rest).
Proof using Type btc_common_encode_xpub_fits xpubs_count_32.
  revert start w.
  induction xpub_strs as [|xpub_str xpub_strs IH]; intros start w Hstrs Hanswers.
  - simpl in *. unfold ret, loop_world. simpl.
    rewrite with_confirm_answers_same by exact Hanswers.
    rewrite app_nil_r. now destruct w.
  - simpl length. simpl for_loop. unfold bind.
    erewrite confirm_cosigner_presented; cycle 1.
    + specialize (Hstrs 0 xpub_str eq_refl). rewrite Nat.add_0_r in Hstrs. exact Hstrs.
    + exact Hanswers.
    + rewrite (IH (S start) _); cycle 1.
      * intros j s Hj. rewrite Nat.add_succ_l, <- Nat.add_succ_r.
        apply Hstrs. exact Hj.
      * reflexivity.
      * unfold loop_world. simpl. rewrite Nat.add_0_r, <- app_assoc. simpl.
        do 4 f_equal.
        apply imap_ext. intros j s _. simpl.
        now replace (start + S j) with (S (start + j)) by lia.
Qed.

(** The loop stops at the first cosigner whose key fails to decode or to
    encode, or whose confirmation the user declines. *)
Lemma cosigner_loop_stops (xpub_strs : list string) (rest : list bool) (w : world) :
  length xpub_strs < xpubs_count multisig ->
  (forall j xpub_str,
      xpub_strs !! j = Some xpub_str ->
      cosigner_xpub_str multisig output j = Some xpub_str) ->
  confirm_answers (user w) = replicate (length xpub_strs) true ++ rest ->
  (cosigner_xpub_str multisig output (length xpub_strs) = None ->
   for_loop (xpubs_count multisig) 0
     (confirm_cosigner title multisig output (xpubs_count multisig)) w =
   (Return false, loop_world title multisig w 0 xpub_strs rest)) /\
  (forall xpub_str rest',
      cosigner_xpub_str multisig output (length xpub_strs) = Some xpub_str ->
      rest = false :: rest' ->
      for_loop (xpubs_count multisig) 0
        (confirm_cosigner title multisig output (xpubs_count multisig)) w =
      (Return false, loop_world title multisig w 0 (xpub_strs ++ [xpub_str]) rest')).
Proof using Type btc_common_encode_xpub_fits xpubs_count_32.
  intros Hi Hstrs Hanswers.
  assert (Hsplit : forall body,
    for_loop (xpubs_count multisig) 0 body w =
    (for_loop (length xpub_strs) 0 body ;;;
     for_loop (S (xpubs_count multisig - length xpub_strs - 1)) (length xpub_strs) body) w).
  { intros body.
    transitivity
      (for_loop (length xpub_strs + S (xpubs_count multisig - length xpub_strs - 1))
         0 body w); [f_equal; lia | apply for_loop_app]. }
  rewrite Hsplit. unfold bind.
  rewrite (cosigner_loop_accepted xpub_strs 0 rest w Hstrs Hanswers).
  simpl for_loop. unfold bind. split.
  - intros Hnone. now rewrite confirm_cosigner_failed.
  - intros xpub_str rest' Hsome ->.
    erewrite confirm_cosigner_presented; [| exact Hsome | reflexivity].
    unfold loop_world. simpl. rewrite imap_app, <- app_assoc. simpl.
    now rewrite Nat.add_0_r.
Qed.

(** The summary and the name are presented first; once both are accepted
    and the encoding is resolved, the call enters the loop. *)
Lemma confirm_multisig_reaches_loop (coin : BTCCoin) (name : string)
    (xpub_type : BTCRegisterScriptConfigRequest_XPubType)
    (answers : list bool) (w : world) :
  String.length (summary_text coin multisig) < 100 ->
  select_output_xpub_type xpub_type coin (script_type multisig) = Next output ->
  confirm_answers (user w) = true :: true :: answers ->
  apps_btc_confirm_multisig title coin name multisig true xpub_type w =
  call (for_loop (xpubs_count multisig) 0
          (confirm_cosigner title multisig output (xpubs_count multisig)) ;;;
        return_ true)
    (after_confirmations w title coin name multisig [] answers).
Proof.
  intros Hfits Hselect Hanswers.
  unfold apps_btc_confirm_multisig, call.
  fold (summary_text coin multisig).
  rewrite snprintf_fits by exact Hfits. cbv beta iota.
  unfold bind at 1. rewrite check_snprintf_fits by exact Hfits.
  unfold bind at 1. unfold workflow_confirm_blocking at 1.
  unfold bind at 1, log at 1, await at 1. simpl.
  rewrite Hanswers. simpl.
  unfold bind at 1. unfold workflow_confirm_blocking at 1.
  unfold bind at 1, log at 1, await at 1. simpl.
  unfold bind at 1, lift. rewrite Hselect.
  unfold after_confirmations, summary_confirmation, name_confirmation.
  unfold set_user, set_trace. simpl.
  rewrite <- app_assoc. reflexivity.
Qed.

Lemma after_confirmations_loop_world (coin : BTCCoin) (name : string)
    (answers rest : list bool) (xpub_strs : list string) (w : world) :
  loop_world title multisig
    (after_confirmations w title coin name multisig [] answers) 0 xpub_strs rest =
  after_confirmations w title coin name multisig xpub_strs rest.
Proof.
  unfold loop_world, after_confirmations. simpl. now rewrite <- app_assoc.
Qed.

(** C2: with [verify_xpubs] set and the summary and the name accepted, the
    confirmations of the cosigners are presented one per index, in
    ascending order, each labeled with its 1-based position and the total,
    marked (this device) exactly at [our_xpub_index] and with the long
    touch exactly at the last index.  [xpub_strs] are the encoded keys of
    the cosigners the user accepts before the run ends: when these are all
    cosigners the call returns true; when the key of the next cosigner
    fails to decode or to encode, or the user declines its confirmation,
    the call returns false at once and nothing is presented for a higher
    index. *)
Theorem C2_cosigner_confirmation_sequence (coin : BTCCoin) (name : string)
    (xpub_type : BTCRegisterScriptConfigRequest_XPubType)
    (xpub_strs : list string) (rest : list bool) (w : world) :
  String.length (summary_text coin multisig) < 100 ->
  select_output_xpub_type xpub_type coin (script_type multisig) = Next output ->
  (forall i xpub_str,
      xpub_strs !! i = Some xpub_str ->
      cosigner_xpub_str multisig output i = Some xpub_str) ->
  confirm_answers (user w) = true :: true :: replicate (length xpub_strs) true ++ rest ->
  let run := apps_btc_confirm_multisig title coin name multisig true xpub_type w in
  (length xpub_strs = xpubs_count multisig ->
   run = (Next true, after_confirmations w title coin name multisig xpub_strs rest)) /\
  (length xpub_strs < xpubs_count multisig ->
   cosigner_xpub_str multisig output (length xpub_strs) = None ->
   run = (Next false, after_confirmations w title coin name multisig xpub_strs rest)) /\
  (length xpub_strs < xpubs_count multisig ->
   forall xpub_str rest',
     cosigner_xpub_str multisig output (length xpub_strs) = Some xpub_str ->
     rest = false :: rest' ->
     run = (Next false,
            after_confirmations w title coin name multisig (xpub_strs ++ [xpub_str]) rest')).
Proof using Type btc_common_encode_xpub_fits xpubs_count_32.
  intros Hfits Hselect Hstrs Hanswers run. subst run.
  rewrite (confirm_multisig_reaches_loop coin name xpub_type _ w Hfits Hselect Hanswers).
  set (w2 := after_confirmations w title coin name multisig [] _).
  assert (Hanswers2 : confirm_answers (user w2) = replicate (length xpub_strs) true ++ rest)
    by reflexivity.
  unfold call, bind. repeat split.
  - intros Hall.
    pose proof (cosigner_loop_accepted xpub_strs 0 rest w2 Hstrs Hanswers2) as Hloop.
    rewrite Hall in Hloop. rewrite Hloop.
    unfold return_. subst w2. now rewrite after_confirmations_loop_world.
  - intros Hi Hnone.
    destruct (cosigner_loop_stops xpub_strs rest w2 Hi Hstrs Hanswers2) as [Hstop _].
    rewrite (Hstop Hnone). subst w2. now rewrite after_confirmations_loop_world.
  - intros Hi xpub_str rest' Hsome Hrest.
    destruct (cosigner_loop_stops xpub_strs rest w2 Hi Hstrs Hanswers2) as [_ Hstop].
    rewrite (Hstop xpub_str rest' Hsome Hrest). subst w2.
    now rewrite after_confirmations_loop_world.
Qed.

End CosignerSequencer.

(** ** Secret buffers: sizes and scopes *)

Create HintDb sizes.

Lemma keeps_sizes_ret {A} (a : A) : keeps_sizes (ret a).
Proof. intros w. reflexivity. Qed.

Lemma keeps_sizes_return {A} (b : bool) : keeps_sizes (@return_ A b).
Proof. intros w. reflexivity. Qed.

Lemma keeps_sizes_abort {A} (msg : string) : keeps_sizes (@abort A msg).
Proof. intros w. reflexivity. Qed.

Lemma keeps_sizes_undefined {A} : keeps_sizes (@undefined A).
Proof. intros w. reflexivity. Qed.

Lemma keeps_sizes_log (e : event) : keeps_sizes (log e).
Proof. intros w. reflexivity. Qed.

Lemma keeps_sizes_await {A} (pending : user_script -> list A) consume :
  keeps_sizes (await pending consume).
Proof. intros w. unfold await. destruct (pending (user w)); reflexivity. Qed.

Lemma keeps_sizes_bind {A B} (m : M A) (k : A -> M B) :
  keeps_sizes m -> (forall a, keeps_sizes (k a)) -> keeps_sizes (bind m k).
Proof.
  intros Hm Hk w. unfold bind. specialize (Hm w).
  destruct (m w) as [[a|b|msg| |] w']; simpl in *; try exact Hm.
  now rewrite Hk.
Qed.

Lemma keeps_sizes_call (body : M bool) : keeps_sizes body -> keeps_sizes (call body).
Proof.
  intros Hm w. unfold call. specialize (Hm w).
  destruct (body w) as [[a|b|msg| |] w']; exact Hm.
Qed.

Lemma keeps_sizes_for_loop (count start : nat) (body : nat -> M unit) :
  (forall i, keeps_sizes (body i)) -> keeps_sizes (for_loop count start body).
Proof.
  intros Hbody. revert start. induction count as [|count IH]; intros start; simpl.
  - apply keeps_sizes_ret.
  - apply keeps_sizes_bind; [apply Hbody | intros _; apply IH].
Qed.

#[local] Hint Resolve keeps_sizes_ret keeps_sizes_return keeps_sizes_abort
  keeps_sizes_undefined keeps_sizes_log keeps_sizes_await keeps_sizes_call
  keeps_sizes_for_loop : sizes.

(** Break a computation into the primitives it is made of. *)
Ltac keeps_sizes_step :=
  match goal with
  | |- keeps_sizes (bind _ _) => apply keeps_sizes_bind; [| intros ?]
  | |- keeps_sizes (if ?b then _ else _) => destruct b
  | |- keeps_sizes (match ?x with _ => _ end) => destruct x
  | |- keeps_sizes _ => solve [auto with sizes]
  end.

Lemma write_at_length (buf : buffer) (off : nat) (s : string) (buf' : buffer) :
  write_at buf off s = Some buf' -> length buf' = length buf.
Proof.
  unfold write_at. cbv zeta.
  destruct (decide _) as [Hfits|]; [|discriminate]. intros [= <-].
  rewrite !length_app, length_take, length_drop. rewrite length_app in Hfits. lia.
Qed.

Lemma strncat_length (dst : buffer) (src : string) (n : nat) (dst' : buffer) :
  strncat dst src n = Some dst' -> length dst' = length dst.
Proof.
  unfold strncat. destruct (c_strlen dst); [|discriminate]. apply write_at_length.
Qed.

Lemma keeps_sizes_on_mnemonic (f : buffer -> option buffer) :
  (forall buf buf', f buf = Some buf' -> length buf' = length buf) ->
  keeps_sizes (on_mnemonic f).
Proof.
  intros Hf w. unfold on_mnemonic.
  destruct (mnemonic (mem w)) as [buf|] eqn:Hbuf; [|reflexivity].
  destruct (f buf) as [buf'|] eqn:Hbuf'; [|reflexivity].
  unfold sizes. simpl. rewrite Hbuf. simpl. now rewrite (Hf _ _ Hbuf').
Qed.

Lemma keeps_sizes_workflow_confirm_blocking (params : confirm_params_t) :
  keeps_sizes (workflow_confirm_blocking params).
Proof. unfold workflow_confirm_blocking. repeat keeps_sizes_step. Qed.

Lemma keeps_sizes_workflow_status_blocking (msg : string) (success : bool) :
  keeps_sizes (workflow_status_blocking msg success).
Proof. apply keeps_sizes_log. Qed.

#[local] Hint Resolve keeps_sizes_workflow_confirm_blocking
  keeps_sizes_workflow_status_blocking : sizes.

Lemma keeps_sizes_pick_number_of_words : keeps_sizes _pick_number_of_words.
Proof. unfold _pick_number_of_words. repeat keeps_sizes_step. Qed.

Lemma keeps_sizes_fetch_wordlist : keeps_sizes fetch_wordlist.
Proof.
  unfold fetch_wordlist. apply keeps_sizes_for_loop. intros i.
  repeat keeps_sizes_step.
Qed.

Lemma keeps_sizes_entry_iteration (st : entry_state) : keeps_sizes (entry_iteration st).
Proof.
  unfold entry_iteration, workflow_trinary_input_wordlist. repeat keeps_sizes_step.
Qed.

Lemma keeps_sizes_entry_loop (fuel num_words : nat) (st : entry_state) :
  keeps_sizes (entry_loop fuel num_words st).
Proof.
  revert st. induction fuel as [|fuel IH]; intros st; simpl;
    destruct (word_idx st <? num_words); auto with sizes.
  - intros w. reflexivity.
  - apply keeps_sizes_bind; [apply keeps_sizes_entry_iteration | intros st'; apply IH].
Qed.

Lemma keeps_sizes_assemble_mnemonic (num_words : nat) (slots : list string) :
  keeps_sizes (assemble_mnemonic num_words slots).
Proof.
  unfold assemble_mnemonic. apply keeps_sizes_for_loop. intros i.
  repeat keeps_sizes_step;
    apply keeps_sizes_on_mnemonic; intros buf buf'; apply strncat_length.
Qed.

#[local] Hint Resolve keeps_sizes_pick_number_of_words keeps_sizes_fetch_wordlist
  keeps_sizes_entry_loop keeps_sizes_assemble_mnemonic : sizes.

Lemma keeps_sizes_get_mnemonic : keeps_sizes _get_mnemonic.
Proof.
  unfold _get_mnemonic. apply keeps_sizes_call. repeat keeps_sizes_step.
  intros w. apply keeps_sizes_entry_loop.
Qed.

Lemma keeps_sizes_password_set : keeps_sizes password_set.
Proof.
  unfold password_set. repeat keeps_sizes_step.
  intros w. destruct (password (mem w)) as [buf|] eqn:Hbuf; [|reflexivity].
  destruct (write_at buf 0 _) as [buf'|] eqn:Hbuf'; [|reflexivity].
  unfold sizes. simpl. rewrite Hbuf. simpl.
  now rewrite (write_at_length _ _ _ _ Hbuf').
Qed.

#[local] Hint Resolve keeps_sizes_password_set : sizes.

Lemma keeps_sizes_password_loop (fuel : nat) : keeps_sizes (password_loop fuel).
Proof.
  induction fuel as [|fuel IH]; simpl.
  - intros w. reflexivity.
  - repeat keeps_sizes_step.
Qed.

Lemma keeps_sizes_read_str (field : secrets -> option buffer) : keeps_sizes (read_str field).
Proof. intros w. unfold read_str. destruct (field (mem w)); reflexivity. Qed.

Lemma keeps_sizes_read_seed : keeps_sizes read_seed.
Proof. intros w. unfold read_seed. destruct (seed (mem w)); reflexivity. Qed.

Lemma keeps_sizes_mnemonic_to_seed (s : string) : keeps_sizes (mnemonic_to_seed s).
Proof.
  intros w. unfold mnemonic_to_seed.
  destruct (seed (mem w)) as [buf|] eqn:Hbuf; [|reflexivity].
  destruct (keystore_bip39_mnemonic_to_seed s) as [bytes|]; [|reflexivity].
  unfold sizes. simpl. rewrite Hbuf. simpl.
  rewrite length_take, length_app, length_drop. do 2 f_equal. f_equal. lia.
Qed.

Lemma keeps_sizes_keystore_encrypt_and_store_seed bytes len pw :
  keeps_sizes (keystore_encrypt_and_store_seed bytes len pw).
Proof.
  intros w. unfold keystore_encrypt_and_store_seed.
  destruct (keystore_encrypt_and_store_seed_result _ _ _); reflexivity.
Qed.

Lemma keeps_sizes_securechip_u2f_counter_set counter :
  keeps_sizes (securechip_u2f_counter_set counter).
Proof.
  intros w. unfold securechip_u2f_counter_set.
  destruct (securechip_u2f_counter_set_result _ _); reflexivity.
Qed.

Lemma keeps_sizes_memory_set_initialized : keeps_sizes memory_set_initialized.
Proof.
  intros w. unfold memory_set_initialized.
  destruct (memory_set_initialized_result _); reflexivity.
Qed.

Lemma keeps_sizes_keystore_unlock pw : keeps_sizes (keystore_unlock pw).
Proof. intros w. reflexivity. Qed.

Lemma keeps_sizes_workflow_confirm_time ts tz : keeps_sizes (workflow_confirm_time ts tz).
Proof. unfold workflow_confirm_time. repeat keeps_sizes_step. Qed.

Lemma keeps_sizes_workflow_unlock_bip39_blocking :
  keeps_sizes workflow_unlock_bip39_blocking.
Proof. apply keeps_sizes_log. Qed.

#[local] Hint Resolve keeps_sizes_read_str keeps_sizes_read_seed
  keeps_sizes_mnemonic_to_seed keeps_sizes_keystore_encrypt_and_store_seed
  keeps_sizes_securechip_u2f_counter_set keeps_sizes_memory_set_initialized
  keeps_sizes_keystore_unlock keeps_sizes_workflow_confirm_time
  keeps_sizes_workflow_unlock_bip39_blocking keeps_sizes_get_mnemonic : sizes.

(** What is known when a sequence leaves the function or the scope. *)
Lemma bind_leaves {A B} (m : M A) (k : A -> M B) (w w' : world) (f : flow B) :
  bind m k w = (f, w') -> leaves f ->
  (exists a w1, m w = (Next a, w1) /\ k a w1 = (f, w')) \/
  (exists b, m w = (Return b, w') /\ f = Return b).
Proof.
  unfold bind. destruct (m w) as [[a|b|msg| |] w1]; intros H Hf;
    try (injection H as <- <-; contradiction).
  - left. eauto.
  - right. injection H as <- <-. eauto.
Qed.

Lemma cleanup_scope_leaves {A} (cleanup : secrets -> secrets) (scope : M A)
    (w w' : world) (f : flow A) :
  cleanup_scope cleanup scope w = (f, w') -> leaves f ->
  exists w'', scope w = (f, w'') /\ w' = set_mem cleanup w''.
Proof.
  unfold cleanup_scope. destruct (scope w) as [[a|b|msg| |] w'']; intros H Hf;
    injection H as <- <-; try contradiction; eauto.
Qed.

Lemma sizes_next {A} (m : M A) (w w' : world) (f : flow A) :
  keeps_sizes m -> m w = (f, w') -> sizes (mem w') = sizes (mem w).
Proof. intros Hm Hrun. specialize (Hm w). now rewrite Hrun in Hm. Qed.

Lemma util_cleanup_32_zero (buf : list Byte.byte) :
  length buf = 32 -> util_cleanup_32 buf = replicate 32 Byte.x00.
Proof.
  intros Hlen. unfold util_cleanup_32. rewrite Hlen. simpl Nat.min.
  rewrite drop_ge by lia. now rewrite app_nil_r.
Qed.

Lemma call_not_return (body : M bool) (w w' : world) (b : bool) :
  call body w <> (Return b, w').
Proof. unfold call. destruct (body w) as [[]]; discriminate. Qed.

Lemma fmap_length_None {A} (buf : option (list A)) :
  length <$> buf = None -> buf = None.
Proof. destruct buf; [discriminate | reflexivity]. Qed.

Lemma fmap_length_Some {A} (buf : option (list A)) (n : nat) :
  length <$> buf = Some n -> exists bytes, buf = Some bytes /\ length bytes = n.
Proof. destruct buf as [bytes|]; [intros [= <-]; eauto | discriminate]. Qed.

Lemma sizes_Some_inv (m : secrets) a b c :
  sizes m = (a, b, c) ->
  length <$> mnemonic m = a /\ length <$> seed m = b /\ length <$> password m = c.
Proof. unfold sizes. intros [= <- <- <-]. auto. Qed.

(** C3: whenever [workflow_restore_from_mnemonic] returns, with true or
    with false and from whichever return statement (a cancelled entry,
    invalid words, an abandoned password, a failed store, a declined time
    confirmation, success), the [mnemonic] array holds zero bytes only, and
    so do [seed] and [password] unless the call returned before their
    declaration, in which case they never existed; after a successful
    recovery all three exist and are zeroed. *)
Theorem C3_secret_buffers_zeroed (request : RestoreFromMnemonicRequest)
    (w w' : world) (b : bool) :
  mem w = no_secrets ->
  workflow_restore_from_mnemonic request w = (Next b, w') ->
  mnemonic (mem w') = Some (zeroed mnemonic_size) /\
  (seed (mem w') = None \/ seed (mem w') = Some (replicate 32 Byte.x00)) /\
  (password (mem w') = None \/
   password (mem w') = Some (zeroed SET_PASSWORD_MAX_PASSWORD_LENGTH)) /\
  (b = true ->
   seed (mem w') = Some (replicate 32 Byte.x00) /\
   password (mem w') = Some (zeroed SET_PASSWORD_MAX_PASSWORD_LENGTH)).
Proof.
  intros Hmem Hrun.
  unfold workflow_restore_from_mnemonic, call in Hrun.
  match type of Hrun with context [?body w] => destruct (body w) as [f0 w0] eqn:Hbody end.
  assert (Hleaves : leaves f0) by (destruct f0; try discriminate; exact I).
  assert (Hw0 : w0 = w') by (destruct f0; congruence).
  assert (Hb : f0 = Return b \/ f0 = Next b)
    by (destruct f0; simpl in Hrun; try discriminate; injection Hrun as ? ?; subst; auto).
  subst w0. clear Hrun.
  unfold bind at 1 in Hbody. unfold put_mem at 1 in Hbody.
  apply cleanup_scope_leaves in Hbody; [|exact Hleaves].
  destruct Hbody as (w1 & Hbody1 & ->).
  match type of Hbody1 with _ ?w = _ => set (w0 := w) in * end.
  assert (Hs0 : sizes (mem w0) = (Some mnemonic_size, None, None)).
  { subst w0. unfold sizes, set_mem. simpl. rewrite Hmem. simpl.
    unfold zeroed. now rewrite length_replicate. }
  apply bind_leaves in Hbody1; [|exact Hleaves].
  destruct Hbody1 as [(got & w2 & Hget & Hbody1) | (b' & Hget & _)].
  2:{ exfalso. exact (call_not_return _ _ _ _ Hget). }
  pose proof (sizes_next _ _ _ _ keeps_sizes_get_mnemonic Hget) as Hs2.
  rewrite Hs0 in Hs2.
  destruct got; simpl in Hbody1.
  2:{ (* _get_mnemonic returned false *)
    injection Hbody1 as <- <-.
    apply sizes_Some_inv in Hs2. destruct Hs2 as (Hm & Hs & Hp).
    apply fmap_length_Some in Hm. destruct Hm as (buf & Hm & Hlen).
    apply fmap_length_None in Hs, Hp.
    unfold set_mem, cleanup_mnemonic. simpl. rewrite Hm, Hs, Hp. simpl.
    unfold util_cleanup_str. rewrite Hlen.
    repeat split; auto.
    all: destruct Hb as [[= <-] | [=]]; discriminate. }
  apply bind_leaves in Hbody1; [|exact Hleaves].
  destruct Hbody1 as [([] & w3 & Hput & Hbody2) | (b' & [=] & _)].
  injection Hput as <-.
  apply cleanup_scope_leaves in Hbody2; [|exact Hleaves].
  destruct Hbody2 as (w4 & Hbody2 & ->).
  match type of Hbody2 with _ ?w = _ => set (w3 := w) in * end.
  assert (Hs3 : sizes (mem w3) = (Some mnemonic_size, Some 32, None)).
  { subst w3. apply sizes_Some_inv in Hs2. destruct Hs2 as (Hm & Hs & Hp).
    unfold sizes, set_mem. simpl. rewrite Hm, Hp. reflexivity. }
  apply bind_leaves in Hbody2; [|exact Hleaves].
  destruct Hbody2 as [(mnemonic_str & w5 & Hread & Hbody2) | (b' & Hread & _)].
  2:{ unfold read_str in Hread. destruct (mnemonic (mem w3)); discriminate. }
  pose proof (sizes_next _ _ _ _ (keeps_sizes_read_str _) Hread) as Hs5.
  apply bind_leaves in Hbody2; [|exact Hleaves].
  destruct Hbody2 as [(seed_len & w6 & Hseed & Hbody2) | (b' & Hseed & _)].
  2:{ unfold mnemonic_to_seed in Hseed.
      destruct (seed (mem w5)); [destruct (keystore_bip39_mnemonic_to_seed _)|]; discriminate. }
  pose proof (sizes_next _ _ _ _ (keeps_sizes_mnemonic_to_seed _) Hseed) as Hs6.
  rewrite Hs5, Hs3 in Hs6. clear Hs5.
  destruct seed_len as [seed_len|].
  2:{ (* the mnemonic is invalid *)
    unfold bind, workflow_status_blocking, log, return_ in Hbody2.
    injection Hbody2 as <- <-.
    apply sizes_Some_inv in Hs6. destruct Hs6 as (Hm & Hs & Hp).
    apply fmap_length_Some in Hm, Hs.
    destruct Hm as (buf & Hm & Hlen). destruct Hs as (sbuf & Hs & Hslen).
    apply fmap_length_None in Hp.
    unfold set_mem, set_trace, cleanup_mnemonic, cleanup_seed. simpl.
    rewrite Hm, Hs, Hp. simpl.
    unfold util_cleanup_str. rewrite Hlen, (util_cleanup_32_zero _ Hslen).
    repeat split; auto.
    all: destruct Hb as [[= <-] | [=]]; discriminate. }
  apply bind_leaves in Hbody2; [|exact Hleaves].
  destruct Hbody2 as [([] & w7 & Hstatus & Hbody2) | (b' & [=] & _)].
  injection Hstatus as <-.
  apply bind_leaves in Hbody2; [|exact Hleaves].
  destruct Hbody2 as [([] & w8 & Hput & Hbody3) | (b' & [=] & _)].
  injection Hput as <-.
  apply cleanup_scope_leaves in Hbody3; [|exact Hleaves].
  destruct Hbody3 as (w9 & Hbody3 & ->).
  match type of Hbody3 with ?body ?w = _ =>
    assert (Hs9 : sizes (mem w9) = sizes (mem w));
    [ apply (sizes_next body w w9 f0); [| exact Hbody3] |]
  end.
  { unfold persist_and_unlock. repeat keeps_sizes_step. intros w8.
    exact (keeps_sizes_password_loop (S (length (password_entries (user w8)))) w8). }
  clear Hbody3.
  apply sizes_Some_inv in Hs6. destruct Hs6 as (Hm & Hs & Hp).
  unfold sizes, set_mem, set_trace in Hs9. simpl in Hs9. rewrite Hm, Hs in Hs9.
  simpl in Hs9. unfold zeroed in Hs9 at 1. rewrite length_replicate in Hs9.
  apply sizes_Some_inv in Hs9. destruct Hs9 as (Hm9 & Hs9 & Hp9).
  apply fmap_length_Some in Hm9, Hs9, Hp9.
  destruct Hm9 as (buf & Hm9 & Hlen). destruct Hs9 as (sbuf & Hs9 & Hslen).
  destruct Hp9 as (pbuf & Hp9 & Hplen).
  unfold set_mem, cleanup_mnemonic, cleanup_seed, cleanup_password. simpl.
  rewrite Hm9, Hs9, Hp9. simpl.
  unfold util_cleanup_str. rewrite Hlen, Hplen, (util_cleanup_32_zero _ Hslen).
  repeat split; auto.
Qed.

(** ** The entry loop of [_get_mnemonic] *)

Lemma with_word_entries_same (u : user_script) l :
  word_entries u = l -> with_word_entries l u = u.
Proof. destruct u; simpl; intros ->; reflexivity. Qed.

(** One iteration, on the next outcome of the user: the C code takes the
    step of the specified assembler. *)
Lemma entry_iteration_step (st : entry_state) (w : world)
    (outcome : workflow_trinary_input_result_t)
    (rest : list workflow_trinary_input_result_t) (word : string) :
  words st !! word_idx st = Some word ->
  word_idx st < 255 ->
  word_entries (user w) = outcome :: rest ->
  entry_iteration st w =
    (match MnemonicAssembler_step st outcome with
     | Some st' => Next st'
     | None => Return false
     end,
     {| user := with_word_entries rest (user w);
        trace := trace w ++ [ui_trinary_input_wordlist (word_idx st) (preset_of word)];
        mem := mem w;
        dev := dev w |}).
Proof.
  intros Hslot Hidx Hentries.
  unfold entry_iteration. rewrite Hslot.
  unfold workflow_trinary_input_wordlist, bind, log, await. cbn -[Nat.modulo].
  rewrite Hentries. unfold set_user, set_trace. cbn -[Nat.modulo].
  destruct outcome as [entered| |]; cbn -[Nat.modulo]; unfold ret, return_.
  - rewrite Nat.mod_small by lia. now rewrite Nat.add_1_r.
  - reflexivity.
  - destruct (word_idx st) as [|p]; simpl; [reflexivity | now rewrite Nat.sub_0_r].
Qed.

Lemma entry_iteration_waiting (st : entry_state) (w : world) (word : string) :
  words st !! word_idx st = Some word ->
  word_entries (user w) = [] ->
  entry_iteration st w =
    (Waiting,
     {| user := user w;
        trace := trace w ++ [ui_trinary_input_wordlist (word_idx st) (preset_of word)];
        mem := mem w;
        dev := dev w |}).
Proof.
  intros Hslot Hentries.
  unfold entry_iteration. rewrite Hslot.
  unfold workflow_trinary_input_wordlist, bind, log, await. simpl.
  now rewrite Hentries.
Qed.

(** C8: a Delete at position 0 leaves the loop variables as they are and
    the loop running; a Delete at a position p > 0 moves the position to
    p - 1 and changes no slot, and the entry screen that follows is the
    one of position p - 1 with the word stored there as its preset. *)
Theorem C8_delete_steps_back (st : entry_state) (w : world)
    (rest : list workflow_trinary_input_result_t) :
  word_idx st < length (words st) ->
  word_idx st < 255 ->
  word_entries (user w) = WORKFLOW_TRINARY_INPUT_RESULT_DELETE :: rest ->
  exists w',
    (word_idx st = 0 -> entry_iteration st w = (Next st, w')) /\
    entry_iteration st w =
      (Next {| word_idx := word_idx st - 1; words := words st |}, w') /\
    word_entries (user w') = rest /\
    mem w' = mem w /\ dev w' = dev w /\
    (forall word,
        0 < word_idx st ->
        words st !! (word_idx st - 1) = Some word ->
        trace (snd (entry_iteration
                      {| word_idx := word_idx st - 1; words := words st |} w')) =
          trace w' ++ [ui_trinary_input_wordlist (word_idx st - 1) (preset_of word)] /\
        (word <> "" -> preset_of word = Some word)).
Proof.
  intros Hslot Hidx Hentries.
  destruct (lookup_lt_is_Some_2 _ _ Hslot) as [current Hcurrent].
  rewrite (entry_iteration_step st w _ rest current Hcurrent Hidx Hentries).
  simpl.
  exists {| user := with_word_entries rest (user w);
            trace := trace w ++
              [ui_trinary_input_wordlist (word_idx st) (preset_of current)];
            mem := mem w;
            dev := dev w |}.
  split; [| split; [| split; [| split; [| split]]]]; try reflexivity.
  - intros Hzero. destruct st as [idx slots]. simpl in *. subst idx. reflexivity.
  - now rewrite Nat.sub_1_r.
  - intros word Hpos Hword. split.
    + unfold entry_iteration. simpl. rewrite Hword.
      unfold workflow_trinary_input_wordlist, bind, log, await. simpl.
      destruct rest as [|[]]; reflexivity.
    + intros Hne. unfold preset_of. destruct word; [contradiction | reflexivity].
Qed.

Lemma entry_invariant_slot (word_count : nat) (st : entry_state) :
  entry_invariant word_count st -> word_idx st < word_count ->
  exists word, words st !! word_idx st = Some word.
Proof.
  intros (Hlen & Hidx & Hcount) Hlt.
  apply lookup_lt_is_Some_2. lia.
Qed.

Lemma entry_invariant_step (word_count : nat) (st st' : entry_state)
    (outcome : workflow_trinary_input_result_t) :
  entry_invariant word_count st -> word_idx st < word_count ->
  MnemonicAssembler_step st outcome = Some st' ->
  entry_invariant word_count st'.
Proof.
  intros (Hlen & Hidx & Hcount) Hlt Hstep.
  destruct outcome as [entered| |]; simpl in Hstep; [| discriminate |];
    injection Hstep as <-; unfold entry_invariant; simpl;
    rewrite ?length_insert; repeat split; lia.
Qed.

Lemma entered_words_step (word_count : nat) (st st' : entry_state)
    (outcome : workflow_trinary_input_result_t) :
  entry_invariant word_count st -> word_idx st < word_count ->
  entered_words st ->
  wordlist_entry outcome ->
  MnemonicAssembler_step st outcome = Some st' ->
  entered_words st'.
Proof.
  clear keystore_get_bip39_word keystore_bip39_mnemonic_to_seed indeterminate
    XPUB_ENCODED_LEN.
  intros (Hlen & Hidx & Hcount) Hlt (Hnul & Hwords) Hentry Hstep.
  destruct outcome as [entered| |]; simpl in Hstep; [| discriminate |];
    injection Hstep as <-; unfold entered_words; simpl.
  - destruct Hentry as (Hsize & Hnonul & Hnospace). split.
    + apply Forall_insert; assumption.
    + intros i Hi. destruct (decide (i = word_idx st)) as [-> | Hne].
      * exists entered. split; [| repeat split; tauto || lia].
        apply list_lookup_insert_eq. lia.
      * destruct (Hwords i) as (word & Hword & Hok); [lia |].
        exists word. split; [| exact Hok].
        rewrite list_lookup_insert_ne by congruence. exact Hword.
  - split; [assumption |]. intros i Hi. apply Hwords. lia.
Qed.

(** The entry loop is the specified assembler: on the outcomes the user
    produces it ends where the assembler ends, having shown the entry
    screens of the positions visited. *)
Lemma entry_loop_run (word_count : nat)
    (outcomes : list workflow_trinary_input_result_t) :
  forall (fuel : nat) (st : entry_state) (w : world),
    length outcomes < fuel ->
    word_entries (user w) = outcomes ->
    entry_invariant word_count st ->
    entry_loop fuel word_count st w =
      (flow_of_assembly (MnemonicAssembler_run word_count st outcomes),
       after_entries w word_count st outcomes).
Proof.
  induction outcomes as [|outcome rest IH]; intros fuel st w Hfuel Hentries Hinv;
    (destruct fuel as [|fuel]; [simpl in Hfuel; lia |]);
    unfold after_entries; simpl;
    destruct (Nat.ltb_spec (word_idx st) word_count) as [Hlt | Hge].
  - destruct (entry_invariant_slot _ _ Hinv Hlt) as [word Hword].
    unfold bind. rewrite (entry_iteration_waiting st w word Hword Hentries).
    rewrite Hword. simpl. now rewrite with_word_entries_same.
  - unfold ret. simpl. rewrite with_word_entries_same by exact Hentries.
    rewrite app_nil_r. now destruct w.
  - destruct (entry_invariant_slot _ _ Hinv Hlt) as [word Hword].
    assert (Hidx : word_idx st < 255).
    { destruct Hinv as (_ & _ & Hcount).
      unfold WORKFLOW_RESTORE_FROM_MNEMONIC_MAX_WORDS in Hcount. lia. }
    unfold bind.
    rewrite (entry_iteration_step st w outcome rest word Hword Hidx Hentries).
    rewrite Hword. simpl.
    destruct (MnemonicAssembler_step st outcome) as [st'|] eqn:Hstep.
    + rewrite (IH fuel st'); [| simpl in Hfuel; lia | reflexivity
                               | eapply entry_invariant_step; eassumption].
      unfold after_entries. simpl. now rewrite <- app_assoc.
    + reflexivity.
  - unfold ret. simpl. rewrite with_word_entries_same by exact Hentries.
    rewrite app_nil_r. now destruct w.
Qed.

Lemma MnemonicAssembler_run_complete (word_count : nat)
    (outcomes : list workflow_trinary_input_result_t) :
  forall (st st' : entry_state) remaining,
    entry_invariant word_count st ->
    MnemonicAssembler_run word_count st outcomes = Complete st' remaining ->
    entry_invariant word_count st' /\ word_idx st' = word_count /\
    (Forall wordlist_entry outcomes -> entered_words st -> entered_words st').
Proof.
  induction outcomes as [|outcome rest IH]; intros st st' remaining Hinv Hrun;
    simpl in Hrun;
    destruct (Nat.ltb_spec (word_idx st) word_count) as [Hlt | Hge];
    try discriminate.
  - injection Hrun as <- <-.
    split; [exact Hinv | split; [destruct Hinv as (? & ? & ?); lia | auto]].
  - destruct (MnemonicAssembler_step st outcome) as [st1|] eqn:Hstep; [| discriminate].
    destruct (IH st1 st' remaining) as (Hinv' & Hidx' & Hwords');
      [eapply entry_invariant_step; eassumption | exact Hrun |].
    split; [exact Hinv' | split; [exact Hidx' |]].
    intros Hok Hentered. apply Forall_cons in Hok as [Hentry Hrest].
    apply Hwords'; [exact Hrest |].
    exact (entered_words_step word_count st st1 outcome Hinv Hlt Hentered Hentry Hstep).
  - injection Hrun as <- <-.
    split; [exact Hinv | split; [destruct Hinv as (? & ? & ?); lia | auto]].
Qed.

Lemma initial_entry_state_invariant (word_count : nat) :
  word_count <= WORKFLOW_RESTORE_FROM_MNEMONIC_MAX_WORDS ->
  entry_invariant word_count initial_entry_state /\ entered_words initial_entry_state.
Proof.
  intros Hcount. unfold entry_invariant, entered_words, initial_entry_state. simpl.
  repeat split; try lia.
  apply Forall_forall. intros word Hin.
  repeat (apply elem_of_cons in Hin; destruct Hin as [-> | Hin];
          [intros Hnul; inversion Hnul |]).
  inversion Hin.
Qed.

Lemma WordCount_range (choice : trinary_choice_t) (word_count : nat) :
  WordCount choice = Some word_count ->
  word_count = 12 \/ word_count = 18 \/ word_count = 24.
Proof. destruct choice; intros [= <-]; auto. Qed.

(** ** [_get_mnemonic] *)

Lemma for_loop_guard (available : nat -> bool) (count start : nat) (w : world) :
  for_loop count start
    (fun i => if available i then ret tt else return_ false) w =
  (if forallb available (seq start count) then Next tt else Return false, w).
Proof.
  revert start. induction count as [|count IH]; intros start; simpl.
  - reflexivity.
  - unfold bind. destruct (available start); simpl; [apply IH | reflexivity].
Qed.

Lemma fetch_wordlist_eq (w : world) :
  fetch_wordlist w = (if wordlist_available then Next tt else Return false, w).
Proof.
  unfold fetch_wordlist, wordlist_available.
  rewrite <- for_loop_guard. generalize BIP39_WORDLIST_LEN 0.
  intros count. induction count as [|count IH]; intros start; simpl.
  - reflexivity.
  - unfold bind. destruct (keystore_get_bip39_word start) as [word|] eqn:Hword.
    + rewrite bool_decide_eq_true_2 by eauto. simpl. apply IH.
    + rewrite bool_decide_eq_false_2 by (intros [? ?]; discriminate). reflexivity.
Qed.

(** The whole of [_get_mnemonic] once the word list is fetched and the word
    count picked: the entry loop runs as the specified assembler, and only
    a complete entry reaches the assembly of the string. *)
Lemma get_mnemonic_eq (w : world) (choice : trinary_choice_t)
    (picks : list trinary_choice_t) (word_count : nat) :
  wordlist_available = true ->
  number_of_words_picks (user w) = choice :: picks ->
  WordCount choice = Some word_count ->
  _get_mnemonic w =
    let w1 := after_entries (after_pick w picks word_count) word_count
                initial_entry_state (word_entries (user w)) in
    match MnemonicAssembler_run word_count initial_entry_state (word_entries (user w)) with
    | Complete st _ =>
        call (assemble_mnemonic word_count (words st) ;;; return_ true) w1
    | Cancelled _ => (Next false, w1)
    | AwaitingEntry _ => (Waiting, w1)
    end.
Proof.
  intros Havailable Hpicks Hcount.
  assert (Hrange := WordCount_range _ _ Hcount).
  unfold _get_mnemonic, call.
  unfold bind at 1. rewrite fetch_wordlist_eq, Havailable.
  unfold bind at 1. unfold _pick_number_of_words.
  unfold bind at 1, log at 1, bind at 1, await at 1. cbn [fst snd].
  unfold set_trace at 1. cbn [user]. rewrite Hpicks.
  assert (Hpick :
    match choice with
    | TRINARY_CHOICE_LEFT => ret 12
    | TRINARY_CHOICE_MIDDLE => ret 18
    | TRINARY_CHOICE_RIGHT => ret 24
    | TRINARY_CHOICE_unrecognized _ => abort "restore_from_mnemonic: unreachable"
    end = ret word_count)
    by (destruct choice; try discriminate Hcount; injection Hcount as <-;
        reflexivity).
  rewrite Hpick. unfold ret at 1. cbv beta iota.
  unfold bind at 1, workflow_status_blocking at 1, log at 1.
  unfold bind at 1.
  rewrite (entry_loop_run word_count (word_entries (user w))); cycle 1.
  - cbn [user set_trace set_user word_entries with_number_of_words_picks]. lia.
  - reflexivity.
  - apply initial_entry_state_invariant.
    unfold WORKFLOW_RESTORE_FROM_MNEMONIC_MAX_WORDS. lia.
  - fold initial_entry_state.
    assert (Hw : set_trace (fun t => t ++
                   [ui_status (fst (snprintf 20
                      ("Enter " +:+ decimal (N.of_nat word_count) +:+ " words"))) true])
                   (set_user (with_number_of_words_picks picks)
                      (set_trace (fun t => t ++
                         [ui_trinary_choice "How many words?" "12" "18" "24"]) w))
                 = after_pick w picks word_count).
    { unfold after_pick, set_trace, set_user. cbn [user trace mem dev].
      now rewrite <- app_assoc. }
    rewrite Hw.
    change (word_entries (user (after_pick w picks word_count)))
      with (word_entries (user w)).
    destruct (MnemonicAssembler_run word_count initial_entry_state (word_entries (user w)));
      reflexivity.
Qed.

(** ** C strings in zero-initialised buffers *)

Lemma list_ascii_of_string_app (s t : string) :
  list_ascii_of_string (s +:+ t) = list_ascii_of_string s ++ list_ascii_of_string t.
Proof. induction s as [|c s IH]; simpl; [reflexivity | now rewrite IH]. Qed.

Lemma length_list_ascii_of_string (s : string) :
  length (list_ascii_of_string s) = String.length s.
Proof. induction s as [|c s IH]; simpl; [reflexivity | now rewrite IH]. Qed.

Lemma list_ascii_of_substring (n : nat) (s : string) :
  list_ascii_of_string (substring 0 n s) = take n (list_ascii_of_string s).
Proof.
  revert n. induction s as [|c s IH]; intros [|n]; simpl; try reflexivity.
  now rewrite IH.
Qed.

Lemma substring_length_le (n : nat) (s : string) :
  String.length (substring 0 n s) <= n.
Proof.
  rewrite <- length_list_ascii_of_string, list_ascii_of_substring, length_take. lia.
Qed.

Lemma cstring_in_cons (size : nat) (c : ascii) (s : string) :
  cstring_in size (String c s) = c :: cstring_in (size - 1) s.
Proof.
  unfold cstring_in. simpl. do 3 f_equal. lia.
Qed.

Lemma c_strlen_cstring (size : nat) (s : string) :
  NUL ∉ list_ascii_of_string s -> String.length s < size ->
  c_strlen (cstring_in size s) = Some (String.length s).
Proof.
  revert size. induction s as [|c s IH]; intros size Hnul Hlen.
  - unfold cstring_in. simpl in *. destruct size as [|size]; [lia | reflexivity].
  - rewrite cstring_in_cons. simpl in *.
    apply not_elem_of_cons in Hnul as [Hc Hnul].
    assert (Heqb : Ascii.eqb c NUL = false) by (apply Ascii.eqb_neq; congruence).
    rewrite Heqb, IH by (assumption || lia). reflexivity.
Qed.

Lemma c_str_cstring (size : nat) (s : string) :
  NUL ∉ list_ascii_of_string s -> c_str (cstring_in size s) = s.
Proof.
  revert size. induction s as [|c s IH]; intros size Hnul.
  - unfold cstring_in. simpl. destruct (size - 0); reflexivity.
  - rewrite cstring_in_cons. simpl in *.
    apply not_elem_of_cons in Hnul as [Hc Hnul].
    assert (Heqb : Ascii.eqb c NUL = false) by (apply Ascii.eqb_neq; congruence).
    now rewrite Heqb, IH.
Qed.

Lemma length_cstring_in (size : nat) (s : string) :
  String.length s <= size -> length (cstring_in size s) = size.
Proof.
  intros Hlen. unfold cstring_in, zeroed.
  rewrite length_app, length_replicate, length_list_ascii_of_string. lia.
Qed.

Lemma write_at_cstring (size : nat) (s t : string) :
  String.length s + String.length t < size ->
  write_at (cstring_in size s) (String.length s) t = Some (cstring_in size (s +:+ t)).
Proof.
  intros Hlen. unfold write_at. cbv zeta.
  rewrite length_app, length_list_ascii_of_string, length_cstring_in by lia.
  simpl length. rewrite decide_True by lia. f_equal.
  unfold cstring_in, zeroed.
  rewrite take_app_length' by (symmetry; apply length_list_ascii_of_string).
  rewrite drop_app_ge by (rewrite length_list_ascii_of_string; lia).
  rewrite drop_replicate, length_list_ascii_of_string.
  rewrite list_ascii_of_string_app, string_length_app, <- !app_assoc.
  do 2 f_equal. simpl.
  replace (size - (String.length s + String.length t))
    with (S (size - String.length s -
               (String.length s + (String.length t + 1) - String.length s))) by lia.
  reflexivity.
Qed.

Lemma strncat_cstring (size : nat) (s t : string) (n : nat) :
  NUL ∉ list_ascii_of_string s ->
  String.length s + String.length (substring 0 n t) < size ->
  strncat (cstring_in size s) t n = Some (cstring_in size (s +:+ substring 0 n t)).
Proof.
  intros Hnul Hlen. unfold strncat.
  rewrite c_strlen_cstring by (assumption || lia).
  now apply write_at_cstring.
Qed.

Lemma strcat_cstring (size : nat) (s t : string) :
  NUL ∉ list_ascii_of_string s ->
  String.length s + String.length t < size ->
  strcat (cstring_in size s) t = Some (cstring_in size (s +:+ t)).
Proof.
  intros Hnul Hlen. unfold strcat.
  rewrite strncat_cstring.
  - now rewrite substring_whole by lia.
  - assumption.
  - rewrite substring_whole by lia. lia.
Qed.

(** ** Joining the words *)

Lemma string_app_assoc (s t u : string) : (s +:+ t) +:+ u = s +:+ t +:+ u.
Proof.
  induction s as [|c s IH]; [reflexivity |].
  change (String c ((s +:+ t) +:+ u) = String c (s +:+ t +:+ u)). now rewrite IH.
Qed.

Lemma string_app_nil_r (s : string) : s +:+ "" = s.
Proof.
  induction s as [|c s IH]; [reflexivity |].
  change (String c (s +:+ "") = String c s). now rewrite IH.
Qed.

Lemma concat_cons (sep x : string) (l : list string) :
  l <> [] -> String.concat sep (x :: l) = x +:+ sep +:+ String.concat sep l.
Proof. destruct l; [contradiction | reflexivity]. Qed.

Lemma concat_snoc (sep x : string) (l : list string) :
  l <> [] -> String.concat sep (l ++ [x]) = String.concat sep l +:+ sep +:+ x.
Proof.
  induction l as [|a l IH]; intros Hne; [contradiction |].
  destruct l as [|b l].
  - reflexivity.
  - change ((a :: b :: l) ++ [x]) with (a :: ((b :: l) ++ [x])).
    rewrite concat_cons by (destruct l; discriminate).
    rewrite IH by discriminate.
    rewrite (concat_cons sep a (b :: l)) by discriminate.
    now rewrite !string_app_assoc.
Qed.

Lemma concat_nul_free (l : list string) :
  Forall (fun word => NUL ∉ list_ascii_of_string word) l ->
  NUL ∉ list_ascii_of_string (String.concat " " l).
Proof.
  induction l as [|a l IH]; intros Hall.
  - simpl. apply not_elem_of_nil.
  - apply Forall_cons in Hall as [Ha Hl]. destruct l as [|b l]; [exact Ha |].
    rewrite concat_cons by discriminate.
    rewrite !list_ascii_of_string_app, !not_elem_of_app.
    split; [exact Ha | split; [| apply IH, Hl]].
    intros Hin. change (list_ascii_of_string " ") with [SPACE] in Hin.
    apply list_elem_of_singleton in Hin. discriminate.
Qed.

Lemma concat_length_bound (bound : nat) (l : list string) :
  Forall (fun word => String.length word <= bound) l -> l <> [] ->
  String.length (String.concat " " l) + 1 <= (bound + 1) * length l.
Proof.
  induction l as [|a l IH]; intros Hall Hne; [contradiction |].
  apply Forall_cons in Hall as [Ha Hl]. destruct l as [|b l].
  - simpl. lia.
  - rewrite concat_cons by discriminate.
    rewrite !string_length_app. change (String.length " ") with 1.
    specialize (IH Hl ltac:(discriminate)).
    change (length (a :: b :: l)) with (S (length (b :: l))).
    rewrite Nat.mul_succ_r. lia.
Qed.

Lemma truncated_words (bound : nat) (slots : list string) :
  Forall (fun word => String.length word <= bound) (substring 0 bound <$> slots).
Proof.
  apply Forall_fmap, Forall_forall. intros word _. apply substring_length_le.
Qed.

Lemma truncated_nul_free (bound : nat) (slots : list string) :
  Forall (fun word => NUL ∉ list_ascii_of_string word) slots ->
  Forall (fun word => NUL ∉ list_ascii_of_string word) (substring 0 bound <$> slots).
Proof.
  intros Hall. apply Forall_fmap. eapply Forall_impl; [exact Hall |].
  intros word Hnul. simpl. rewrite list_ascii_of_substring.
  intros Hin. apply Hnul. exact (subseteq_take _ _ _ Hin).
Qed.

Lemma on_mnemonic_eq (f : buffer -> option buffer) (w : world) (buf buf' : buffer) :
  mnemonic (mem w) = Some buf -> f buf = Some buf' ->
  on_mnemonic f w = (Next tt, set_mem (with_mnemonic (Some buf')) w).
Proof. intros Hbuf Hf. unfold on_mnemonic. now rewrite Hbuf, Hf. Qed.

Lemma cstring_in_empty (size : nat) : cstring_in size "" = zeroed size.
Proof. unfold cstring_in. simpl. now rewrite Nat.sub_0_r. Qed.

(** The assembly loop after its first [k] iterations: the buffer holds the
    first [k] words, each cut to the maximal word length, joined by single
    spaces. *)
Lemma assemble_mnemonic_prefix (slots : list string) (k : nat) (w : world) :
  k <= length slots ->
  k <= WORKFLOW_RESTORE_FROM_MNEMONIC_MAX_WORDS ->
  Forall (fun word => NUL ∉ list_ascii_of_string word) slots ->
  mnemonic (mem w) = Some (zeroed mnemonic_size) ->
  assemble_mnemonic k slots w =
    (Next tt,
     set_mem (with_mnemonic (Some (cstring_in mnemonic_size
       (String.concat " "
          (take k (substring 0 WORKFLOW_TRINARY_INPUT_MAX_WORD_LENGTH <$> slots)))))) w).
Proof.
  intros Hk Hmax Hnul Hbuf. unfold assemble_mnemonic.
  set (bound := WORKFLOW_TRINARY_INPUT_MAX_WORD_LENGTH) in *.
  set (cut := substring 0 bound <$> slots).
  induction k as [|k IH].
  - simpl. unfold ret. rewrite cstring_in_empty, <- Hbuf.
    destruct w as [u t [mn sd pw] d]. reflexivity.
  - replace (S k) with (k + 1) by lia. rewrite for_loop_app. unfold bind at 1.
    rewrite IH by lia. clear IH. simpl for_loop.
    destruct (lookup_lt_is_Some_2 slots k ltac:(lia)) as [word Hword].
    assert (Hcut : cut !! k = Some (substring 0 bound word))
      by (unfold cut; now rewrite list_lookup_fmap, Hword).
    assert (Htake : take (k + 1) cut = take k cut ++ [substring 0 bound word])
      by (rewrite Nat.add_1_r; now apply take_S_r).
    assert (Hlen : String.length (String.concat " " (take (k + 1) cut)) + 1
                   <= mnemonic_size).
    { etransitivity.
      - apply (concat_length_bound bound).
        + apply Forall_take, truncated_words.
        + rewrite Htake. now destruct (take k cut).
      - unfold mnemonic_size. apply Nat.mul_le_mono_l.
        rewrite length_take. lia. }
    assert (Hfree : NUL ∉ list_ascii_of_string (String.concat " " (take k cut)))
      by (apply concat_nul_free, Forall_take, truncated_nul_free, Hnul).
    rewrite Htake in *.
    rewrite Hword. unfold bind, ret.
    destruct k as [|k].
    + simpl in *.
      erewrite on_mnemonic_eq;
        [| reflexivity
         | apply (strncat_cstring mnemonic_size "" word bound); simpl in *;
           [apply not_elem_of_nil | lia]].
      reflexivity.
    + assert (Hne : take (S k) cut <> []).
      { intros Hnil. apply (f_equal length) in Hnil.
        rewrite length_take in Hnil. unfold cut in Hnil.
        rewrite length_fmap in Hnil. cbn [length] in Hnil. lia. }
      rewrite concat_snoc in * by exact Hne.
      rewrite !string_length_app in Hlen. change (String.length " ") with 1 in Hlen.
      change (negb (S k =? 0)) with true. cbv iota.
      erewrite on_mnemonic_eq;
        [| reflexivity | apply strcat_cstring; [exact Hfree | simpl; lia]].
      erewrite on_mnemonic_eq;
        [| reflexivity | apply strncat_cstring].
      * unfold set_mem. simpl. now rewrite string_app_assoc.
      * rewrite list_ascii_of_string_app, not_elem_of_app. split; [exact Hfree |].
        intros Hin. change (list_ascii_of_string " ") with [SPACE] in Hin.
        apply list_elem_of_singleton in Hin. discriminate.
      * rewrite string_length_app. change (String.length " ") with 1. lia.
Qed.

(** ** The shape of the joined string *)

Lemma count_spaces_app (s t : string) :
  count_spaces (s +:+ t) = count_spaces s + count_spaces t.
Proof.
  unfold count_spaces. now rewrite list_ascii_of_string_app, filter_app, length_app.
Qed.

Lemma count_spaces_word (word : string) :
  SPACE ∉ list_ascii_of_string word -> count_spaces word = 0.
Proof.
  unfold count_spaces. induction (list_ascii_of_string word) as [|c l IH]; intros Hnot.
  - reflexivity.
  - apply not_elem_of_cons in Hnot as [Hc Hl].
    rewrite filter_cons_False by congruence. now apply IH.
Qed.

Lemma count_spaces_concat (l : list string) :
  Forall wordlist_word l -> count_spaces (String.concat " " l) = length l - 1.
Proof.
  induction l as [|a l IH]; intros Hall; [reflexivity |].
  apply Forall_cons in Hall as [(_ & _ & Ha) Hl]. destruct l as [|b l].
  - simpl. now apply count_spaces_word.
  - rewrite concat_cons by discriminate.
    rewrite !count_spaces_app, IH by exact Hl.
    rewrite count_spaces_word by exact Ha.
    change (count_spaces " ") with 1. simpl. lia.
Qed.

Lemma wordlist_word_head (word : string) :
  wordlist_word word ->
  exists c, head (list_ascii_of_string word) = Some c /\ c <> SPACE.
Proof.
  intros ((Hlen & _) & _ & Hspace). destruct word as [|c word]; [simpl in Hlen; lia |].
  exists c. split; [reflexivity |]. simpl in Hspace.
  apply not_elem_of_cons in Hspace as [Hc _]. congruence.
Qed.

Lemma wordlist_word_last (word : string) :
  wordlist_word word ->
  exists c, last (list_ascii_of_string word) = Some c /\ c <> SPACE.
Proof.
  intros ((Hlen & _) & _ & Hspace).
  rewrite <- length_list_ascii_of_string in Hlen.
  destruct (list_ascii_of_string word) as [|c l] using rev_ind;
    [simpl in Hlen; lia |].
  exists c. split; [apply last_snoc |].
  rewrite not_elem_of_app in Hspace. destruct Hspace as [_ Hc].
  apply not_elem_of_cons in Hc as [Hc _]. congruence.
Qed.

Lemma concat_head (l : list string) :
  Forall wordlist_word l -> l <> [] ->
  head (list_ascii_of_string (String.concat " " l)) <> Some SPACE.
Proof.
  intros Hall Hne. destruct l as [|a l]; [contradiction |].
  apply Forall_cons in Hall as [Ha _].
  destruct (wordlist_word_head a Ha) as (c & Hhead & Hc).
  destruct l as [|b l].
  - simpl. rewrite Hhead. congruence.
  - rewrite concat_cons by discriminate.
    rewrite list_ascii_of_string_app, head_app, Hhead. congruence.
Qed.

Lemma concat_last (l : list string) :
  Forall wordlist_word l -> l <> [] ->
  last (list_ascii_of_string (String.concat " " l)) <> Some SPACE.
Proof.
  intros Hall Hne. destruct l as [|x l _] using rev_ind; [contradiction |].
  apply Forall_app in Hall as [_ Hx]. apply Forall_cons in Hx as [Hx _].
  destruct (wordlist_word_last x Hx) as (c & Hlast & Hc).
  destruct l as [|b l].
  - simpl. rewrite Hlast. congruence.
  - rewrite concat_snoc by discriminate.
    rewrite !list_ascii_of_string_app, !last_app, Hlast. congruence.
Qed.

Lemma entered_words_stored (st : entry_state) :
  entered_words st -> word_idx st <= length (words st) ->
  Forall wordlist_word (take (word_idx st) (words st)).
Proof.
  intros (_ & Hwords) Hlen. apply Forall_lookup. intros i word Hi.
  apply lookup_take_Some in Hi as [Hi Hlt].
  destruct (Hwords i Hlt) as (word' & Hword' & Hok). congruence.
Qed.

Lemma stored_words_not_cut (l : list string) :
  Forall wordlist_word l ->
  substring 0 WORKFLOW_TRINARY_INPUT_MAX_WORD_LENGTH <$> l = l.
Proof.
  induction 1 as [|word l ((_ & Hlen) & _) _ IH]; [reflexivity |].
  rewrite fmap_cons, IH. now rewrite substring_whole.
Qed.

(** C4: for each of the three word counts, a complete entry makes
    [_get_mnemonic] return true with the mnemonic buffer holding the stored
    words joined by single spaces: [word_count - 1] spaces in all, none
    leading and none trailing, and a string shorter than the buffer of
    [(max word length + 1) * max words] bytes that receives it. *)
Theorem C4_mnemonic_joined_by_single_spaces (w : world) (choice : trinary_choice_t)
    (picks : list trinary_choice_t) (word_count : nat) (st : entry_state)
    (remaining : list workflow_trinary_input_result_t) :
  wordlist_available = true ->
  number_of_words_picks (user w) = choice :: picks ->
  WordCount choice = Some word_count ->
  Forall wordlist_entry (word_entries (user w)) ->
  MnemonicAssembler_run word_count initial_entry_state (word_entries (user w))
    = Complete st remaining ->
  mnemonic (mem w) = Some (zeroed mnemonic_size) ->
  let stored := take word_count (words st) in
  let joined := String.concat " " stored in
  (word_count = 12 \/ word_count = 18 \/ word_count = 24) /\
  length stored = word_count /\
  Forall wordlist_word stored /\
  _get_mnemonic w =
    (Next true,
     set_mem (with_mnemonic (Some (cstring_in mnemonic_size joined)))
       (after_entries (after_pick w picks word_count) word_count
          initial_entry_state (word_entries (user w)))) /\
  c_str (cstring_in mnemonic_size joined) = joined /\
  length (cstring_in mnemonic_size joined) = mnemonic_size /\
  count_spaces joined = word_count - 1 /\
  head (list_ascii_of_string joined) <> Some SPACE /\
  last (list_ascii_of_string joined) <> Some SPACE /\
  String.length joined < mnemonic_size /\
  String.length joined <=
    (WORKFLOW_TRINARY_INPUT_MAX_WORD_LENGTH + 1) * WORKFLOW_RESTORE_FROM_MNEMONIC_MAX_WORDS.
Proof.
  intros Havailable Hpicks Hcount Hentries Hrun Hbuf stored joined.
  assert (Hrange := WordCount_range _ _ Hcount).
  assert (Hmax : word_count <= WORKFLOW_RESTORE_FROM_MNEMONIC_MAX_WORDS)
    by (unfold WORKFLOW_RESTORE_FROM_MNEMONIC_MAX_WORDS; lia).
  destruct (initial_entry_state_invariant word_count Hmax) as [Hinv0 Hentered0].
  destruct (MnemonicAssembler_run_complete _ _ _ _ _ Hinv0 Hrun)
    as ((Hslots & _ & _) & Hidx & Hentered).
  specialize (Hentered Hentries Hentered0).
  assert (Hstored : Forall wordlist_word stored).
  { subst stored. rewrite <- Hidx. apply entered_words_stored; [exact Hentered | lia]. }
  assert (Hlength : length stored = word_count)
    by (subst stored; rewrite length_take; lia).
  assert (Hne : stored <> [])
    by (intros Hnil; rewrite Hnil in Hlength; simpl in Hlength; lia).
  assert (Hjoined : String.length joined + 1 <= mnemonic_size).
  { etransitivity.
    - apply (concat_length_bound WORKFLOW_TRINARY_INPUT_MAX_WORD_LENGTH); [| exact Hne].
      eapply Forall_impl; [exact Hstored |]. intros word ((_ & Hword) & _). exact Hword.
    - unfold mnemonic_size. apply Nat.mul_le_mono_l. lia. }
  assert (Hfree : NUL ∉ list_ascii_of_string joined).
  { apply concat_nul_free. eapply Forall_impl; [exact Hstored |].
    intros word (_ & Hword & _). exact Hword. }
  split; [exact Hrange |]. split; [exact Hlength |]. split; [exact Hstored |].
  split.
  { rewrite (get_mnemonic_eq w choice picks word_count Havailable Hpicks Hcount).
    cbv zeta. rewrite Hrun. unfold call, bind.
    rewrite assemble_mnemonic_prefix;
      [| lia | exact Hmax | apply Hentered | exact Hbuf].
    rewrite <- fmap_take. fold stored. rewrite stored_words_not_cut by exact Hstored.
    reflexivity. }
  split; [now apply c_str_cstring |].
  split; [apply length_cstring_in; lia |].
  split; [subst joined; rewrite count_spaces_concat by exact Hstored; lia |].
  split; [now apply concat_head |].
  split; [now apply concat_last |].
  fold mnemonic_size. lia.
Qed.

(** ** Computations that never read the log *)

Lemma same_state_refl (w : world) : same_state w w.
Proof. repeat split. Qed.

Lemma trace_blind_ret {A} (a : A) : trace_blind (ret a).
Proof. intros w1 w2 H. split; [reflexivity | exact H]. Qed.

Lemma trace_blind_return {A} (b : bool) : trace_blind (@return_ A b).
Proof. intros w1 w2 H. split; [reflexivity | exact H]. Qed.

Lemma trace_blind_undefined {A} : trace_blind (@undefined A).
Proof. intros w1 w2 H. split; [reflexivity | exact H]. Qed.

Lemma trace_blind_bind {A B} (m : M A) (k : A -> M B) :
  trace_blind m -> (forall a, trace_blind (k a)) -> trace_blind (bind m k).
Proof.
  intros Hm Hk w1 w2 Hsame. unfold bind.
  destruct (Hm w1 w2 Hsame) as [Hflow Hstate].
  destruct (m w1) as [f1 w1'], (m w2) as [f2 w2']. simpl in Hflow, Hstate. subst f2.
  destruct f1; simpl; auto. now apply Hk.
Qed.

Lemma trace_blind_call (body : M bool) : trace_blind body -> trace_blind (call body).
Proof.
  intros Hm w1 w2 Hsame. unfold call.
  destruct (Hm w1 w2 Hsame) as [Hflow Hstate].
  destruct (body w1) as [f1 w1'], (body w2) as [f2 w2']. simpl in Hflow, Hstate. subst f2.
  destruct f1; simpl; auto.
Qed.

Lemma trace_blind_for_loop (count start : nat) (body : nat -> M unit) :
  (forall i, trace_blind (body i)) -> trace_blind (for_loop count start body).
Proof.
  intros Hbody. revert start. induction count as [|count IH]; intros start; simpl.
  - apply trace_blind_ret.
  - apply trace_blind_bind; [apply Hbody | intros _; apply IH].
Qed.

Lemma trace_blind_on_mnemonic (f : buffer -> option buffer) : trace_blind (on_mnemonic f).
Proof.
  intros w1 w2 (Huser & Hmem & Hdev). unfold on_mnemonic. rewrite Hmem.
  destruct (mnemonic (mem w2)) as [buf|]; [| repeat split; assumption].
  destruct (f buf); repeat split; simpl; congruence.
Qed.

Lemma trace_blind_assemble_mnemonic (num_words : nat) (slots : list string) :
  trace_blind (assemble_mnemonic num_words slots).
Proof.
  unfold assemble_mnemonic. apply trace_blind_for_loop. intros i.
  apply trace_blind_bind.
  - destruct (negb (i =? 0)); [apply trace_blind_on_mnemonic | apply trace_blind_ret].
  - intros _. destruct (slots !! i);
      [apply trace_blind_on_mnemonic | apply trace_blind_undefined].
Qed.

(** ** Delete followed by the same word *)

Lemma MnemonicAssembler_run_awaiting (word_count : nat)
    (pre rest : list workflow_trinary_input_result_t) :
  forall st st_p,
    MnemonicAssembler_run word_count st pre = AwaitingEntry st_p ->
    word_idx st_p < word_count /\
    MnemonicAssembler_run word_count st (pre ++ rest) =
      MnemonicAssembler_run word_count st_p rest.
Proof.
  induction pre as [|outcome pre IH]; intros st st_p Hrun; simpl in Hrun;
    destruct (Nat.ltb_spec (word_idx st) word_count) as [Hlt | Hge]; try discriminate.
  - injection Hrun as <-. now split.
  - destruct (MnemonicAssembler_step st outcome) as [st1|] eqn:Hstep; [| discriminate].
    destruct (IH st1 st_p Hrun) as [Hidx Hrest]. split; [exact Hidx |].
    simpl. destruct (Nat.ltb_spec (word_idx st) word_count); [| lia].
    now rewrite Hstep.
Qed.

Lemma MnemonicAssembler_delete_reaccept (word_count : nat) (st : entry_state)
    (word : string) (post : list workflow_trinary_input_result_t) :
  word_idx st < word_count ->
  0 < word_idx st ->
  words st !! (word_idx st - 1) = Some word ->
  MnemonicAssembler_run word_count st
    (WORKFLOW_TRINARY_INPUT_RESULT_DELETE :: WORKFLOW_TRINARY_INPUT_RESULT_OK word :: post) =
  MnemonicAssembler_run word_count st post.
Proof.
  intros Hlt Hpos Hword. destruct st as [p slots]. simpl in *.
  destruct (Nat.ltb_spec p word_count); [| lia].
  destruct (Nat.ltb_spec (Nat.pred p) word_count); [| lia].
  replace (S (Nat.pred p)) with p by lia.
  replace (Nat.pred p) with (p - 1) by lia.
  now rewrite list_insert_id.
Qed.

(** C9: when the user, at a position p > 0, deletes and then accepts again
    the word stored at p - 1, the entry ends with the same word slots as
    without these two outcomes, and [_get_mnemonic] ends with the same
    result, the same mnemonic buffer and the same outcomes left to
    consume. *)
Theorem C9_delete_then_same_word (w : world) (choice : trinary_choice_t)
    (picks : list trinary_choice_t) (word_count : nat)
    (pre post : list workflow_trinary_input_result_t)
    (st_p : entry_state) (word : string) :
  wordlist_available = true ->
  number_of_words_picks (user w) = choice :: picks ->
  WordCount choice = Some word_count ->
  MnemonicAssembler_run word_count initial_entry_state pre = AwaitingEntry st_p ->
  0 < word_idx st_p ->
  words st_p !! (word_idx st_p - 1) = Some word ->
  let with_delete :=
    pre ++ [WORKFLOW_TRINARY_INPUT_RESULT_DELETE; WORKFLOW_TRINARY_INPUT_RESULT_OK word]
        ++ post in
  let without := pre ++ post in
  let run_with_delete := _get_mnemonic (set_user (with_word_entries with_delete) w) in
  let run_without := _get_mnemonic (set_user (with_word_entries without) w) in
  MnemonicAssembler_run word_count initial_entry_state with_delete =
    MnemonicAssembler_run word_count initial_entry_state without /\
  fst run_with_delete = fst run_without /\
  mem (snd run_with_delete) = mem (snd run_without) /\
  user (snd run_with_delete) = user (snd run_without) /\
  dev (snd run_with_delete) = dev (snd run_without).
Proof.
  intros Havailable Hpicks Hcount Hpre Hpos Hword with_delete without
    run_with_delete run_without.
  destruct (MnemonicAssembler_run_awaiting word_count pre
              ([WORKFLOW_TRINARY_INPUT_RESULT_DELETE;
                WORKFLOW_TRINARY_INPUT_RESULT_OK word] ++ post) _ _ Hpre)
    as [Hlt Hrun1].
  destruct (MnemonicAssembler_run_awaiting word_count pre post _ _ Hpre) as [_ Hrun2].
  assert (Hsame_run :
    MnemonicAssembler_run word_count initial_entry_state with_delete =
    MnemonicAssembler_run word_count initial_entry_state without).
  { subst with_delete without. rewrite Hrun1, Hrun2.
    now apply MnemonicAssembler_delete_reaccept. }
  split; [exact Hsame_run |].
  subst run_with_delete run_without.
  rewrite (get_mnemonic_eq (set_user (with_word_entries with_delete) w)
             choice picks word_count Havailable Hpicks Hcount).
  rewrite (get_mnemonic_eq (set_user (with_word_entries without) w)
             choice picks word_count Havailable Hpicks Hcount).
  cbv zeta.
  change (word_entries (user (set_user (with_word_entries with_delete) w)))
    with with_delete.
  change (word_entries (user (set_user (with_word_entries without) w)))
    with without.
  rewrite Hsame_run.
  set (a := MnemonicAssembler_run word_count initial_entry_state without).
  assert (Hstate :
    same_state
      (after_entries (after_pick (set_user (with_word_entries with_delete) w)
                        picks word_count)
         word_count initial_entry_state with_delete)
      (after_entries (after_pick (set_user (with_word_entries without) w)
                        picks word_count)
         word_count initial_entry_state without)).
  { unfold same_state, after_entries, after_pick, set_user. simpl.
    rewrite Hsame_run. repeat split. }
  destruct a as [st remaining | remaining | st].
  - assert (Hblind : trace_blind
              (call (assemble_mnemonic word_count (words st) ;;; return_ true))).
    { apply trace_blind_call, trace_blind_bind;
        [apply trace_blind_assemble_mnemonic | intros _; apply trace_blind_return]. }
    destruct (Hblind _ _ Hstate) as [Hflow (Huser & Hmem & Hdev)].
    repeat split; assumption.
  - destruct Hstate as (Huser & Hmem & Hdev). repeat split; assumption.
  - destruct Hstate as (Huser & Hmem & Hdev). repeat split; assumption.
Qed.

(** ** The steps before the seed is persisted *)

Create HintDb early.

Lemma early_same {A} (f : flow A) : early (fun w => (f, w)).
Proof.
  intros w. simpl. repeat split. exists []. now rewrite app_nil_r.
Qed.

Lemma early_ret {A} (a : A) : early (ret a).
Proof. apply (early_same (Next a)). Qed.

Lemma early_return {A} (b : bool) : early (@return_ A b).
Proof. apply (early_same (Return b)). Qed.

Lemma early_abort {A} (msg : string) : early (@abort A msg).
Proof. apply (early_same (Abort msg)). Qed.

Lemma early_undefined {A} : early (@undefined A).
Proof. apply (early_same Undefined). Qed.

Lemma early_log (e : event) : early_event e -> early (log e).
Proof.
  intros He w. simpl. repeat split. exists [e]. split; [reflexivity |].
  now apply Forall_singleton.
Qed.

Lemma early_await {A} (pending : user_script -> list A) consume :
  (forall l u, confirm_time_answers (consume l u) = confirm_time_answers u) ->
  early (await pending consume).
Proof.
  intros Hconsume w. unfold await. destruct (pending (user w)); simpl.
  - repeat split. exists []. now rewrite app_nil_r.
  - split; [reflexivity |]. split; [apply Hconsume |].
    exists []. now rewrite app_nil_r.
Qed.

Lemma early_bind {A B} (m : M A) (k : A -> M B) :
  early m -> (forall a, early (k a)) -> early (bind m k).
Proof.
  intros Hm Hk w. unfold bind. specialize (Hm w).
  destruct (m w) as [[a|b|msg| |] w']; simpl in *; try exact Hm.
  destruct Hm as (Hdev & Hanswers & es & Htrace & Hes).
  destruct (Hk a w') as (Hdev' & Hanswers' & es' & Htrace' & Hes').
  split; [congruence |]. split; [congruence |].
  exists (es ++ es'). split; [| now apply Forall_app].
  now rewrite Htrace', Htrace, app_assoc.
Qed.

Lemma early_call (body : M bool) : early body -> early (call body).
Proof.
  intros Hm w. unfold call. specialize (Hm w).
  destruct (body w) as [[a|b|msg| |] w']; exact Hm.
Qed.

Lemma early_cleanup_scope {A} (cleanup : secrets -> secrets) (scope : M A) :
  early scope -> early (cleanup_scope cleanup scope).
Proof.
  intros Hm w. unfold cleanup_scope. specialize (Hm w).
  destruct (scope w) as [[a|b|msg| |] w']; exact Hm.
Qed.

Lemma early_for_loop (count start : nat) (body : nat -> M unit) :
  (forall i, early (body i)) -> early (for_loop count start body).
Proof.
  intros Hbody. revert start. induction count as [|count IH]; intros start; simpl.
  - apply early_ret.
  - apply early_bind; [apply Hbody | intros _; apply IH].
Qed.

Lemma early_put_mem (f : secrets -> secrets) : early (put_mem f).
Proof. intros w. simpl. repeat split. exists []. now rewrite app_nil_r. Qed.

Lemma early_on_mnemonic (f : buffer -> option buffer) : early (on_mnemonic f).
Proof.
  intros w. unfold on_mnemonic.
  destruct (mnemonic (mem w)) as [buf|]; [destruct (f buf) |];
    simpl; repeat split; exists []; now rewrite app_nil_r.
Qed.

#[local] Hint Resolve early_ret early_return early_abort early_undefined
  early_call early_cleanup_scope early_for_loop early_put_mem early_on_mnemonic : early.

Ltac early_step :=
  match goal with
  | |- early (bind _ _) => apply early_bind; [| intros ?]
  | |- early (log _) => apply early_log; exact I
  | |- early (await _ _) => apply early_await; intros ? []; reflexivity
  | |- early (if ?b then _ else _) => destruct b
  | |- early (match ?x with _ => _ end) => destruct x
  | |- early _ => solve [auto with early]
  end.

Lemma early_workflow_confirm_blocking (params : confirm_params_t) :
  early (workflow_confirm_blocking params).
Proof. unfold workflow_confirm_blocking. repeat early_step. Qed.

Lemma early_workflow_status_blocking (msg : string) (success : bool) :
  early (workflow_status_blocking msg success).
Proof. unfold workflow_status_blocking. early_step. Qed.

#[local] Hint Resolve early_workflow_confirm_blocking
  early_workflow_status_blocking : early.

Lemma early_entry_loop (fuel num_words : nat) (st : entry_state) :
  early (entry_loop fuel num_words st).
Proof.
  revert st. induction fuel as [|fuel IH]; intros st; simpl;
    destruct (word_idx st <? num_words); auto with early.
  - apply (early_same Waiting).
  - apply early_bind; [| intros st'; apply IH].
    unfold entry_iteration, workflow_trinary_input_wordlist. repeat early_step.
Qed.

Lemma early_get_mnemonic : early _get_mnemonic.
Proof.
  unfold _get_mnemonic, fetch_wordlist, _pick_number_of_words, assemble_mnemonic.
  apply early_call. repeat early_step.
  - apply early_for_loop. intros i. repeat early_step.
  - intros w. apply early_entry_loop.
  - apply early_for_loop. intros i. repeat early_step.
Qed.

Lemma early_password_loop (fuel : nat) : early (password_loop fuel).
Proof.
  induction fuel as [|fuel IH]; simpl.
  - apply (early_same Waiting).
  - unfold password_set. repeat early_step.
    intros w. destruct (password (mem w)) as [buf|]; [destruct (write_at buf 0 _) |];
      simpl; repeat split; exists []; now rewrite app_nil_r.
Qed.

Lemma early_read_str (field : secrets -> option buffer) : early (read_str field).
Proof.
  intros w. unfold read_str. destruct (field (mem w));
    simpl; repeat split; exists []; now rewrite app_nil_r.
Qed.

Lemma early_mnemonic_to_seed (s : string) : early (mnemonic_to_seed s).
Proof.
  intros w. unfold mnemonic_to_seed.
  destruct (seed (mem w)) as [buf|];
    [destruct (keystore_bip39_mnemonic_to_seed s) |]; simpl; repeat split.
  - eexists. split; [reflexivity |]. now apply Forall_singleton.
  - eexists. split; [reflexivity |]. now apply Forall_singleton.
  - exists []. now rewrite app_nil_r.
Qed.

#[local] Hint Resolve early_get_mnemonic early_read_str early_mnemonic_to_seed : early.

Lemma password_set_not_return (w w' : world) (b : bool) :
  password_set w <> (Return b, w').
Proof.
  unfold password_set, bind, log, await. simpl.
  destruct (password_entries (user w)) as [|[entered repeated] rest]; [discriminate |].
  simpl. destruct (String.eqb entered repeated); [| discriminate].
  destruct (password _) as [buf|]; [destruct (write_at buf 0 _) |]; discriminate.
Qed.

Lemma workflow_confirm_blocking_not_return (params : confirm_params_t)
    (w w' : world) (b : bool) :
  workflow_confirm_blocking params w <> (Return b, w').
Proof.
  unfold workflow_confirm_blocking, bind, log, await. simpl.
  destruct (confirm_answers (user w)); discriminate.
Qed.

(** The password loop leaves the function only by [return false]. *)
Lemma password_loop_return (fuel : nat) (w w' : world) (b : bool) :
  password_loop fuel w = (Return b, w') -> b = false.
Proof.
  revert w. induction fuel as [|fuel IH]; intros w; simpl; [discriminate |].
  unfold bind.
  destruct (password_set w) as [[matched|?|?| |] w1] eqn:Hset; try discriminate.
  - destruct matched; simpl; [discriminate |].
    destruct (workflow_confirm_blocking _ w1) as [[again|?|?| |] w2] eqn:Hconfirm;
      try discriminate.
    + destruct again; simpl; [apply IH | now intros [= <- _]].
    + exfalso. exact (workflow_confirm_blocking_not_return _ _ _ _ Hconfirm).
  - exfalso. exact (password_set_not_return _ _ _ Hset).
Qed.

Lemma returned_trace (r : flow bool * world) : trace (snd (returned r)) = trace (snd r).
Proof. destruct r as [[] w]; reflexivity. Qed.

Lemma returned_dev (r : flow bool * world) : dev (snd (returned r)) = dev (snd r).
Proof. destruct r as [[] w]; reflexivity. Qed.

#[local] Arguments password_loop : simpl never.
#[local] Arguments persist_and_unlock : simpl never.
#[local] Arguments _get_mnemonic : simpl never.

Lemma workflow_stages (request : RestoreFromMnemonicRequest) (w : world) :
  let r := workflow_restore_from_mnemonic request w in
  (exists es,
      trace (snd r) = trace w ++ es /\ Forall early_event es /\
      dev (snd r) = dev w /\ fst r <> Next true) \/
  (exists w5 seed_len es,
      trace w5 = trace w ++ es /\ Forall early_event es /\ dev w5 = dev w /\
      confirm_time_answers (user w5) = confirm_time_answers (user w) /\
      r = returned (persist_and_unlock request seed_len w5)).
Proof.
  intros r. remember r as r' eqn:Hr. subst r.
  unfold workflow_restore_from_mnemonic, call in Hr.
  unfold bind at 1, put_mem at 1 in Hr. unfold cleanup_scope at 1 in Hr.
  unfold bind at 1 in Hr.
  set (w0 := set_mem _ w) in Hr.
  destruct (early_get_mnemonic w0) as (Hdev2 & Hans2 & es2 & Htr2 & Hes2).
  destruct (_get_mnemonic w0) as [f2 w2] eqn:Hget. simpl in Hdev2, Hans2, Htr2.
  destruct f2 as [[|]|b|msg| |]; simpl in Hr;
    try (exfalso; exact (call_not_return _ _ _ _ Hget)).
  2,3,4,5: subst r'; left; exists es2; repeat split; simpl; try assumption; discriminate.
  unfold bind at 1, put_mem at 1 in Hr. unfold cleanup_scope at 1 in Hr.
  unfold bind at 1, read_str at 1 in Hr. simpl in Hr.
  destruct (mnemonic (mem w2)) as [buf|].
  2:{ subst r'. left. exists es2. repeat split; simpl; try assumption; discriminate. }
  unfold bind at 1, mnemonic_to_seed at 1 in Hr. simpl in Hr.
  destruct (keystore_bip39_mnemonic_to_seed (c_str buf)) as [bytes|].
  2:{ subst r'. left. eexists. repeat split; simpl.
      - rewrite Htr2, <- !app_assoc. reflexivity.
      - apply Forall_app. split; [exact Hes2 |]. repeat constructor.
      - assumption.
      - discriminate. }
  unfold bind at 1, workflow_status_blocking at 1, log at 1 in Hr.
  unfold bind at 1, put_mem at 1 in Hr. unfold cleanup_scope at 1 in Hr.
  unfold bind at 1 in Hr.
  match type of Hr with context [password_loop ?fuel ?w4] =>
    destruct (early_password_loop fuel w4) as (Hdev5 & Hans5 & es5 & Htr5 & Hes5);
    destruct (password_loop fuel w4) as [f5 w5] eqn:Hloop
  end.
  simpl in Hdev5, Hans5, Htr5.
  assert (Hes : Forall early_event
    (es2 ++ [call_keystore_bip39_mnemonic_to_seed (c_str buf) true;
             ui_status ("Recovery words" +:+ nl +:+ "valid") true] ++ es5)).
  { apply Forall_app. split; [exact Hes2 |]. apply Forall_app. split; [| exact Hes5].
    repeat constructor. }
  assert (Htr : trace w5 = trace w ++
    es2 ++ [call_keystore_bip39_mnemonic_to_seed (c_str buf) true;
            ui_status ("Recovery words" +:+ nl +:+ "valid") true] ++ es5).
  { rewrite Htr5, Htr2, <- !app_assoc. reflexivity. }
  destruct f5 as [[]|b|msg| |]; simpl in Hr.
  - right. exists w5, (length bytes). eexists.
    repeat split; try eassumption; try congruence.
    rewrite Hr. unfold returned.
    destruct (persist_and_unlock request (length bytes) w5) as [[] w6]; reflexivity.
  - assert (b = false) by (eapply password_loop_return; exact Hloop). subst b r'.
    left. eexists. repeat split; simpl; try eassumption; try congruence.
  - subst r'. left. eexists. repeat split; simpl; try eassumption; try congruence.
  - subst r'. left. eexists. repeat split; simpl; try eassumption; try congruence.
  - subst r'. left. eexists. repeat split; simpl; try eassumption; try congruence.
Qed.

Ltac run_cases :=
  repeat (cbn;
    match goal with
    | |- context [if ?c then _ else _] => destruct c eqn:?
    | |- context [match ?x with _ => _ end] =>
        lazymatch x with
        | context [match _ with _ => _ end] => fail
        | _ => destruct x eqn:?
        end
    end).

Lemma persist_and_unlock_facts (request : RestoreFromMnemonicRequest)
    (seed_len : nat) (w5 : world) :
  let r5 := persist_and_unlock request seed_len w5 in
  exists es,
    trace (snd r5) = trace w5 ++ es /\
    (forall res, call_keystore_unlock res ∈ es -> res <> KEYSTORE_OK ->
                 fst r5 = Abort unlock_failed) /\
    (forall res, call_keystore_unlock res ∈ es ->
                 call_memory_set_initialized true ∈ es) /\
    (call_memory_set_initialized true ∈ es ->
       call_keystore_encrypt_and_store_seed true ∈ es /\
       (exists res, call_keystore_unlock res ∈ es) /\
       (fst r5 = Return true \/ fst r5 = Abort unlock_failed)).
Proof.
  clear keystore_get_bip39_word indeterminate.
  intros r5. subst r5. unfold persist_and_unlock.
  unfold read_seed, read_str, keystore_encrypt_and_store_seed,
    workflow_confirm_time, securechip_u2f_counter_set, memory_set_initialized,
    keystore_unlock, workflow_unlock_bip39_blocking, workflow_status_blocking,
    bind, log, await, ret, return_, abort.
  run_cases; cbn.
  all: eexists; (split; [rewrite <- ?app_assoc; try reflexivity; symmetry; apply app_nil_r |]).
  all: set_solver.
Qed.

Lemma persist_and_unlock_u2f_facts (request : RestoreFromMnemonicRequest)
    (seed_len : nat) (w5 : world) :
  APP_U2F = 1%Z ->
  let r5 := persist_and_unlock request seed_len w5 in
  exists es,
    trace (snd r5) = trace w5 ++ es /\
    (ui_confirm_time (timestamp request) (timezone_offset request) ∈ es ->
     head (confirm_time_answers (user w5)) = Some false ->
     fst r5 = Return false /\
     call_keystore_encrypt_and_store_seed true ∈ es /\
     is_Some (stored_seed (dev (snd r5))) /\
     initialized (dev (snd r5)) = initialized (dev w5) /\
     forall ok, call_memory_set_initialized ok ∉ es) /\
    (forall counter,
        call_securechip_u2f_counter_set counter false ∈ es ->
        (exists ok, call_memory_set_initialized ok ∈ es) /\
        (fst r5 = Return false -> call_memory_set_initialized false ∈ es)) /\
    (call_keystore_encrypt_and_store_seed true ∈ es ->
     ui_confirm_time (timestamp request) (timezone_offset request) ∈ es) /\
    (forall b, fst r5 <> Next b).
Proof.
  clear keystore_get_bip39_word indeterminate.
  intros Hu2f r5. subst r5. unfold persist_and_unlock. rewrite Hu2f.
  change (1 =? 1)%Z with true. cbv iota.
  unfold read_seed, read_str, keystore_encrypt_and_store_seed,
    workflow_confirm_time, securechip_u2f_counter_set, memory_set_initialized,
    keystore_unlock, workflow_unlock_bip39_blocking, workflow_status_blocking,
    bind, log, await, ret, return_, abort.
  run_cases; cbn.
  all: eexists; (split; [rewrite <- ?app_assoc; try reflexivity; symmetry; apply app_nil_r |]).
  all: repeat split; try (eexists; reflexivity); set_solver.
Qed.

Lemma early_event_in (es : list event) (e : event) :
  Forall early_event es -> e ∈ es -> early_event e.
Proof. intros Hall Hin. rewrite Forall_forall in Hall. now apply Hall. Qed.

Lemma late_event_in (es0 es : list event) (e : event) :
  Forall early_event es0 -> ~ early_event e -> e ∈ es0 ++ es -> e ∈ es.
Proof.
  intros Hall Hlate Hin. apply elem_of_app in Hin as [Hin | Hin]; [| exact Hin].
  exfalso. apply Hlate. eapply early_event_in; eassumption.
Qed.

Lemma returned_fst (r : flow bool * world) :
  fst (returned r) =
    match fst r with
    | Next b | Return b => Next b
    | other => other
    end.
Proof. destruct r as [[] w]; reflexivity. Qed.

(** C6: whenever the keystore does not unlock, the seed has been stored and
    the device marked initialized, and the firmware halts in Abort; and
    once the device is marked initialized the unlock is attempted and the
    call ends in success or in that Abort, never in an ordinary failure. *)
Theorem C6_unlock_failure_aborts (request : RestoreFromMnemonicRequest) (w : world) :
  let r := workflow_restore_from_mnemonic request w in
  exists es,
    trace (snd r) = trace w ++ es /\
    (forall res,
        call_keystore_unlock res ∈ es -> res <> KEYSTORE_OK ->
        call_keystore_encrypt_and_store_seed true ∈ es /\
        call_memory_set_initialized true ∈ es /\
        fst r = Abort unlock_failed) /\
    (call_memory_set_initialized true ∈ es ->
       call_keystore_encrypt_and_store_seed true ∈ es /\
       (exists res, call_keystore_unlock res ∈ es) /\
       (fst r = Next true \/ fst r = Abort unlock_failed) /\
       fst r <> Next false).
Proof.
  intros r.
  destruct (workflow_stages request w)
    as [(es & Htr & Hes & _ & _) | (w5 & len & es0 & Htr0 & Hes0 & _ & _ & Hr)];
    fold r in Htr || fold r in Hr.
  - exists es. split; [exact Htr |]. split.
    + intros res Hin. destruct (early_event_in _ _ Hes Hin).
    + intros Hin. destruct (early_event_in _ _ Hes Hin).
  - destruct (persist_and_unlock_facts request len w5) as (es5 & Htr5 & F1 & F2 & F3).
    exists (es0 ++ es5). split; [| split].
    + rewrite Hr, returned_trace, Htr5, Htr0. now rewrite app_assoc.
    + intros res Hin Hres. apply late_event_in in Hin; [| exact Hes0 | intros []].
      destruct (F3 (F2 res Hin)) as (Hstore & _ & _).
      split; [apply elem_of_app; right; exact Hstore |].
      split; [apply elem_of_app; right; exact (F2 res Hin) |].
      rewrite Hr, returned_fst, (F1 res Hin Hres). reflexivity.
    + intros Hin. apply late_event_in in Hin; [| exact Hes0 | intros []].
      destruct (F3 Hin) as (Hstore & (res & Hunlock) & Hflow).
      split; [apply elem_of_app; right; exact Hstore |].
      split; [exists res; apply elem_of_app; right; exact Hunlock |].
      rewrite Hr, returned_fst.
      destruct Hflow as [-> | ->]; split; auto; discriminate.
Qed.

(** C10: in a firmware built with [APP_U2F], when the time confirmation is
    shown and the user declines it, the call returns false although the
    seed has been stored: the stored seed stays on the device, which is
    not marked initialized.  A failure to set the U2F counter does not end
    the call: marking the device initialized is attempted all the same,
    and a false result then comes from that step. *)
Theorem C10_declined_time_keeps_stored_seed (request : RestoreFromMnemonicRequest)
    (w : world) :
  APP_U2F = 1%Z ->
  let r := workflow_restore_from_mnemonic request w in
  exists es,
    trace (snd r) = trace w ++ es /\
    (ui_confirm_time (timestamp request) (timezone_offset request) ∈ es ->
     head (confirm_time_answers (user w)) = Some false ->
     fst r = Next false /\
     call_keystore_encrypt_and_store_seed true ∈ es /\
     is_Some (stored_seed (dev (snd r))) /\
     initialized (dev (snd r)) = initialized (dev w) /\
     forall ok, call_memory_set_initialized ok ∉ es) /\
    (forall counter,
        call_securechip_u2f_counter_set counter false ∈ es ->
        (exists ok, call_memory_set_initialized ok ∈ es) /\
        (fst r = Next false -> call_memory_set_initialized false ∈ es)) /\
    (call_keystore_encrypt_and_store_seed true ∈ es ->
     ui_confirm_time (timestamp request) (timezone_offset request) ∈ es).
Proof.
  intros Hu2f r.
  destruct (workflow_stages request w)
    as [(es & Htr & Hes & _ & _)
       | (w5 & len & es0 & Htr0 & Hes0 & Hdev0 & Hanswers0 & Hr)];
    fold r in Htr || fold r in Hr.
  - exists es. split; [exact Htr |]. split; [| split].
    + intros Hin. destruct (early_event_in _ _ Hes Hin).
    + intros counter Hin. destruct (early_event_in _ _ Hes Hin).
    + intros Hin. destruct (early_event_in _ _ Hes Hin).
  - destruct (persist_and_unlock_u2f_facts request len w5 Hu2f)
      as (es5 & Htr5 & FA & FB & FC & FD).
    exists (es0 ++ es5). split; [| split; [| split]].
    + rewrite Hr, returned_trace, Htr5, Htr0. now rewrite app_assoc.
    + intros Hin Hdecline. apply late_event_in in Hin; [| exact Hes0 | intros []].
      rewrite <- Hanswers0 in Hdecline.
      destruct (FA Hin Hdecline) as (Hflow & Hstore & Hstored & Hinit & Hnone).
      rewrite Hr, returned_fst, returned_dev, Hflow, Hinit, Hdev0.
      repeat split; auto.
      * apply elem_of_app. right. exact Hstore.
      * intros ok Hok. apply late_event_in in Hok; [| exact Hes0 | intros []].
        exact (Hnone ok Hok).
    + intros counter Hin. apply late_event_in in Hin; [| exact Hes0 | intros []].
      destruct (FB counter Hin) as ((ok & Hok) & Hfalse). split.
      * exists ok. apply elem_of_app. right. exact Hok.
      * rewrite Hr, returned_fst. intros Hflow. apply elem_of_app. right.
        apply Hfalse.
        destruct (fst (persist_and_unlock request len w5)) as [b|b|msg| |] eqn:Hf;
          try discriminate.
        -- exfalso. exact (FD b eq_refl).
        -- now injection Hflow as ->.
    + intros Hin. apply late_event_in in Hin; [| exact Hes0 | intros []].
      apply elem_of_app. right. exact (FC Hin).
Qed.

(** ** The password loop *)

(** Once the mnemonic is entered and valid, the call is the password loop
    followed by the persistence of the seed, in the scope of the three
    secret buffers. *)
Lemma workflow_at_password_scope (request : RestoreFromMnemonicRequest)
    (w w2 : world) (buf : buffer) (bytes : list Byte.byte) :
  _get_mnemonic (set_mem (with_mnemonic (Some (zeroed mnemonic_size))) w) = (Next true, w2) ->
  mnemonic (mem w2) = Some buf ->
  keystore_bip39_mnemonic_to_seed (c_str buf) = Some bytes ->
  workflow_restore_from_mnemonic request w =
    returned
      (((fun w => password_loop (S (length (password_entries (user w)))) w) ;;;
        persist_and_unlock request (length bytes))
         (password_scope_entry w2 buf bytes)).
Proof.
  intros Hget Hbuf Hderive.
  unfold workflow_restore_from_mnemonic, call.
  unfold bind at 1, put_mem at 1. unfold cleanup_scope at 1. unfold bind at 1.
  fold mnemonic_size. rewrite Hget. simpl.
  unfold bind at 1, put_mem at 1. unfold cleanup_scope at 1.
  unfold bind at 1, read_str at 1. simpl. rewrite Hbuf.
  unfold bind at 1, mnemonic_to_seed at 1. simpl. rewrite Hderive.
  unfold bind at 1, workflow_status_blocking at 1, log at 1.
  unfold bind at 1, put_mem at 1. unfold cleanup_scope at 1.
  match goal with |- context [(_ ;;; persist_and_unlock _ _) ?w4] =>
    replace w4 with (password_scope_entry w2 buf bytes)
  end.
  - unfold returned.
    destruct ((_ ;;; persist_and_unlock request (length bytes)) _) as [[] w']; reflexivity.
  - unfold password_scope_entry, set_mem, set_trace. simpl.
    now rewrite <- app_assoc.
Qed.

Lemma password_set_mismatch (w : world) (entry : string * string)
    (rest : list (string * string)) :
  password_entries (user w) = entry :: rest ->
  mismatch entry ->
  password_set w =
    (Next false,
     {| user := with_password_entries rest (user w);
        trace := trace w ++ [ui_password_set];
        mem := mem w;
        dev := dev w |}).
Proof.
  intros Hentries Hmismatch. destruct entry as [entered repeated].
  unfold password_set, bind, log, await. simpl. rewrite Hentries. simpl.
  destruct (String.eqb_spec entered repeated) as [-> | _]; [| reflexivity].
  now destruct Hmismatch.
Qed.

Lemma password_set_match (w : world) (entered : string)
    (rest : list (string * string)) :
  password_entries (user w) = (entered, entered) :: rest ->
  password (mem w) = Some (zeroed SET_PASSWORD_MAX_PASSWORD_LENGTH) ->
  0 < SET_PASSWORD_MAX_PASSWORD_LENGTH ->
  password_set w =
    (Next true,
     {| user := with_password_entries rest (user w);
        trace := trace w ++ [ui_password_set];
        mem := with_password
                 (Some (cstring_in SET_PASSWORD_MAX_PASSWORD_LENGTH
                          (substring 0 (SET_PASSWORD_MAX_PASSWORD_LENGTH - 1) entered)))
                 (mem w);
        dev := dev w |}).
Proof.
  intros Hentries Hbuf Hsize.
  unfold password_set, bind, log, await. simpl. rewrite Hentries. simpl.
  rewrite String.eqb_refl. unfold set_user, set_trace. simpl. rewrite Hbuf.
  unfold zeroed at 2. rewrite length_replicate.
  rewrite <- cstring_in_empty.
  pose proof (substring_length_le (SET_PASSWORD_MAX_PASSWORD_LENGTH - 1) entered).
  rewrite (write_at_cstring _ "" _) by (simpl; lia).
  reflexivity.
Qed.

(** Every mismatch followed by an accepted "try again?" brings the loop
    back to the prompt, however often it happens. *)
Lemma password_loop_mismatches (mismatches : list (string * string)) :
  forall (fuel : nat) (w : world) (entries : list (string * string))
         (answers : list bool),
    Forall mismatch mismatches ->
    password_entries (user w) = mismatches ++ entries ->
    confirm_answers (user w) = replicate (length mismatches) true ++ answers ->
    password_loop (length mismatches + fuel) w =
    password_loop fuel (after_mismatches w (length mismatches) entries answers).
Proof.
  induction mismatches as [|entry mismatches IH];
    intros fuel w entries answers Hall Hentries Hanswers.
  - simpl in *. f_equal. unfold after_mismatches, mismatch_screens. simpl.
    rewrite app_nil_r, with_confirm_answers_same by exact Hanswers.
    destruct w as [u t m d]. simpl in *. f_equal.
    destruct u; simpl in *; now subst.
  - apply Forall_cons in Hall as [Hentry Hall].
    change (length (entry :: mismatches) + fuel) with (S (length mismatches + fuel)).
    change (password_loop (S (length mismatches + fuel)) w) with
      ((let* matched := password_set in
        if negb matched then
          let* again := workflow_confirm_blocking try_again in
          if negb again then return_ false
          else password_loop (length mismatches + fuel)
        else ret tt) w).
    unfold bind at 1.
    rewrite (password_set_mismatch w entry (mismatches ++ entries) Hentries Hentry).
    simpl negb. cbv iota.
    unfold bind at 1, workflow_confirm_blocking at 1, bind at 1, log at 1, await at 1.
    simpl. rewrite Hanswers. simpl.
    rewrite (IH fuel _ entries answers Hall); [| reflexivity | reflexivity].
    f_equal. unfold after_mismatches, set_user, set_trace, mismatch_screens. simpl.
    now rewrite <- !app_assoc.
Qed.

Lemma mismatch_screens_succ (n : nat) :
  mismatch_screens (n + 1) =
  mismatch_screens n ++ [ui_password_set; ui_confirm try_again].
Proof.
  unfold mismatch_screens. rewrite replicate_add, concat_app. reflexivity.
Qed.

(** Persisting the seed is the first thing the code after the loop does. *)
Lemma persist_and_unlock_begins (request : RestoreFromMnemonicRequest)
    (seed_len : nat) (w5 : world) (sbuf : list Byte.byte) (pbuf : buffer) :
  seed (mem w5) = Some sbuf ->
  password (mem w5) = Some pbuf ->
  exists es,
    trace (snd (persist_and_unlock request seed_len w5)) =
    trace w5 ++
      call_keystore_encrypt_and_store_seed
        (keystore_encrypt_and_store_seed_result (dev w5) (take seed_len sbuf) (c_str pbuf))
      :: es.
Proof.
  intros Hseed Hpassword. unfold persist_and_unlock.
  unfold read_seed, read_str, keystore_encrypt_and_store_seed,
    workflow_confirm_time, securechip_u2f_counter_set, memory_set_initialized,
    keystore_unlock, workflow_unlock_bip39_blocking, workflow_status_blocking,
    bind, log, await, ret, return_, abort.
  rewrite Hseed, Hpassword.
  run_cases; cbn.
  all: eexists; rewrite <- ?app_assoc; reflexivity.
Qed.

(** C5: after any number of mismatches, each answered by accepting to try
    again, a further mismatch that the user declines to retry makes the
    call return false with nothing persisted, and a prompt whose two
    entries match ends the loop and [keystore_encrypt_and_store_seed] is
    called next.  The number of retries is bounded only by the user
    declining. *)
Theorem C5_password_retry_loop (request : RestoreFromMnemonicRequest)
    (w w2 : world) (buf : buffer) (bytes : list Byte.byte)
    (mismatches : list (string * string)) :
  _get_mnemonic (set_mem (with_mnemonic (Some (zeroed mnemonic_size))) w) = (Next true, w2) ->
  mnemonic (mem w2) = Some buf ->
  keystore_bip39_mnemonic_to_seed (c_str buf) = Some bytes ->
  0 < SET_PASSWORD_MAX_PASSWORD_LENGTH ->
  Forall mismatch mismatches ->
  let retries := length mismatches in
  let before :=
    trace w2 ++
      [call_keystore_bip39_mnemonic_to_seed (c_str buf) true;
       ui_status ("Recovery words" +:+ nl +:+ "valid") true] in
  let r := workflow_restore_from_mnemonic request w in
  (forall entry entries answers,
      mismatch entry ->
      password_entries (user w2) = mismatches ++ entry :: entries ->
      confirm_answers (user w2) = replicate retries true ++ false :: answers ->
      fst r = Next false /\
      trace (snd r) = before ++ mismatch_screens (retries + 1) /\
      dev (snd r) = dev w /\
      password_entries (user (snd r)) = entries /\
      confirm_answers (user (snd r)) = answers) /\
  (forall entered entries answers,
      password_entries (user w2) = mismatches ++ (entered, entered) :: entries ->
      confirm_answers (user w2) = replicate retries true ++ answers ->
      exists ok es,
        trace (snd r) =
          before ++ mismatch_screens retries ++
          [ui_password_set; call_keystore_encrypt_and_store_seed ok] ++ es).
Proof.
  intros Hget Hbuf Hderive Hsize Hall retries before r.
  assert (Hr := workflow_at_password_scope request w w2 buf bytes Hget Hbuf Hderive).
  fold r in Hr.
  assert (Hdev : dev w2 = dev w).
  { destruct (early_get_mnemonic (set_mem (with_mnemonic (Some (zeroed mnemonic_size))) w))
      as (Hdev & _). now rewrite Hget in Hdev. }
  set (w4 := password_scope_entry w2 buf bytes) in Hr.
  split.
  - intros entry entries answers Hentry Hentries Hanswers.
    unfold bind in Hr.
    replace (S (length (password_entries (user w4))))
      with (retries + S (S (length entries))) in Hr
      by (subst w4 retries; simpl; rewrite Hentries, length_app; simpl; lia).
    rewrite (password_loop_mismatches mismatches _ w4 (entry :: entries)
               (false :: answers) Hall Hentries Hanswers) in Hr.
    change (password_loop (S (S (length entries))) ?w') with
      ((let* matched := password_set in
        if negb matched then
          let* again := workflow_confirm_blocking try_again in
          if negb again then return_ false
          else password_loop (S (length entries))
        else ret tt) w') in Hr.
    unfold bind at 1 in Hr.
    rewrite (password_set_mismatch _ entry entries) in Hr; [| reflexivity | exact Hentry].
    simpl negb in Hr. cbv iota in Hr.
    unfold bind at 1, workflow_confirm_blocking at 1, bind at 1, log at 1,
      await at 1 in Hr.
    simpl in Hr. rewrite Hr. simpl.
    repeat split; try assumption.
    subst before retries. rewrite mismatch_screens_succ, <- !app_assoc. reflexivity.
  - intros entered entries answers Hentries Hanswers.
    unfold bind in Hr.
    replace (S (length (password_entries (user w4))))
      with (retries + S (S (length entries))) in Hr
      by (subst w4 retries; simpl; rewrite Hentries, length_app; simpl; lia).
    rewrite (password_loop_mismatches mismatches _ w4 ((entered, entered) :: entries)
               answers Hall Hentries Hanswers) in Hr.
    change (password_loop (S (S (length entries))) ?w') with
      ((let* matched := password_set in
        if negb matched then
          let* again := workflow_confirm_blocking try_again in
          if negb again then return_ false
          else password_loop (S (length entries))
        else ret tt) w') in Hr.
    unfold bind at 1 in Hr.
    rewrite (password_set_match _ entered entries) in Hr;
      [| reflexivity | reflexivity | exact Hsize].
    change (negb true) with false in Hr. unfold ret at 1 in Hr. cbv beta iota in Hr.
    match type of Hr with context [persist_and_unlock _ _ ?w5] =>
      destruct (persist_and_unlock_begins request (length bytes) w5 _ _ eq_refl eq_refl)
        as (es & Htrace)
    end.
    eexists. exists es. rewrite Hr, returned_trace, Htrace. simpl.
    subst before retries. rewrite <- !app_assoc. reflexivity.
Qed.
(** * Further properties of [apps_btc_confirm_multisig] *)

Lemma check_snprintf_overflow (len size : nat) (msg : string) (w : world) :
  size <= len -> check_snprintf (Z.of_nat len) size msg w = (Abort msg, w).
Proof.
  intros Hlen. unfold check_snprintf.
  replace (Z.of_nat len >=? Z.of_nat size)%Z with true
    by (symmetry; apply Z.geb_le; lia).
  now rewrite orb_true_r.
Qed.

(** The function up to the loop over the cosigners, for any answers. *)
Lemma confirm_multisig_prologue (title : string) (coin : BTCCoin) (name : string)
    (multisig : BTCScriptConfig_Multisig XPub) (verify_xpubs : bool)
    (xpub_type : BTCRegisterScriptConfigRequest_XPubType) (w : world) :
  apps_btc_confirm_multisig title coin name multisig verify_xpubs xpub_type w =
  if decide (String.length (summary_text coin multisig) < 100) then
    match confirm_answers (user w) with
    | [] =>
        (Waiting,
         set_trace (fun t => t ++ [ui_confirm (summary_confirmation title coin multisig)]) w)
    | false :: rest =>
        (Next false,
         {| user := with_confirm_answers rest (user w);
            trace := trace w ++ [ui_confirm (summary_confirmation title coin multisig)];
            mem := mem w;
            dev := dev w |})
    | [true] => (Waiting, after_confirmations w title coin name multisig [] [])
    | true :: false :: rest =>
        (Next false, after_confirmations w title coin name multisig [] rest)
    | true :: true :: rest =>
        let w2 := after_confirmations w title coin name multisig [] rest in
        if verify_xpubs then
          match select_output_xpub_type xpub_type coin (script_type multisig) with
          | Next output =>
              call (for_loop (xpubs_count multisig) 0
                      (confirm_cosigner title multisig output (xpubs_count multisig)) ;;;
                    return_ true) w2
          | Return b => (Next b, w2)
          | Abort msg => (Abort msg, w2)
          | Waiting => (Waiting, w2)
          | Undefined => (Undefined, w2)
          end
        else (Next true, w2)
    end
  else (Abort "apps_btc_confirm_multisig/0", w).
Proof.
  unfold apps_btc_confirm_multisig, call.
  fold (summary_text coin multisig).
  destruct (decide (String.length (summary_text coin multisig) < 100)) as [Hfits | Hlong].
  - rewrite snprintf_fits by exact Hfits. cbv beta iota.
    unfold bind at 1. rewrite check_snprintf_fits by exact Hfits.
    unfold bind at 1. unfold workflow_confirm_blocking at 1.
    unfold bind at 1, log at 1, await at 1. simpl.
    destruct (confirm_answers (user w)) as [|[|] answers] eqn:Hanswers; simpl;
      [reflexivity | | reflexivity].
    unfold bind at 1. unfold workflow_confirm_blocking at 1.
    unfold bind at 1, log at 1, await at 1. simpl.
    unfold after_confirmations, summary_confirmation, name_confirmation.
    unfold set_user, set_trace. simpl. rewrite <- !app_assoc. simpl.
    destruct answers as [|[|] answers]; simpl; [reflexivity | | reflexivity].
    destruct verify_xpubs; simpl; [| reflexivity].
    unfold bind at 1, lift.
    destruct (select_output_xpub_type xpub_type coin (script_type multisig));
      reflexivity.
  - unfold snprintf. cbv beta iota. unfold bind at 1.
    rewrite check_snprintf_overflow by lia. reflexivity.
Qed.

(** ** What the confirmation leaves alone *)

Lemma confirms_only_same {A} (heading : string) (f : flow A) :
  confirms_only heading 0 (fun w => (f, w)).
Proof.
  intros w. simpl. repeat split. exists [], []. rewrite app_nil_r.
  repeat split; auto.
Qed.

Lemma confirms_only_bind {A B} (heading : string) (n1 n2 n : nat)
    (m : M A) (k : A -> M B) :
  n1 + n2 <= n ->
  confirms_only heading n1 m -> (forall a, confirms_only heading n2 (k a)) ->
  confirms_only heading n (bind m k).
Proof.
  intros Hn Hm Hk w. unfold bind.
  destruct (Hm w) as (Hmem & Hdev & Huser & es & used & Htr & Hes & Hlen & Hans & Hused).
  destruct (m w) as [[a|b|msg| |] w1]; simpl in *.
  2-5: repeat split; try assumption; exists es, used; repeat split; try assumption; lia.
  destruct (Hk a w1)
    as (Hmem2 & Hdev2 & Huser2 & es2 & used2 & Htr2 & Hes2 & Hlen2 & Hans2 & Hused2).
  repeat split; try congruence.
  exists (es ++ es2), (used ++ used2). repeat split.
  - rewrite Htr2, Htr, app_assoc. reflexivity.
  - apply Forall_app; auto.
  - rewrite length_app. lia.
  - rewrite Hans, Hans2, app_assoc. reflexivity.
  - rewrite !length_app. lia.
Qed.

Lemma confirms_only_weaken {A} (heading : string) (n n' : nat) (m : M A) :
  n <= n' -> confirms_only heading n m -> confirms_only heading n' m.
Proof.
  intros Hn Hm w.
  destruct (Hm w) as (Hmem & Hdev & Huser & es & used & Htr & Hes & Hlen & Hans & Hused).
  repeat split; try assumption. exists es, used. repeat split; try assumption. lia.
Qed.

Lemma confirms_only_leave {A} (heading : string) (n : nat) (f : flow A) :
  confirms_only heading n (fun w => (f, w)).
Proof. apply (confirms_only_weaken heading 0); [lia | apply confirms_only_same]. Qed.

Lemma confirms_only_call (heading : string) (n : nat) (body : M bool) :
  confirms_only heading n body -> confirms_only heading n (call body).
Proof.
  intros Hbody w. specialize (Hbody w). unfold call.
  destruct (body w) as [[] w1]; exact Hbody.
Qed.

Lemma confirms_only_for_loop (heading : string) (count start : nat)
    (body : nat -> M unit) :
  (forall i, confirms_only heading 1 (body i)) ->
  confirms_only heading count (for_loop count start body).
Proof.
  intros Hbody. revert start.
  induction count as [|count IH]; intros start; simpl.
  - apply (confirms_only_same heading (Next tt)).
  - apply (confirms_only_bind heading 1 count); [lia | apply Hbody | intros _; apply IH].
Qed.

Lemma confirms_only_workflow_confirm_blocking (heading : string)
    (params : confirm_params_t) :
  title params = heading -> accept_is_nextarrow params = true ->
  confirms_only heading 1 (workflow_confirm_blocking params).
Proof.
  intros Htitle Harrow w.
  unfold workflow_confirm_blocking, bind, log, await. simpl.
  destruct (confirm_answers (user w)) as [|answer rest] eqn:Hanswers; simpl.
  - repeat split. exists [ui_confirm params], []. try rewrite Hanswers.
    repeat split; simpl; auto. repeat constructor; assumption.
  - repeat split. exists [ui_confirm params], [answer]. try rewrite Hanswers.
    repeat split; simpl; auto. repeat constructor; assumption.
Qed.

Lemma confirms_only_check_snprintf (heading : string) (snprintf_result : Z)
    (size : nat) (msg : string) :
  confirms_only heading 0 (check_snprintf snprintf_result size msg).
Proof.
  unfold check_snprintf. destruct (_ || _).
  - apply (confirms_only_same heading (Abort msg)).
  - apply (confirms_only_same heading (Next tt)).
Qed.

Lemma confirms_only_confirm_cosigner (heading : string)
    (multisig : BTCScriptConfig_Multisig XPub) (output : BTCPubRequest_XPubType)
    (num_cosigners i : nat) :
  confirms_only heading 1 (confirm_cosigner heading multisig output num_cosigners i).
Proof.
  unfold confirm_cosigner.
  destruct (xpubs multisig !! i) as [xpub_in|];
    [| apply (confirms_only_leave heading _ (Undefined))].
  destruct (apps_common_bip32_xpub_from_protobuf xpub_in) as [xpub|];
    [| apply (confirms_only_leave heading _ (Return false))].
  destruct (btc_common_encode_xpub xpub output XPUB_ENCODED_LEN) as [xpub_str|];
    [| apply (confirms_only_leave heading _ (Return false))].
  apply (confirms_only_bind heading 0 1); [lia | | intros confirm].
  - destruct (N.of_nat i =? our_xpub_index multisig)%N; unfold snprintf; cbv beta iota;
      (apply (confirms_only_bind heading 0 0);
       [lia | apply confirms_only_check_snprintf
        | intros _; apply (confirms_only_same heading (Next _))]).
  - apply (confirms_only_bind heading 1 0);
      [lia | apply confirms_only_workflow_confirm_blocking; reflexivity |].
    intros accepted. destruct accepted; simpl.
    + apply (confirms_only_same heading (Next tt)).
    + apply (confirms_only_same heading (Return false)).
Qed.

Lemma confirms_only_confirm_multisig (title : string) (coin : BTCCoin) (name : string)
    (multisig : BTCScriptConfig_Multisig XPub) (verify_xpubs : bool)
    (xpub_type : BTCRegisterScriptConfigRequest_XPubType) :
  confirms_only title (2 + xpubs_count multisig)
    (apps_btc_confirm_multisig title coin name multisig verify_xpubs xpub_type).
Proof.
  unfold apps_btc_confirm_multisig. apply confirms_only_call.
  unfold snprintf. cbv beta iota.
  apply (confirms_only_bind title 0 (2 + xpubs_count multisig));
    [lia | apply confirms_only_check_snprintf | intros _].
  apply (confirms_only_bind title 1 (1 + xpubs_count multisig));
    [lia | apply confirms_only_workflow_confirm_blocking; reflexivity |].
  intros accepted. destruct accepted; simpl;
    [| apply (confirms_only_leave title _ (Return false))].
  apply (confirms_only_bind title 1 (xpubs_count multisig));
    [lia | apply confirms_only_workflow_confirm_blocking; reflexivity |].
  intros accepted. destruct accepted; simpl;
    [| apply (confirms_only_leave title _ (Return false))].
  destruct verify_xpubs; simpl;
    [| apply (confirms_only_leave title _ (Return true))].
  apply (confirms_only_bind title 0 (xpubs_count multisig));
    [lia | apply (confirms_only_same title) | intros output].
  apply (confirms_only_bind title (xpubs_count multisig) 0); [lia | |].
  - apply confirms_only_for_loop. intros i. apply confirms_only_confirm_cosigner.
  - intros _. apply (confirms_only_same title (Return true)).
Qed.

(** X1: whatever the arguments and whatever the user does, confirming a
    multisig account touches neither the secret buffers nor the device nor
    any outcome of the user but the answers to confirmations; everything
    it shows is a confirmation under the title it was given, with the next
    arrow as accept button, at most two of them and one per cosigner, and
    it takes no more answers than it shows confirmations. *)
Theorem confirm_multisig_only_confirms (title : string) (coin : BTCCoin)
    (name : string) (multisig : BTCScriptConfig_Multisig XPub) (verify_xpubs : bool)
    (xpub_type : BTCRegisterScriptConfigRequest_XPubType) (w : world) :
  let r := apps_btc_confirm_multisig title coin name multisig verify_xpubs xpub_type w in
  mem (snd r) = mem w /\
  dev (snd r) = dev w /\
  with_confirm_answers [] (user (snd r)) = with_confirm_answers [] (user w) /\
  exists es used,
    trace (snd r) = trace w ++ es /\
    Forall (confirmation_under title) es /\
    length es <= 2 + xpubs_count multisig /\
    confirm_answers (user w) = used ++ confirm_answers (user (snd r)) /\
    length used <= length es.
Proof.
  exact (confirms_only_confirm_multisig title coin name multisig verify_xpubs
           xpub_type w).
Qed.

(** ** Leaving before the cosigners *)

Lemma cosigner_loop_trace (title : string) (multisig : BTCScriptConfig_Multisig XPub)
    (output : BTCPubRequest_XPubType) (w : world) :
  exists es,
    trace (snd (call (for_loop (xpubs_count multisig) 0
                        (confirm_cosigner title multisig output (xpubs_count multisig)) ;;;
                      return_ true) w)) = trace w ++ es.
Proof.
  assert (Honly : confirms_only title (xpubs_count multisig)
            (call (for_loop (xpubs_count multisig) 0
                     (confirm_cosigner title multisig output (xpubs_count multisig)) ;;;
                   return_ true))).
  { apply confirms_only_call.
    apply (confirms_only_bind title (xpubs_count multisig) 0); [lia | |].
    - apply confirms_only_for_loop. intros i. apply confirms_only_confirm_cosigner.
    - intros _. apply (confirms_only_same title (Return true)). }
  destruct (Honly w) as (_ & _ & _ & es & _ & Htrace & _). now exists es.
Qed.

(** X2: the summary is checked against its 100-byte buffer before anything
    is shown: a text of 100 characters or more halts the firmware with
    nothing presented and no answer taken.  A coin name of at most 53
    characters, with a 32-bit threshold and cosigner count, always fits,
    and the summary is then the first thing shown. *)
Theorem confirm_multisig_summary_buffer (title : string) (coin : BTCCoin)
    (name : string) (multisig : BTCScriptConfig_Multisig XPub) (verify_xpubs : bool)
    (xpub_type : BTCRegisterScriptConfigRequest_XPubType) (w : world) :
  let r := apps_btc_confirm_multisig title coin name multisig verify_xpubs xpub_type w in
  (100 <= String.length (summary_text coin multisig) ->
   r = (Abort "apps_btc_confirm_multisig/0", w)) /\
  (String.length (btc_common_coin_name coin) <= 53 ->
   (threshold multisig < 2 ^ 32)%N ->
   (N.of_nat (xpubs_count multisig) < 2 ^ 32)%N ->
   String.length (summary_text coin multisig) < 100 /\
   exists es,
     trace (snd r) =
       trace w ++ ui_confirm (summary_confirmation title coin multisig) :: es).
Proof.
  intros r. subst r. split.
  - intros Hlong. rewrite confirm_multisig_prologue.
    destruct (decide _) as [Hfits | _]; [lia | reflexivity].
  - intros Hname Hthreshold Hcount.
    pose proof (decimal_length_32 _ Hthreshold) as Hd1.
    pose proof (decimal_length_32 _ Hcount) as Hd2.
    assert (Hfits : String.length (summary_text coin multisig) < 100).
    { unfold summary_text. rewrite !string_length_app.
      change (String.length nl) with 1. simpl String.length. lia. }
    split; [exact Hfits |].
    rewrite confirm_multisig_prologue.
    destruct (decide _) as [_ | Hlong]; [| lia].
    destruct (confirm_answers (user w)) as [|[|] [|[|] rest]]; simpl;
      try (eexists; reflexivity).
    destruct verify_xpubs; simpl; [| eexists; reflexivity].
    destruct (select_output_xpub_type _ _ _) as [output| | | |]; simpl;
      try (eexists; reflexivity).
    destruct (cosigner_loop_trace title multisig output
                (after_confirmations w title coin name multisig [] rest))
      as (es & Htrace).
    rewrite Htrace. simpl. eexists. rewrite <- app_assoc. reflexivity.
Qed.

(** X3: a declined summary ends the call with false after that one
    confirmation; an accepted summary followed by a declined name ends it
    with false after these two.  Neither the coin nor the requested family
    nor any key has been looked at by then, so no argument value makes the
    call halt instead. *)
Theorem confirm_multisig_declined (title : string) (coin : BTCCoin)
    (name : string) (multisig : BTCScriptConfig_Multisig XPub) (verify_xpubs : bool)
    (xpub_type : BTCRegisterScriptConfigRequest_XPubType) (w : world)
    (rest : list bool) :
  String.length (summary_text coin multisig) < 100 ->
  let r := apps_btc_confirm_multisig title coin name multisig verify_xpubs xpub_type w in
  (confirm_answers (user w) = false :: rest ->
   r = (Next false,
        {| user := with_confirm_answers rest (user w);
           trace := trace w ++ [ui_confirm (summary_confirmation title coin multisig)];
           mem := mem w;
           dev := dev w |})) /\
  (confirm_answers (user w) = true :: false :: rest ->
   r = (Next false,
        {| user := with_confirm_answers rest (user w);
           trace := trace w ++
             [ui_confirm (summary_confirmation title coin multisig);
              ui_confirm (name_confirmation title name)];
           mem := mem w;
           dev := dev w |})).
Proof.
  intros Hfits r. subst r. rewrite confirm_multisig_prologue.
  destruct (decide _) as [_ | Hlong]; [| lia].
  split; intros ->; [reflexivity |].
  unfold after_confirmations. simpl. rewrite ?app_nil_r. reflexivity.
Qed.

(** X4: without [verify_xpubs] the call returns true as soon as the summary
    and the name are accepted: no cosigner is shown, no key is decoded and
    the output encoding is not selected, so that even a coin or a family
    no enumerator names does not halt the firmware. *)
Theorem confirm_multisig_without_verification (title : string) (coin : BTCCoin)
    (name : string) (multisig : BTCScriptConfig_Multisig XPub)
    (xpub_type : BTCRegisterScriptConfigRequest_XPubType) (w : world)
    (rest : list bool) :
  String.length (summary_text coin multisig) < 100 ->
  confirm_answers (user w) = true :: true :: rest ->
  apps_btc_confirm_multisig title coin name multisig false xpub_type w =
    (Next true,
     {| user := with_confirm_answers rest (user w);
        trace := trace w ++
          [ui_confirm (summary_confirmation title coin multisig);
           ui_confirm (name_confirmation title name)];
        mem := mem w;
        dev := dev w |}).
Proof.
  intros Hfits Hanswers. rewrite confirm_multisig_prologue.
  destruct (decide _) as [_ | Hlong]; [| lia].
  rewrite Hanswers. simpl. unfold after_confirmations. simpl. rewrite ?app_nil_r. reflexivity.
Qed.

(** X5: with [verify_xpubs], the output encoding is selected only after the
    summary and the name have been accepted: a coin or family that makes
    the selection Abort halts the firmware at that point, and a script type
    the Electrum family does not cover makes the call return false there;
    in both cases the two confirmations have been shown and answered and
    no cosigner key has been shown. *)
Theorem confirm_multisig_selection_failure (title : string) (coin : BTCCoin)
    (name : string) (multisig : BTCScriptConfig_Multisig XPub)
    (xpub_type : BTCRegisterScriptConfigRequest_XPubType) (w : world)
    (rest : list bool) :
  String.length (summary_text coin multisig) < 100 ->
  confirm_answers (user w) = true :: true :: rest ->
  let r := apps_btc_confirm_multisig title coin name multisig true xpub_type w in
  let shown :=
    {| user := with_confirm_answers rest (user w);
       trace := trace w ++
         [ui_confirm (summary_confirmation title coin multisig);
          ui_confirm (name_confirmation title name)];
       mem := mem w;
       dev := dev w |} in
  (forall msg,
      select_output_xpub_type xpub_type coin (script_type multisig) = Abort msg ->
      r = (Abort msg, shown)) /\
  (select_output_xpub_type xpub_type coin (script_type multisig) = Return false ->
   r = (Next false, shown)) /\
  (~ recognized_coin coin \/ ~ recognized_family xpub_type ->
   exists msg, r = (Abort msg, shown)).
Proof.
  clear keystore_get_bip39_word keystore_bip39_mnemonic_to_seed indeterminate.
  intros Hfits Hanswers r shown. subst r.
  assert (Hshown : after_confirmations w title coin name multisig [] rest = shown).
  { unfold after_confirmations, shown. simpl. rewrite ?app_nil_r. reflexivity. }
  rewrite confirm_multisig_prologue.
  destruct (decide _) as [_ | Hlong]; [| lia].
  rewrite Hanswers. simpl. rewrite Hshown.
  split; [| split].
  - intros msg ->. reflexivity.
  - intros ->. reflexivity.
  - intros Hunknown.
    assert (Habort : exists msg,
      select_output_xpub_type xpub_type coin (script_type multisig) = Abort msg).
    { unfold recognized_coin, recognized_family in Hunknown.
      destruct xpub_type, coin; simpl; eauto; exfalso;
        destruct Hunknown as [Hcoin | Hfamily]; tauto. }
    destruct Habort as (msg & ->). now exists msg.
Qed.

(** ** Every way the loop over the cosigners can end *)

Section CosignerLoop.

Hypothesis btc_common_encode_xpub_fits :
  forall xpub output xpub_str,
    btc_common_encode_xpub xpub output XPUB_ENCODED_LEN = Some xpub_str ->
    String.length xpub_str < XPUB_ENCODED_LEN.

Variable title : string.
Variable multisig : BTCScriptConfig_Multisig XPub.

Hypothesis xpubs_count_32 : (N.of_nat (xpubs_count multisig) < 2 ^ 32)%N.

(** One iteration whose confirmation the user never answers. *)
Lemma confirm_cosigner_blocked (output : BTCPubRequest_XPubType) (i : nat)
    (xpub_str : string) (w : world) :
  cosigner_xpub_str multisig output i = Some xpub_str ->
  confirm_answers (user w) = [] ->
  confirm_cosigner title multisig output (xpubs_count multisig) i w =
    (Waiting,
     {| user := with_confirm_answers [] (user w);
        trace := trace w ++ [ui_confirm (cosigner_confirmation title multisig i xpub_str)];
        mem := mem w;
        dev := dev w |}).
Proof using Type btc_common_encode_xpub_fits xpubs_count_32.
  intros Hstr Hanswers.
  destruct (cosigner_xpub_str_Some _ _ _ _ Hstr) as (xpub_in & xpub & Hin & Hdec & Henc).
  assert (Hi : i < xpubs_count multisig) by (eapply lookup_lt_Some; exact Hin).
  pose proof (btc_common_encode_xpub_fits _ _ _ Henc) as Hfit.
  assert (Hd1 : String.length (decimal (N.of_nat (i + 1))) <= 10)
    by (apply decimal_length_32; lia).
  assert (Hd2 : String.length (decimal (N.of_nat (xpubs_count multisig))) <= 10)
    by (apply decimal_length_32; lia).
  unfold confirm_cosigner. rewrite Hin, Hdec, Henc.
  assert (Hlong : Nat.eqb i (xpubs_count multisig - 1)
                  = bool_decide (i + 1 = xpubs_count multisig)).
  { destruct (Nat.eqb_spec i (xpubs_count multisig - 1));
      [rewrite bool_decide_eq_true_2 | rewrite bool_decide_eq_false_2];
      (reflexivity || lia). }
  unfold cosigner_confirmation. rewrite <- Hlong.
  rewrite (with_confirm_answers_same (user w) []) by exact Hanswers.
  destruct (N.eqb_spec (N.of_nat i) (our_xpub_index multisig)) as [Hour | Hother];
    [rewrite bool_decide_eq_true_2 by exact Hour
    | rewrite bool_decide_eq_false_2 by exact Hother];
    (rewrite snprintf_fits
       by (rewrite !string_length_app; simpl String.length; lia));
    cbv beta iota; unfold bind;
    (rewrite check_snprintf_fits
       by (rewrite !string_length_app; simpl String.length; lia));
    unfold workflow_confirm_blocking, log, await, bind, ret, return_; simpl;
    rewrite Hanswers; reflexivity.
Qed.

(** The loop over [count] cosigners from [start] ends in one of four ways:
    every key was shown and accepted; a key failed to decode or to encode
    after the keys before it were accepted; a key was declined; or the
    user left a key unanswered.  [shown] are the keys presented. *)
Lemma cosigner_loop_cases (output : BTCPubRequest_XPubType) (count start : nat)
    (w : world) :
  start + count <= xpubs_count multisig ->
  exists shown remaining f,
    for_loop count start
      (confirm_cosigner title multisig output (xpubs_count multisig)) w =
      (f, loop_world title multisig w start shown remaining) /\
    (forall j xpub_str,
        shown !! j = Some xpub_str ->
        cosigner_xpub_str multisig output (start + j) = Some xpub_str) /\
    ((f = Next tt /\ length shown = count /\
      confirm_answers (user w) = replicate count true ++ remaining) \/
     (f = Return false /\ length shown < count /\
      cosigner_xpub_str multisig output (start + length shown) = None /\
      confirm_answers (user w) = replicate (length shown) true ++ remaining) \/
     (f = Return false /\ 0 < length shown <= count /\
      confirm_answers (user w) =
        replicate (length shown - 1) true ++ false :: remaining) \/
     (f = Waiting /\ 0 < length shown <= count /\
      confirm_answers (user w) = replicate (length shown - 1) true /\
      remaining = [])).
Proof using Type btc_common_encode_xpub_fits xpubs_count_32.
  induction count as [|count IH]; intros Hbound.
  - exists [], (confirm_answers (user w)), (Next tt). simpl. split; [| split].
    + unfold loop_world, ret. simpl. rewrite app_nil_r.
      rewrite with_confirm_answers_same by reflexivity. now destruct w.
    + intros j xpub_str Hj. discriminate Hj.
    + left. auto.
  - destruct IH as (shown & remaining & f & Hrun & Hstrs & Hcases); [lia |].
    replace (S count) with (count + 1) by lia.
    rewrite for_loop_app. unfold bind at 1. rewrite Hrun.
    destruct Hcases as [(-> & Hlen & Hanswers)
                       | [(-> & Hlen & Hnone & Hanswers)
                         | [(-> & Hlen & Hanswers) | (-> & Hlen & Hanswers & ->)]]].
    2:{ exists shown, remaining, (Return false).
        split; [reflexivity |]. split; [exact Hstrs |].
        right. left. repeat split; auto; lia. }
    2:{ exists shown, remaining, (Return false).
        split; [reflexivity |]. split; [exact Hstrs |].
        right. right. left. repeat split; auto; lia. }
    2:{ exists shown, [], Waiting.
        split; [reflexivity |]. split; [exact Hstrs |].
        right. right. right. repeat split; auto; lia. }
    simpl for_loop. unfold bind at 1.
    set (w1 := loop_world title multisig w start shown remaining).
    assert (Hw1 : confirm_answers (user w1) = remaining) by reflexivity.
    assert (Hsnoc : forall xpub_str rest,
      {| user := with_confirm_answers rest (user w1);
         trace := trace w1 ++
           [ui_confirm (cosigner_confirmation title multisig (start + count) xpub_str)];
         mem := mem w1;
         dev := dev w1 |} =
      loop_world title multisig w start (shown ++ [xpub_str]) rest).
    { intros xpub_str rest. unfold w1, loop_world. simpl.
      rewrite imap_app, <- app_assoc. simpl. now rewrite Nat.add_0_r, Hlen. }
    assert (Hstrs' : forall xpub_str,
      cosigner_xpub_str multisig output (start + count) = Some xpub_str ->
      forall j s, (shown ++ [xpub_str]) !! j = Some s ->
                  cosigner_xpub_str multisig output (start + j) = Some s).
    { intros xpub_str Hsome j s Hj.
      apply lookup_app_Some in Hj as [Hj | [Hge Hj]]; [now apply Hstrs |].
      rewrite Hlen in Hge, Hj.
      destruct (j - count) as [|k] eqn:Hk; [| discriminate Hj].
      injection Hj as <-. now replace j with count by lia. }
    destruct (cosigner_xpub_str multisig output (start + count)) as [xpub_str|] eqn:Hstr.
    + destruct remaining as [|answer rest].
      * rewrite (confirm_cosigner_blocked output _ xpub_str w1 Hstr Hw1).
        rewrite Hsnoc. exists (shown ++ [xpub_str]), [], Waiting.
        split; [reflexivity |]. split; [now apply Hstrs' |].
        right. right. right. rewrite length_app. simpl.
        replace (length shown + 1 - 1) with count by lia.
        rewrite Hanswers, app_nil_r. repeat split; auto; lia.
      * rewrite (confirm_cosigner_presented btc_common_encode_xpub_fits title multisig
                   output xpubs_count_32 _ xpub_str answer rest w1 Hstr Hw1).
        rewrite Hsnoc. destruct answer.
        -- exists (shown ++ [xpub_str]), rest, (Next tt).
           split; [reflexivity |]. split; [now apply Hstrs' |].
           left. rewrite length_app. simpl. split; [reflexivity |]. split; [lia |].
           rewrite Hanswers. replace (count + 1) with (S count) by lia.
           rewrite replicate_S_end, <- app_assoc. reflexivity.
        -- exists (shown ++ [xpub_str]), rest, (Return false).
           split; [reflexivity |]. split; [now apply Hstrs' |].
           right. right. left. rewrite length_app. simpl.
           replace (length shown + 1 - 1) with count by lia.
           repeat split; auto; lia.
    + rewrite (confirm_cosigner_failed title multisig output _ w1) by (lia || exact Hstr).
      exists shown, remaining, (Return false).
      split; [reflexivity |]. split; [exact Hstrs |].
      right. left. rewrite Hlen. repeat split; auto; lia.
Qed.

(** X6: with [verify_xpubs], the call returns true only after the whole
    sequence: the output encoding was selected, every cosigner key was
    decoded and encoded, and the user accepted the summary, the name and
    the confirmation of each of the keys, which were shown in order.  No
    key is left out and none is accepted on the user's behalf. *)
Theorem confirm_multisig_true_after_every_key (coin : BTCCoin) (name : string)
    (xpub_type : BTCRegisterScriptConfigRequest_XPubType) (w w' : world) :
  apps_btc_confirm_multisig title coin name multisig true xpub_type w = (Next true, w') ->
  exists output xpub_strs rest,
    select_output_xpub_type xpub_type coin (script_type multisig) = Next output /\
    length xpub_strs = xpubs_count multisig /\
    (forall i xpub_str,
        xpub_strs !! i = Some xpub_str ->
        cosigner_xpub_str multisig output i = Some xpub_str) /\
    confirm_answers (user w) =
      true :: true :: replicate (xpubs_count multisig) true ++ rest /\
    w' = after_confirmations w title coin name multisig xpub_strs rest.
Proof using Type btc_common_encode_xpub_fits xpubs_count_32.
  intros Hrun. rewrite confirm_multisig_prologue in Hrun.
  destruct (decide _) as [_ | _]; [| discriminate Hrun].
  destruct (confirm_answers (user w)) as [|[|] [|[|] answers]] eqn:Hanswers;
    try discriminate Hrun.
  simpl in Hrun.
  destruct (select_output_xpub_type xpub_type coin (script_type multisig))
    as [output|b|msg| |] eqn:Hselect; try discriminate Hrun.
  2:{ exfalso. destruct xpub_type, coin, (script_type multisig);
        simpl in Hselect; try discriminate Hselect;
        injection Hselect as <-; discriminate Hrun. }
  set (w2 := after_confirmations w title coin name multisig [] answers) in Hrun.
  destruct (cosigner_loop_cases output (xpubs_count multisig) 0 w2)
    as (shown & remaining & f & Hloop & Hstrs & Hcases); [lia |].
  unfold call, bind in Hrun. rewrite Hloop in Hrun.
  destruct Hcases as [(-> & Hlen & Hrest)
                     | [(-> & _) | [(-> & _) | (-> & _)]]];
    try discriminate Hrun.
  injection Hrun as <-.
  exists output, shown, remaining. repeat split; auto.
  - change (confirm_answers (user w2)) with answers in Hrest. now rewrite Hrest.
  - unfold w2. now rewrite after_confirmations_loop_world.
Qed.

(** X7: for a recognized coin and family and a summary that fits, the call
    never halts the firmware: it returns true or false, or it blocks on a
    confirmation the user leaves unanswered, which can only happen when
    fewer than two answers and one per cosigner are given. *)
Theorem confirm_multisig_returns (coin : BTCCoin) (name : string)
    (verify_xpubs : bool) (xpub_type : BTCRegisterScriptConfigRequest_XPubType)
    (w : world) :
  String.length (summary_text coin multisig) < 100 ->
  recognized_coin coin -> recognized_family xpub_type ->
  let r := apps_btc_confirm_multisig title coin name multisig verify_xpubs xpub_type w in
  (exists b, fst r = Next b) \/
  (fst r = Waiting /\
   confirm_answers (user (snd r)) = [] /\
   length (confirm_answers (user w)) < 2 + xpubs_count multisig).
Proof using Type btc_common_encode_xpub_fits xpubs_count_32.
  clear keystore_get_bip39_word keystore_bip39_mnemonic_to_seed indeterminate.
  intros Hfits Hcoin Hfamily r. subst r. rewrite confirm_multisig_prologue.
  destruct (decide _) as [_ | Hlong]; [| lia].
  destruct (confirm_answers (user w)) as [|[|] [|[|] answers]] eqn:Hanswers; simpl;
    try (left; eexists; reflexivity);
    try (right; repeat split; simpl; first [assumption | reflexivity | lia]).
  destruct verify_xpubs; [| left; eexists; reflexivity].
  destruct (select_output_xpub_type xpub_type coin (script_type multisig))
    as [output|b|msg| |] eqn:Hselect; try (left; eexists; reflexivity).
  2,3,4: exfalso; unfold recognized_coin, recognized_family in *;
    destruct xpub_type, coin, (script_type multisig);
    simpl in Hselect; try discriminate Hselect; intuition discriminate.
  set (w2 := after_confirmations w title coin name multisig [] answers).
  destruct (cosigner_loop_cases output (xpubs_count multisig) 0 w2)
    as (shown & remaining & f & Hloop & Hstrs & Hcases); [lia |].
  unfold call, bind. rewrite Hloop.
  destruct Hcases as [(-> & _)
                     | [(-> & _) | [(-> & _) | (-> & Hlen & Hrest & ->)]]];
    try (left; eexists; reflexivity).
  right. split; [reflexivity |]. split; [reflexivity |].
  change (confirm_answers (user w2)) with answers in Hrest.
  rewrite Hrest. simpl. rewrite length_replicate. lia.
Qed.

End CosignerLoop.

(** * Further properties of [_get_mnemonic] *)

Lemma wordlist_unavailable (i : nat) :
  i < BIP39_WORDLIST_LEN -> keystore_get_bip39_word i = None ->
  wordlist_available = false.
Proof.
  intros Hi Hnone. unfold wordlist_available.
  destruct (forallb _ _) eqn:Hall; [exfalso | reflexivity].
  rewrite forallb_forall in Hall.
  specialize (Hall i). rewrite Hnone in Hall.
  assert (Hin : In i (seq 0 BIP39_WORDLIST_LEN)) by (apply in_seq; lia).
  specialize (Hall Hin). apply bool_decide_eq_true in Hall.
  destruct Hall as [word Hword]. discriminate Hword.
Qed.

Lemma get_mnemonic_unavailable (w : world) :
  wordlist_available = false -> _get_mnemonic w = (Next false, w).
Proof.
  intros Hunavailable. unfold _get_mnemonic, call. unfold bind at 1.
  now rewrite fetch_wordlist_eq, Hunavailable.
Qed.

(** X8: when the keystore fails to deliver any one of the 2048 words,
    [_get_mnemonic] returns false before anything is shown and before any
    outcome of the user is taken, and the recovery returns false with the
    device and the user's outcomes untouched and the mnemonic zeroed. *)
Theorem get_mnemonic_without_wordlist (request : RestoreFromMnemonicRequest)
    (w : world) (i : nat) :
  i < BIP39_WORDLIST_LEN -> keystore_get_bip39_word i = None ->
  _get_mnemonic w = (Next false, w) /\
  workflow_restore_from_mnemonic request w =
    (Next false, set_mem (with_mnemonic (Some (zeroed mnemonic_size))) w).
Proof.
  intros Hi Hnone.
  pose proof (wordlist_unavailable i Hi Hnone) as Hunavailable.
  split; [now apply get_mnemonic_unavailable |].
  unfold workflow_restore_from_mnemonic, call.
  unfold bind at 1, put_mem at 1. unfold cleanup_scope at 1. unfold bind at 1.
  rewrite get_mnemonic_unavailable by exact Hunavailable. simpl.
  unfold set_mem, cleanup_mnemonic, with_mnemonic. simpl.
  unfold util_cleanup_str, zeroed. rewrite length_replicate. reflexivity.
Qed.

Lemma get_mnemonic_choice_cases (w : world) :
  wordlist_available = true ->
  let shown :=
    set_trace (fun t => t ++ [ui_trinary_choice "How many words?" "12" "18" "24"]) w in
  (number_of_words_picks (user w) = [] -> _get_mnemonic w = (Waiting, shown)) /\
  (forall raw picks,
      number_of_words_picks (user w) = TRINARY_CHOICE_unrecognized raw :: picks ->
      _get_mnemonic w =
        (Abort "restore_from_mnemonic: unreachable",
         set_user (with_number_of_words_picks picks) shown)).
Proof.
  intros Havailable shown.
  split.
  - intros Hpicks. unfold _get_mnemonic, call.
    unfold bind at 1. rewrite fetch_wordlist_eq, Havailable.
    unfold bind at 1. unfold _pick_number_of_words.
    unfold bind at 1, log at 1, bind at 1, await at 1. cbn [fst snd].
    unfold set_trace at 1. cbn [user]. rewrite Hpicks. reflexivity.
  - intros raw picks Hpicks. unfold _get_mnemonic, call.
    unfold bind at 1. rewrite fetch_wordlist_eq, Havailable.
    unfold bind at 1. unfold _pick_number_of_words.
    unfold bind at 1, log at 1, bind at 1, await at 1. cbn [fst snd].
    unfold set_trace at 1. cbn [user]. rewrite Hpicks. reflexivity.
Qed.

(** X9: the word count is asked first.  While the user picks none the call
    blocks on that screen; a choice that is none of the three halts the
    firmware after the screen, before any word is asked for. *)
Theorem get_mnemonic_choice_edges (w : world) :
  wordlist_available = true ->
  let shown :=
    set_trace (fun t => t ++ [ui_trinary_choice "How many words?" "12" "18" "24"]) w in
  (number_of_words_picks (user w) = [] -> _get_mnemonic w = (Waiting, shown)) /\
  (forall raw picks,
      number_of_words_picks (user w) = TRINARY_CHOICE_unrecognized raw :: picks ->
      _get_mnemonic w =
        (Abort "restore_from_mnemonic: unreachable",
         set_user (with_number_of_words_picks picks) shown)).
Proof. exact (get_mnemonic_choice_cases w). Qed.

(** X10: a Cancel at any point of the entry, whatever was entered or
    deleted before it, makes [_get_mnemonic] return false: nothing has
    been written to [mnemonic_out], the device is untouched, and the
    outcomes the user produces after the Cancel are not taken. *)
Theorem get_mnemonic_cancelled (w : world) (choice : trinary_choice_t)
    (picks : list trinary_choice_t) (word_count : nat)
    (pre post : list workflow_trinary_input_result_t) (st : entry_state) :
  wordlist_available = true ->
  number_of_words_picks (user w) = choice :: picks ->
  WordCount choice = Some word_count ->
  MnemonicAssembler_run word_count initial_entry_state pre = AwaitingEntry st ->
  word_entries (user w) = pre ++ WORKFLOW_TRINARY_INPUT_RESULT_CANCEL :: post ->
  let r := _get_mnemonic w in
  fst r = Next false /\
  mem (snd r) = mem w /\
  dev (snd r) = dev w /\
  word_entries (user (snd r)) = post /\
  number_of_words_picks (user (snd r)) = picks /\
  password_entries (user (snd r)) = password_entries (user w) /\
  confirm_answers (user (snd r)) = confirm_answers (user w).
Proof.
  intros Havailable Hpicks Hcount Hpre Hentries r. subst r.
  rewrite (get_mnemonic_eq w choice picks word_count Havailable Hpicks Hcount).
  cbv zeta. rewrite Hentries.
  destruct (MnemonicAssembler_run_awaiting word_count pre
              (WORKFLOW_TRINARY_INPUT_RESULT_CANCEL :: post) _ _ Hpre) as [Hidx Hrun].
  assert (Hcancel :
    MnemonicAssembler_run word_count initial_entry_state
      (pre ++ WORKFLOW_TRINARY_INPUT_RESULT_CANCEL :: post) = Cancelled post).
  { rewrite Hrun. simpl.
    destruct (Nat.ltb_spec (word_idx st) word_count); [reflexivity | lia]. }
  unfold after_entries. rewrite Hcancel. simpl. repeat split.
Qed.

(** ** The bound on what is copied to [mnemonic_out] *)

Lemma MnemonicAssembler_run_c_strings (word_count : nat)
    (outcomes : list workflow_trinary_input_result_t) :
  forall (st st' : entry_state) remaining,
    Forall c_string_entry outcomes ->
    Forall (fun word => NUL ∉ list_ascii_of_string word) (words st) ->
    MnemonicAssembler_run word_count st outcomes = Complete st' remaining ->
    Forall (fun word => NUL ∉ list_ascii_of_string word) (words st').
Proof.
  induction outcomes as [|outcome outcomes IH]; intros st st' remaining Hentries Hwords;
    simpl; destruct (word_idx st <? word_count).
  - discriminate.
  - now intros [= <- _].
  - apply Forall_cons in Hentries as [Hentry Hentries].
    destruct outcome as [entered| |]; simpl; [| discriminate |].
    + apply IH; [exact Hentries |]. simpl. now apply Forall_insert.
    + apply IH; [exact Hentries | exact Hwords].
  - now intros [= <- _].
Qed.

(** A complete entry of C strings: the words are copied, each cut to the
    maximal word length, and joined in the buffer. *)
Lemma get_mnemonic_copies (w : world) (choice : trinary_choice_t)
    (picks : list trinary_choice_t) (word_count : nat) (st : entry_state)
    (remaining : list workflow_trinary_input_result_t) :
  wordlist_available = true ->
  number_of_words_picks (user w) = choice :: picks ->
  WordCount choice = Some word_count ->
  Forall c_string_entry (word_entries (user w)) ->
  MnemonicAssembler_run word_count initial_entry_state (word_entries (user w))
    = Complete st remaining ->
  mnemonic (mem w) = Some (zeroed mnemonic_size) ->
  let copied :=
    substring 0 WORKFLOW_TRINARY_INPUT_MAX_WORD_LENGTH <$> take word_count (words st) in
  let joined := String.concat " " copied in
  _get_mnemonic w =
    (Next true,
     set_mem (with_mnemonic (Some (cstring_in mnemonic_size joined)))
       (after_entries (after_pick w picks word_count) word_count
          initial_entry_state (word_entries (user w)))) /\
  Forall (fun word => String.length word <= WORKFLOW_TRINARY_INPUT_MAX_WORD_LENGTH)
    copied /\
  String.length joined < mnemonic_size /\
  c_str (cstring_in mnemonic_size joined) = joined /\
  length (cstring_in mnemonic_size joined) = mnemonic_size.
Proof.
  intros Havailable Hpicks Hcount Hentries Hrun Hbuf copied joined.
  assert (Hrange := WordCount_range _ _ Hcount).
  assert (Hmax : word_count <= WORKFLOW_RESTORE_FROM_MNEMONIC_MAX_WORDS)
    by (unfold WORKFLOW_RESTORE_FROM_MNEMONIC_MAX_WORDS; lia).
  destruct (initial_entry_state_invariant word_count Hmax) as [Hinv0 [Hfree0 _]].
  destruct (MnemonicAssembler_run_complete _ _ _ _ _ Hinv0 Hrun)
    as ((Hslots & _ & _) & Hidx & _).
  pose proof (MnemonicAssembler_run_c_strings _ _ _ _ _ Hentries Hfree0 Hrun) as Hfree.
  assert (Hcut : Forall
    (fun word => String.length word <= WORKFLOW_TRINARY_INPUT_MAX_WORD_LENGTH) copied)
    by apply truncated_words.
  assert (Hlength : length copied = word_count)
    by (subst copied; rewrite length_fmap, length_take; lia).
  assert (Hne : copied <> [])
    by (intros Hnil; rewrite Hnil in Hlength; simpl in Hlength; lia).
  assert (Hjoined : String.length joined + 1 <= mnemonic_size).
  { etransitivity.
    - apply (concat_length_bound WORKFLOW_TRINARY_INPUT_MAX_WORD_LENGTH);
        [exact Hcut | exact Hne].
    - unfold mnemonic_size. apply Nat.mul_le_mono_l. lia. }
  assert (Hjoined_free : NUL ∉ list_ascii_of_string joined).
  { apply concat_nul_free. apply truncated_nul_free. now apply Forall_take. }
  split.
  { rewrite (get_mnemonic_eq w choice picks word_count Havailable Hpicks Hcount).
    cbv zeta. rewrite Hrun. unfold call, bind.
    rewrite assemble_mnemonic_prefix;
      [| lia | exact Hmax | exact Hfree | exact Hbuf].
    rewrite <- fmap_take. reflexivity. }
  split; [exact Hcut |].
  split; [lia |].
  split; [now apply c_str_cstring |].
  apply length_cstring_in. lia.
Qed.


(** X12: given the zero-initialised [mnemonic] array and C strings as
    words, [_get_mnemonic] makes no access outside an array, whatever the
    user does, and it writes to [mnemonic_out] only when it returns true:
    when it returns false, blocks or halts, the buffers are as they were.
    The device is never touched. *)
Theorem get_mnemonic_writes_on_success_only (w : world) :
  Forall c_string_entry (word_entries (user w)) ->
  mnemonic (mem w) = Some (zeroed mnemonic_size) ->
  let r := _get_mnemonic w in
  fst r <> Undefined /\
  (fst r <> Next true -> mem (snd r) = mem w) /\
  dev (snd r) = dev w.
Proof.
  intros Hentries Hbuf r. subst r.
  split; [| split]; [| | apply early_get_mnemonic];
    (destruct wordlist_available eqn:Havailable;
     [| rewrite get_mnemonic_unavailable by exact Havailable; simpl;
        solve [discriminate | reflexivity]]);
    destruct (get_mnemonic_choice_cases w Havailable) as [Hnone Hunknown];
    (destruct (number_of_words_picks (user w)) as [|choice picks] eqn:Hpicks;
     [rewrite (Hnone eq_refl); simpl; solve [discriminate | reflexivity] |]);
    (destruct (WordCount choice) as [word_count|] eqn:Hcount;
     [| destruct choice; try discriminate Hcount;
        rewrite (Hunknown _ _ eq_refl); simpl; solve [discriminate | reflexivity]]);
    (destruct (MnemonicAssembler_run word_count initial_entry_state
                 (word_entries (user w))) as [st remaining|remaining|st] eqn:Hrun;
     [destruct (get_mnemonic_copies w choice picks word_count st remaining
                  Havailable Hpicks Hcount Hentries Hrun Hbuf) as [-> _]
     | rewrite (get_mnemonic_eq w choice picks word_count Havailable Hpicks Hcount);
       cbv zeta; rewrite Hrun
     | rewrite (get_mnemonic_eq w choice picks word_count Havailable Hpicks Hcount);
       cbv zeta; rewrite Hrun]);
    simpl; try discriminate; try reflexivity.
  intros Hne. now contradiction Hne.
Qed.

(** * The cleanup of the word list *)

Lemma cleanup_wordlist_from_run {P : Type} (count : nat) :
  forall (i : nat) (wordlist : list (option P)) (freed : list P),
    i + count <= length wordlist ->
    cleanup_wordlist_from count i wordlist freed =
      Some (take i wordlist ++ replicate count None ++ drop (i + count) wordlist,
            freed ++ omap id (take count (drop i wordlist))).
Proof.
  induction count as [|count IH]; intros i wordlist freed Hbound; simpl.
  - rewrite Nat.add_0_r, take_drop, app_nil_r. reflexivity.
  - destruct (lookup_lt_is_Some_2 wordlist i) as [entry Hentry]; [lia |].
    rewrite Hentry.
    rewrite (drop_S _ _ _ Hentry). simpl.
    destruct entry as [word|]; simpl.
    + rewrite IH by (rewrite length_insert; lia).
      rewrite (take_S_r (<[i:=None]> wordlist) i None)
        by (apply list_lookup_insert_eq; lia).
      rewrite take_insert_ge by lia.
      rewrite !drop_insert_lt by lia.
      rewrite <- !app_assoc. simpl. rewrite ?Nat.add_succ_r. reflexivity.
    + rewrite IH by lia.
      rewrite (take_S_r _ _ _ Hentry), <- app_assoc. simpl.
      rewrite ?Nat.add_succ_r. reflexivity.
Qed.

Lemma cleanup_wordlist_from_short {P : Type} (count : nat) :
  forall (i : nat) (wordlist : list (option P)) (freed : list P),
    i <= length wordlist < i + count ->
    cleanup_wordlist_from count i wordlist freed = None.
Proof.
  induction count as [|count IH]; intros i wordlist freed Hbound; simpl; [lia |].
  destruct (wordlist !! i) as [entry|] eqn:Hentry; [| reflexivity].
  apply lookup_lt_Some in Hentry.
  destruct entry as [word|]; apply IH; rewrite ?length_insert; lia.
Qed.

(** X13: on an array of [BIP39_WORDLIST_LEN] entries, [_cleanup_wordlist]
    passes to [free] exactly the entries that are not NULL, each once and
    in index order, and leaves every entry NULL, so that running it again
    frees nothing; NULL entries, as a failed fetch leaves them, are
    skipped.  On a shorter array it reads past the end. *)
Theorem cleanup_wordlist_frees_each_word_once {P : Type} (wordlist : list (option P)) :
  (length wordlist = BIP39_WORDLIST_LEN ->
   _cleanup_wordlist wordlist =
     Some (replicate BIP39_WORDLIST_LEN None, omap id wordlist) /\
   _cleanup_wordlist (replicate BIP39_WORDLIST_LEN (@None P)) =
     Some (replicate BIP39_WORDLIST_LEN None, [])) /\
  (length wordlist < BIP39_WORDLIST_LEN -> _cleanup_wordlist wordlist = None).
Proof.
  split.
  - intros Hlen. unfold _cleanup_wordlist. split.
    + rewrite cleanup_wordlist_from_run by (rewrite Hlen; lia).
      rewrite Nat.add_0_l, drop_0.
      rewrite (drop_ge wordlist BIP39_WORDLIST_LEN),
        (take_ge wordlist BIP39_WORDLIST_LEN) by lia.
      rewrite app_nil_r. reflexivity.
    + rewrite cleanup_wordlist_from_run by (rewrite length_replicate; lia).
      rewrite Nat.add_0_l, drop_0.
      rewrite (drop_ge _ BIP39_WORDLIST_LEN), (take_ge _ BIP39_WORDLIST_LEN)
        by (rewrite length_replicate; lia).
      assert (Hnone : forall n, omap id (replicate n (@None P)) = [])
        by (intros n; induction n as [|n IHn]; simpl; auto).
      rewrite app_nil_r, Hnone. reflexivity.
  - intros Hlen. apply cleanup_wordlist_from_short. lia.
Qed.

(** * Further properties of [workflow_restore_from_mnemonic] *)

(** ** The steps from storing the seed on, lines 180-203 *)

Lemma persist_and_unlock_failures (request : RestoreFromMnemonicRequest)
    (seed_len : nat) (w5 : world) :
  let r5 := persist_and_unlock request seed_len w5 in
  exists es,
    trace (snd r5) = trace w5 ++ es /\
    (call_keystore_encrypt_and_store_seed false ∈ es ->
     fst r5 = Return false /\ dev (snd r5) = dev w5 /\
     es = [call_keystore_encrypt_and_store_seed false;
           ui_status ("Could not" +:+ nl +:+ "restore backup") false]) /\
    (call_keystore_encrypt_and_store_seed true ∉ es -> dev (snd r5) = dev w5) /\
    (call_memory_set_initialized false ∈ es ->
     fst r5 = Return false /\
     call_keystore_encrypt_and_store_seed true ∈ es /\
     is_Some (stored_seed (dev (snd r5))) /\
     initialized (dev (snd r5)) = initialized (dev w5) /\
     (forall res, call_keystore_unlock res ∉ es) /\
     ui_unlock_bip39 ∉ es).
Proof.
  clear keystore_get_bip39_word indeterminate.
  intros r5. subst r5. unfold persist_and_unlock.
  unfold read_seed, read_str, keystore_encrypt_and_store_seed,
    workflow_confirm_time, securechip_u2f_counter_set, memory_set_initialized,
    keystore_unlock, workflow_unlock_bip39_blocking, workflow_status_blocking,
    bind, log, await, ret, return_, abort.
  run_cases; cbn.
  all: eexists; (split; [rewrite <- ?app_assoc; try reflexivity; symmetry; apply app_nil_r |]).
  all: repeat split; try (eexists; reflexivity); set_solver.
Qed.

Lemma persist_and_unlock_success (request : RestoreFromMnemonicRequest)
    (seed_len : nat) (w5 : world) :
  let r5 := persist_and_unlock request seed_len w5 in
  exists es,
    trace (snd r5) = trace w5 ++ es /\
    (call_keystore_unlock KEYSTORE_OK ∈ es -> fst r5 = Return true) /\
    (fst r5 = Return true ->
     call_keystore_unlock KEYSTORE_OK ∈ es /\
     call_keystore_encrypt_and_store_seed true ∈ es /\
     call_memory_set_initialized true ∈ es /\
     initialized (dev (snd r5)) = true /\
     is_Some (stored_seed (dev (snd r5))) /\
     last es = Some ui_unlock_bip39) /\
    (forall b, fst r5 <> Next b).
Proof.
  clear keystore_get_bip39_word indeterminate.
  intros r5. subst r5. unfold persist_and_unlock.
  unfold read_seed, read_str, keystore_encrypt_and_store_seed,
    workflow_confirm_time, securechip_u2f_counter_set, memory_set_initialized,
    keystore_unlock, workflow_unlock_bip39_blocking, workflow_status_blocking,
    bind, log, await, ret, return_, abort.
  run_cases; cbn.
  all: eexists; (split; [rewrite <- ?app_assoc; try reflexivity; symmetry; apply app_nil_r |]).
  all: repeat split; try (eexists; reflexivity); set_solver.
Qed.

Lemma persist_and_unlock_u2f (request : RestoreFromMnemonicRequest)
    (seed_len : nat) (w5 : world) :
  let r5 := persist_and_unlock request seed_len w5 in
  exists es,
    trace (snd r5) = trace w5 ++ es /\
    (APP_U2F <> 1%Z ->
     (forall ts tz, ui_confirm_time ts tz ∉ es) /\
     (forall counter ok, call_securechip_u2f_counter_set counter ok ∉ es) /\
     u2f_counter (dev (snd r5)) = u2f_counter (dev w5) /\
     confirm_time_answers (user (snd r5)) = confirm_time_answers (user w5)) /\
    (forall ts tz, ui_confirm_time ts tz ∈ es ->
       ts = timestamp request /\ tz = timezone_offset request /\
       call_keystore_encrypt_and_store_seed true ∈ es) /\
    (forall counter ok,
        call_securechip_u2f_counter_set counter ok ∈ es ->
        counter = timestamp request /\
        ui_confirm_time (timestamp request) (timezone_offset request) ∈ es /\
        head (confirm_time_answers (user w5)) = Some true /\
        u2f_counter (dev (snd r5)) =
          (if ok then Some (timestamp request) else u2f_counter (dev w5)) /\
        exists marked, call_memory_set_initialized marked ∈ es).
Proof.
  clear keystore_get_bip39_word indeterminate.
  intros r5. subst r5. unfold persist_and_unlock.
  destruct (Z.eqb_spec APP_U2F 1) as [Hu2f | Hu2f]; cbv iota.
  all: unfold read_seed, read_str, keystore_encrypt_and_store_seed,
    workflow_confirm_time, securechip_u2f_counter_set, memory_set_initialized,
    keystore_unlock, workflow_unlock_bip39_blocking, workflow_status_blocking,
    bind, log, await, ret, return_, abort.
  all: run_cases; cbn.
  all: eexists; (split; [rewrite <- ?app_assoc; try reflexivity; symmetry; apply app_nil_r |]).
  all: repeat split; try (eexists; reflexivity); try set_solver.
  all: repeat match goal with
         | H : negb ?b = _ |- _ => destruct b; simpl in H; try discriminate H; clear H
         end; reflexivity.
Qed.

(** ** Failures after the words were entered *)

(** X14: words the keystore does not accept as a mnemonic end the recovery
    with false after the status "Recovery words invalid": no password is
    asked for, nothing is stored, and the mnemonic and the seed array are
    zeroed on the way out. *)
Theorem restore_invalid_mnemonic (request : RestoreFromMnemonicRequest)
    (w w2 : world) (buf : buffer) :
  _get_mnemonic (set_mem (with_mnemonic (Some (zeroed mnemonic_size))) w) = (Next true, w2) ->
  mnemonic (mem w2) = Some buf ->
  keystore_bip39_mnemonic_to_seed (c_str buf) = None ->
  workflow_restore_from_mnemonic request w =
    (Next false,
     {| user := user w2;
        trace := trace w2 ++
          [call_keystore_bip39_mnemonic_to_seed (c_str buf) false;
           ui_status ("Recovery words" +:+ nl +:+ "invalid") false];
        mem := {| mnemonic := Some (zeroed (length buf));
                  seed := Some (replicate 32 Byte.x00);
                  password := password (mem w2) |};
        dev := dev w |}).
Proof.
  intros Hget Hbuf Hderive.
  destruct (early_get_mnemonic (set_mem (with_mnemonic (Some (zeroed mnemonic_size))) w))
    as (Hdev & _).
  rewrite Hget in Hdev. simpl in Hdev.
  unfold workflow_restore_from_mnemonic, call.
  unfold bind at 1, put_mem at 1. unfold cleanup_scope at 1. unfold bind at 1.
  fold mnemonic_size. rewrite Hget. simpl.
  unfold bind at 1, put_mem at 1. unfold cleanup_scope at 1.
  unfold bind at 1, read_str at 1. simpl. rewrite Hbuf.
  unfold bind at 1, mnemonic_to_seed at 1. simpl. rewrite Hderive.
  unfold bind at 1, workflow_status_blocking at 1, log at 1. simpl.
  unfold set_mem, set_trace, cleanup_mnemonic, cleanup_seed, with_mnemonic, with_seed.
  simpl. rewrite Hbuf, Hdev. simpl. rewrite <- app_assoc. simpl.
  unfold util_cleanup_str. reflexivity.
Qed.

(** X15: whenever storing the seed fails, the recovery returns false with
    the device as it was: the status "Could not restore backup" is the last
    thing shown and the device is never marked initialized.  Whatever the
    run, the device is changed only once the seed has been stored. *)
Theorem restore_store_failure (request : RestoreFromMnemonicRequest) (w : world) :
  let r := workflow_restore_from_mnemonic request w in
  exists es,
    trace (snd r) = trace w ++ es /\
    (call_keystore_encrypt_and_store_seed false ∈ es ->
     fst r = Next false /\
     dev (snd r) = dev w /\
     last es = Some (ui_status ("Could not" +:+ nl +:+ "restore backup") false) /\
     forall marked, call_memory_set_initialized marked ∉ es) /\
    (call_keystore_encrypt_and_store_seed true ∉ es -> dev (snd r) = dev w).
Proof.
  intros r.
  destruct (workflow_stages request w)
    as [(es & Htr & Hes & Hdev & _) | (w5 & len & es0 & Htr0 & Hes0 & Hdev0 & _ & Hr)];
    fold r in Htr, Hdev || fold r in Hr.
  - exists es. split; [exact Htr |]. split.
    + intros Hin. destruct (early_event_in _ _ Hes Hin).
    + intros _. exact Hdev.
  - destruct (persist_and_unlock_failures request len w5) as (es5 & Htr5 & Hfail & Hkept & _).
    exists (es0 ++ es5). split; [| split].
    + rewrite Hr, returned_trace, Htr5, Htr0. now rewrite app_assoc.
    + intros Hin. apply late_event_in in Hin; [| exact Hes0 | intros []].
      destruct (Hfail Hin) as (Hflow & Hdev & ->).
      rewrite Hr, returned_fst, returned_dev, Hflow, Hdev, Hdev0.
      split; [reflexivity |]. split; [reflexivity |].
      split; [now rewrite last_app |].
      intros marked Hmarked. apply late_event_in in Hmarked; [| exact Hes0 | intros []].
      set_solver.
    + intros Hnot. rewrite Hr, returned_dev, Hkept, Hdev0; [reflexivity |].
      intros Hin. apply Hnot. apply elem_of_app. now right.
Qed.

(** X16: whenever marking the device initialized fails, the recovery
    returns false although the seed has been stored: the seed stays
    stored, the device is not marked, and the keystore is not unlocked. *)
Theorem restore_mark_initialized_failure (request : RestoreFromMnemonicRequest)
    (w : world) :
  let r := workflow_restore_from_mnemonic request w in
  exists es,
    trace (snd r) = trace w ++ es /\
    (call_memory_set_initialized false ∈ es ->
     fst r = Next false /\
     call_keystore_encrypt_and_store_seed true ∈ es /\
     is_Some (stored_seed (dev (snd r))) /\
     initialized (dev (snd r)) = initialized (dev w) /\
     forall res, call_keystore_unlock res ∉ es).
Proof.
  intros r.
  destruct (workflow_stages request w)
    as [(es & Htr & Hes & Hdev & _) | (w5 & len & es0 & Htr0 & Hes0 & Hdev0 & _ & Hr)];
    fold r in Htr, Hdev || fold r in Hr.
  - exists es. split; [exact Htr |].
    intros Hin. destruct (early_event_in _ _ Hes Hin).
  - destruct (persist_and_unlock_failures request len w5) as (es5 & Htr5 & _ & _ & Hfail).
    exists (es0 ++ es5). split.
    + rewrite Hr, returned_trace, Htr5, Htr0. now rewrite app_assoc.
    + intros Hin. apply late_event_in in Hin; [| exact Hes0 | intros []].
      destruct (Hfail Hin) as (Hflow & Hstored & Hseed & Hinit & Hunlock & _).
      rewrite Hr, returned_fst, returned_dev, Hflow, Hinit, Hdev0.
      split; [reflexivity |].
      split; [apply elem_of_app; now right |].
      split; [exact Hseed |]. split; [reflexivity |].
      intros res Hres. apply late_event_in in Hres; [| exact Hes0 | intros []].
      exact (Hunlock res Hres).
Qed.

(** X17: the recovery returns true exactly when the keystore was unlocked
    with success; the seed has then been stored and the device marked
    initialized, both with success, the device holds the seed and is
    initialized, and the unlock of the BIP39 seed is the last thing
    started. *)
Theorem restore_success (request : RestoreFromMnemonicRequest) (w : world) :
  let r := workflow_restore_from_mnemonic request w in
  exists es,
    trace (snd r) = trace w ++ es /\
    (call_keystore_unlock KEYSTORE_OK ∈ es -> fst r = Next true) /\
    (fst r = Next true ->
     call_keystore_unlock KEYSTORE_OK ∈ es /\
     call_keystore_encrypt_and_store_seed true ∈ es /\
     call_memory_set_initialized true ∈ es /\
     initialized (dev (snd r)) = true /\
     is_Some (stored_seed (dev (snd r))) /\
     last es = Some ui_unlock_bip39).
Proof.
  intros r.
  destruct (workflow_stages request w)
    as [(es & Htr & Hes & Hdev & Hflow) | (w5 & len & es0 & Htr0 & Hes0 & Hdev0 & _ & Hr)];
    fold r in Htr, Hdev, Hflow || fold r in Hr.
  - exists es. split; [exact Htr |]. split.
    + intros Hin. destruct (early_event_in _ _ Hes Hin).
    + intros Htrue. contradiction.
  - destruct (persist_and_unlock_success request len w5)
      as (es5 & Htr5 & Hunlocked & Htrue & Hnext).
    assert (Hflow : fst r = Next true <-> fst (persist_and_unlock request len w5) = Return true).
    { rewrite Hr, returned_fst.
      destruct (fst (persist_and_unlock request len w5)) as [b|b|msg| |] eqn:Hf;
        split; try discriminate; try congruence;
        exfalso; exact (Hnext b eq_refl). }
    exists (es0 ++ es5). split; [| split].
    + rewrite Hr, returned_trace, Htr5, Htr0. now rewrite app_assoc.
    + intros Hin. apply late_event_in in Hin; [| exact Hes0 | intros []].
      apply Hflow, Hunlocked, Hin.
    + intros Hr5. apply Hflow in Hr5.
      destruct (Htrue Hr5) as (H1 & H2 & H3 & H4 & H5 & H6).
      rewrite Hr, returned_dev.
      repeat split; try assumption; try (apply elem_of_app; now right).
      rewrite last_app, H6. reflexivity.
Qed.

(** X18: in a firmware built without [APP_U2F] the recovery never asks to
    confirm the time and never sets the U2F counter, whatever the request
    holds and whatever the user does. *)
Theorem restore_without_u2f (request : RestoreFromMnemonicRequest) (w : world) :
  APP_U2F <> 1%Z ->
  let r := workflow_restore_from_mnemonic request w in
  exists es,
    trace (snd r) = trace w ++ es /\
    (forall ts tz, ui_confirm_time ts tz ∉ es) /\
    (forall counter ok, call_securechip_u2f_counter_set counter ok ∉ es) /\
    u2f_counter (dev (snd r)) = u2f_counter (dev w).
Proof.
  intros Hu2f r.
  destruct (workflow_stages request w)
    as [(es & Htr & Hes & Hdev & _) | (w5 & len & es0 & Htr0 & Hes0 & Hdev0 & _ & Hr)];
    fold r in Htr, Hdev || fold r in Hr.
  - exists es. split; [exact Htr |]. split; [| split].
    + intros ts tz Hin. destruct (early_event_in _ _ Hes Hin).
    + intros counter ok Hin. destruct (early_event_in _ _ Hes Hin).
    + now rewrite Hdev.
  - destruct (persist_and_unlock_u2f request len w5) as (es5 & Htr5 & Hoff & _).
    destruct (Hoff Hu2f) as (Htime & Hcounter & Hkept & _).
    exists (es0 ++ es5). split; [| split; [| split]].
    + rewrite Hr, returned_trace, Htr5, Htr0. now rewrite app_assoc.
    + intros ts tz Hin. apply late_event_in in Hin; [| exact Hes0 | intros []].
      exact (Htime ts tz Hin).
    + intros counter ok Hin. apply late_event_in in Hin; [| exact Hes0 | intros []].
      exact (Hcounter counter ok Hin).
    + now rewrite Hr, returned_dev, Hkept, Hdev0.
Qed.

(** X19: the time is asked for only in a firmware built with [APP_U2F],
    with the timestamp and the timezone offset of the request, and only
    once the seed is stored.  The U2F counter is set only to the timestamp
    of the request, and only after the user confirmed the time; whether
    that succeeds decides nothing but the counter itself: marking the
    device initialized is attempted either way. *)
Theorem restore_u2f_counter (request : RestoreFromMnemonicRequest) (w : world) :
  let r := workflow_restore_from_mnemonic request w in
  exists es,
    trace (snd r) = trace w ++ es /\
    (forall ts tz,
        ui_confirm_time ts tz ∈ es ->
        APP_U2F = 1%Z /\ ts = timestamp request /\ tz = timezone_offset request /\
        call_keystore_encrypt_and_store_seed true ∈ es) /\
    (forall counter ok,
        call_securechip_u2f_counter_set counter ok ∈ es ->
        counter = timestamp request /\
        ui_confirm_time (timestamp request) (timezone_offset request) ∈ es /\
        head (confirm_time_answers (user w)) = Some true /\
        u2f_counter (dev (snd r)) =
          (if ok then Some (timestamp request) else u2f_counter (dev w)) /\
        exists marked, call_memory_set_initialized marked ∈ es).
Proof.
  intros r.
  destruct (workflow_stages request w)
    as [(es & Htr & Hes & Hdev & _)
       | (w5 & len & es0 & Htr0 & Hes0 & Hdev0 & Hanswers0 & Hr)];
    fold r in Htr, Hdev || fold r in Hr.
  - exists es. split; [exact Htr |]. split.
    + intros ts tz Hin. destruct (early_event_in _ _ Hes Hin).
    + intros counter ok Hin. destruct (early_event_in _ _ Hes Hin).
  - destruct (persist_and_unlock_u2f request len w5) as (es5 & Htr5 & Hoff & Htime & Hcounter).
    exists (es0 ++ es5). split; [| split].
    + rewrite Hr, returned_trace, Htr5, Htr0. now rewrite app_assoc.
    + intros ts tz Hin. apply late_event_in in Hin; [| exact Hes0 | intros []].
      destruct (Htime ts tz Hin) as (-> & -> & Hstored).
      split; [| split; [reflexivity | split; [reflexivity |]]].
      * destruct (Z.eq_dec APP_U2F 1%Z) as [Hu2f | Hu2f]; [exact Hu2f | exfalso].
        destruct (Hoff Hu2f) as (Hnever & _). exact (Hnever _ _ Hin).
      * apply elem_of_app. now right.
    + intros counter ok Hin. apply late_event_in in Hin; [| exact Hes0 | intros []].
      destruct (Hcounter counter ok Hin) as (-> & Hshown & Hanswer & Hvalue & marked & Hmarked).
      rewrite Hr, returned_dev, Hvalue, Hdev0, <- Hanswers0.
      split; [reflexivity |].
      split; [apply elem_of_app; now right |].
      split; [exact Hanswer |]. split; [reflexivity |].
      exists marked. apply elem_of_app. now right.
Qed.

(** ** The seed that is stored *)

Lemma password_loop_unfold (fuel : nat) :
  password_loop (S fuel) =
  (let* matched := password_set in
   if negb matched then
     let* again := workflow_confirm_blocking try_again in
     if negb again then return_ false else password_loop fuel
   else ret tt).
Proof. reflexivity. Qed.

Lemma password_set_seed (w : world) :
  seed (mem (snd (password_set w))) = seed (mem w).
Proof.
  unfold password_set, bind, log, await, ret. simpl.
  destruct (password_entries (user w)) as [|[entered repeated] rest]; [reflexivity |].
  simpl. destruct (String.eqb entered repeated); [| reflexivity].
  simpl. destruct (password (mem w)) as [pbuf|]; [| reflexivity].
  destruct (write_at pbuf 0 _); reflexivity.
Qed.

Lemma password_loop_seed (fuel : nat) :
  forall w, seed (mem (snd (password_loop fuel w))) = seed (mem w).
Proof.
  induction fuel as [|fuel IH]; intros w; [reflexivity |].
  rewrite password_loop_unfold. unfold bind at 1.
  pose proof (password_set_seed w) as Hset.
  destruct (password_set w) as [[matched|b|msg| |] w1]; simpl in Hset; try exact Hset.
  destruct matched; simpl; [exact Hset |].
  unfold bind at 1, workflow_confirm_blocking, bind, log, await. simpl.
  destruct (confirm_answers (user w1)) as [|again answers]; simpl; [exact Hset |].
  destruct again; simpl; [| exact Hset].
  rewrite IH. exact Hset.
Qed.

Lemma persist_and_unlock_stored (request : RestoreFromMnemonicRequest)
    (seed_len : nat) (w5 : world) (sbuf : list Byte.byte) :
  seed (mem w5) = Some sbuf ->
  let r5 := persist_and_unlock request seed_len w5 in
  (stored_seed (dev (snd r5)) = stored_seed (dev w5) /\ fst r5 <> Return true \/
   exists stored_password,
     stored_seed (dev (snd r5)) = Some (take seed_len sbuf, stored_password)) /\
  (forall b, fst r5 <> Next b).
Proof.
  clear keystore_get_bip39_word indeterminate.
  intros Hseed r5. subst r5. unfold persist_and_unlock.
  unfold read_seed, read_str, keystore_encrypt_and_store_seed,
    workflow_confirm_time, securechip_u2f_counter_set, memory_set_initialized,
    keystore_unlock, workflow_unlock_bip39_blocking, workflow_status_blocking,
    bind, log, await, ret, return_, abort.
  rewrite Hseed.
  run_cases; cbn.
  all: split; [| discriminate].
  all: first [left; split; [reflexivity | discriminate] | right; eexists; reflexivity].
Qed.

(** X20: whatever happens after the words were accepted as a mnemonic, the
    seed on the device is either the one that was there before or the
    seed the keystore derived from the words entered, cut to the length
    the keystore reported and not the 32 bytes of the array; after a
    recovery that returns true it is the derived seed. *)
Theorem restore_stores_derived_seed (request : RestoreFromMnemonicRequest)
    (w w2 : world) (buf : buffer) (bytes : list Byte.byte) :
  _get_mnemonic (set_mem (with_mnemonic (Some (zeroed mnemonic_size))) w) = (Next true, w2) ->
  mnemonic (mem w2) = Some buf ->
  keystore_bip39_mnemonic_to_seed (c_str buf) = Some bytes ->
  length bytes <= 32 ->
  let r := workflow_restore_from_mnemonic request w in
  (stored_seed (dev (snd r)) = stored_seed (dev w) /\ fst r <> Next true \/
   exists stored_password,
     stored_seed (dev (snd r)) = Some (bytes, stored_password)).
Proof.
  intros Hget Hbuf Hderive Hlen r. subst r.
  destruct (early_get_mnemonic (set_mem (with_mnemonic (Some (zeroed mnemonic_size))) w))
    as (Hdev2 & _).
  rewrite Hget in Hdev2. simpl in Hdev2.
  rewrite (workflow_at_password_scope request w w2 buf bytes Hget Hbuf Hderive).
  set (entry := password_scope_entry w2 buf bytes).
  unfold bind.
  set (fuel := S (length (password_entries (user entry)))).
  destruct (early_password_loop fuel entry) as (Hdev5 & _).
  pose proof (password_loop_seed fuel entry) as Hseed5.
  destruct (password_loop fuel entry) as [f5 w5] eqn:Hloop. simpl in Hdev5, Hseed5.
  assert (Hdev : dev w5 = dev w) by (rewrite Hdev5; exact Hdev2).
  destruct f5 as [[]|b|msg| |]; simpl;
    try (left; split; [now rewrite Hdev | discriminate]).
  - destruct (persist_and_unlock_stored request (length bytes) w5 _ Hseed5)
      as [[(Hkept & Hflow) | (stored_password & Hstored)] Hnext].
    + left. rewrite returned_dev, returned_fst, Hkept, Hdev. split; [reflexivity |].
      destruct (fst (persist_and_unlock request (length bytes) w5)) as [b|b|msg| |] eqn:Hf;
        try discriminate.
      * exfalso. exact (Hnext b eq_refl).
      * intros [= ->]. now apply Hflow.
    + right. exists stored_password. rewrite returned_dev, Hstored.
      rewrite take_take, Nat.min_l by exact Hlen.
      now rewrite take_app_length.
  - left. split; [now rewrite Hdev |].
    intros [= ->].
    eapply (password_loop_return fuel entry w5 true) in Hloop; discriminate.
Qed.

(** ** Correcting a word *)

Lemma MnemonicAssembler_correct_word (word_count : nat) (st : entry_state)
    (mistaken corrected : string) (post : list workflow_trinary_input_result_t) :
  S (word_idx st) < word_count ->
  MnemonicAssembler_run word_count st
    (WORKFLOW_TRINARY_INPUT_RESULT_OK mistaken ::
     WORKFLOW_TRINARY_INPUT_RESULT_DELETE ::
     WORKFLOW_TRINARY_INPUT_RESULT_OK corrected :: post) =
  MnemonicAssembler_run word_count st
    (WORKFLOW_TRINARY_INPUT_RESULT_OK corrected :: post).
Proof.
  intros Hlt. destruct st as [p slots]. simpl in *.
  destruct (Nat.ltb_spec p word_count); [| lia].
  destruct (Nat.ltb_spec (S p) word_count); [| lia].
  now rewrite list_insert_insert_eq.
Qed.

(** X21: while at least one more word is to follow, a word entered by
    mistake, a Delete and another word leave [_get_mnemonic] with the same
    result, mnemonic buffer and remaining outcomes as entering the other
    word at once: the later entry overwrites the slot. *)
Theorem get_mnemonic_corrected_word (w : world) (choice : trinary_choice_t)
    (picks : list trinary_choice_t) (word_count : nat)
    (pre post : list workflow_trinary_input_result_t)
    (st_p : entry_state) (mistaken corrected : string) :
  wordlist_available = true ->
  number_of_words_picks (user w) = choice :: picks ->
  WordCount choice = Some word_count ->
  MnemonicAssembler_run word_count initial_entry_state pre = AwaitingEntry st_p ->
  S (word_idx st_p) < word_count ->
  let with_mistake :=
    pre ++ [WORKFLOW_TRINARY_INPUT_RESULT_OK mistaken;
            WORKFLOW_TRINARY_INPUT_RESULT_DELETE;
            WORKFLOW_TRINARY_INPUT_RESULT_OK corrected] ++ post in
  let direct := pre ++ [WORKFLOW_TRINARY_INPUT_RESULT_OK corrected] ++ post in
  let run_with_mistake := _get_mnemonic (set_user (with_word_entries with_mistake) w) in
  let run_direct := _get_mnemonic (set_user (with_word_entries direct) w) in
  fst run_with_mistake = fst run_direct /\
  mem (snd run_with_mistake) = mem (snd run_direct) /\
  user (snd run_with_mistake) = user (snd run_direct) /\
  dev (snd run_with_mistake) = dev (snd run_direct).
Proof.
  intros Havailable Hpicks Hcount Hpre Hnext with_mistake direct
    run_with_mistake run_direct.
  destruct (MnemonicAssembler_run_awaiting word_count pre
              ([WORKFLOW_TRINARY_INPUT_RESULT_OK mistaken;
                WORKFLOW_TRINARY_INPUT_RESULT_DELETE;
                WORKFLOW_TRINARY_INPUT_RESULT_OK corrected] ++ post) _ _ Hpre)
    as [_ Hrun1].
  destruct (MnemonicAssembler_run_awaiting word_count pre
              ([WORKFLOW_TRINARY_INPUT_RESULT_OK corrected] ++ post) _ _ Hpre)
    as [_ Hrun2].
  assert (Hsame_run :
    MnemonicAssembler_run word_count initial_entry_state with_mistake =
    MnemonicAssembler_run word_count initial_entry_state direct).
  { subst with_mistake direct. rewrite Hrun1, Hrun2.
    now apply MnemonicAssembler_correct_word. }
  subst run_with_mistake run_direct.
  rewrite (get_mnemonic_eq (set_user (with_word_entries with_mistake) w)
             choice picks word_count Havailable Hpicks Hcount).
  rewrite (get_mnemonic_eq (set_user (with_word_entries direct) w)
             choice picks word_count Havailable Hpicks Hcount).
  cbv zeta.
  change (word_entries (user (set_user (with_word_entries with_mistake) w)))
    with with_mistake.
  change (word_entries (user (set_user (with_word_entries direct) w)))
    with direct.
  rewrite Hsame_run.
  set (a := MnemonicAssembler_run word_count initial_entry_state direct).
  assert (Hstate :
    same_state
      (after_entries (after_pick (set_user (with_word_entries with_mistake) w)
                        picks word_count)
         word_count initial_entry_state with_mistake)
      (after_entries (after_pick (set_user (with_word_entries direct) w)
                        picks word_count)
         word_count initial_entry_state direct)).
  { unfold same_state, after_entries, after_pick, set_user. simpl.
    rewrite Hsame_run. repeat split. }
  destruct a as [st remaining | remaining | st].
  - assert (Hblind : trace_blind
              (call (assemble_mnemonic word_count (words st) ;;; return_ true))).
    { apply trace_blind_call, trace_blind_bind;
        [apply trace_blind_assemble_mnemonic | intros _; apply trace_blind_return]. }
    destruct (Hblind _ _ Hstate) as [Hflow (Huser & Hmem & Hdev)].
    repeat split; assumption.
  - destruct Hstate as (Huser & Hmem & Hdev). repeat split; assumption.
  - destruct Hstate as (Huser & Hmem & Hdev). repeat split; assumption.
Qed.

End Firmware.

(** * The properties on the example configuration *)

Abbreviation example_restore APP_U2F keystore_unlock_result :=
  (workflow_restore_from_mnemonic 10 150 APP_U2F example_indeterminate
     example_get_bip39_word example_mnemonic_to_seed example_store_seed
     example_counter_set example_set_initialized keystore_unlock_result
     example_request) (only parsing).

Abbreviation example_get_mnemonic := (_get_mnemonic 10 example_get_bip39_word)
  (only parsing).

Abbreviation example_confirm_multisig :=
  (apps_btc_confirm_multisig string string 113 example_coin_name
     example_xpub_from_protobuf example_encode_xpub "Register" BTCCoin_BTC
     "savings" example_multisig true
     BTCRegisterScriptConfigRequest_XPubType_AUTO_ELECTRUM) (only parsing).

Lemma example_encode_xpub_fits (xpub : string) (output : BTCPubRequest_XPubType)
    (xpub_str : string) :
  example_encode_xpub xpub output 113 = Some xpub_str ->
  String.length xpub_str < 113.
Proof.
  unfold example_encode_xpub.
  destruct (Nat.ltb_spec (String.length (example_xpub_prefix output +:+ xpub)) 113);
    [intros [= <-]; assumption | discriminate].
Qed.

(** The 2-of-3 account of the specification: the second cosigner is this
    device; the user declines its key, and the third key is never shown. *)
Lemma C2_example_second_cosigner_declined :
  example_confirm_multisig (example_world example_cosigner_answers) =
    (Next false,
     {| user := with_confirm_answers [] example_cosigner_answers;
        trace :=
          [ui_confirm
             {| title := "Register";
                body := "Coin: Bitcoin" +:+ nl +:+ "Multisig type: 2-of-3";
                scrollable := false; longtouch := false;
                accept_is_nextarrow := true |};
           ui_confirm
             {| title := "Register"; body := "savings";
                scrollable := true; longtouch := false;
                accept_is_nextarrow := true |};
           ui_confirm
             {| title := "Register"; body := "Cosigner 1/3: Zpub5YdQc3i";
                scrollable := true; longtouch := false;
                accept_is_nextarrow := true |};
           ui_confirm
             {| title := "Register";
                body := "Cosigner 2/3 (this device): Zpub5cqDRoK";
                scrollable := true; longtouch := false;
                accept_is_nextarrow := true |}];
        mem := no_secrets;
        dev := example_device |}).
Proof.
  refine (proj2 (proj2
    (C2_cosigner_confirmation_sequence string string 113 example_coin_name
       example_xpub_from_protobuf example_encode_xpub example_encode_xpub_fits
       "Register" example_multisig BTCPubRequest_XPubType_CAPITAL_ZPUB _
       BTCCoin_BTC "savings" BTCRegisterScriptConfigRequest_XPubType_AUTO_ELECTRUM
       ["Zpub5YdQc3i"] [false] (example_world example_cosigner_answers)
       _ _ _ _)) _ "Zpub5cqDRoK" [] _ _).
  - vm_compute. reflexivity.
  - vm_compute. lia.
  - reflexivity.
  - intros [|i] xpub_str; [intros [= <-]; reflexivity | discriminate].
  - reflexivity.
  - vm_compute. lia.
  - reflexivity.
  - reflexivity.
Defined.

(** A cancelled entry leaves the mnemonic zeroed; after a recovery that
    succeeds the three buffers are zeroed. *)
Lemma C3_example_cancelled_and_restored :
  let cancelled :=
    example_restore 0%Z example_unlock (example_world example_cancelled_entry) in
  let restored :=
    example_restore 0%Z example_unlock (example_world example_recovery) in
  (fst cancelled = Next false /\
   mnemonic (mem (snd cancelled)) = Some (zeroed ((10 + 1) * 24))) /\
  (fst restored = Next true /\
   mnemonic (mem (snd restored)) = Some (zeroed ((10 + 1) * 24)) /\
   seed (mem (snd restored)) = Some (replicate 32 Byte.x00) /\
   password (mem (snd restored)) = Some (zeroed 150)).
Proof.
  intros cancelled restored.
  assert (Hcancelled : cancelled = (Next false, snd cancelled))
    by (vm_compute; reflexivity).
  assert (Hrestored : restored = (Next true, snd restored))
    by (vm_compute; reflexivity).
  destruct (C3_secret_buffers_zeroed 10 150 0%Z example_indeterminate
              example_get_bip39_word example_mnemonic_to_seed example_store_seed
              example_counter_set example_set_initialized example_unlock
              example_request (example_world example_cancelled_entry)
              (snd cancelled) false eq_refl Hcancelled) as (Hmnemonic & _).
  destruct (C3_secret_buffers_zeroed 10 150 0%Z example_indeterminate
              example_get_bip39_word example_mnemonic_to_seed example_store_seed
              example_counter_set example_set_initialized example_unlock
              example_request (example_world example_recovery)
              (snd restored) true eq_refl Hrestored)
    as (Hmnemonic' & _ & _ & Hboth).
  destruct (Hboth eq_refl) as [Hseed Hpassword].
  split; [split; [now rewrite Hcancelled | exact Hmnemonic] |].
  split; [now rewrite Hrestored |].
  split; [exact Hmnemonic' |]. split; [exact Hseed | exact Hpassword].
Defined.

Lemma example_words_wordlist_entries :
  Forall (wordlist_entry 10) (word_entries example_recovery).
Proof.
  repeat constructor; try (simpl; lia);
    apply (bool_decide_unpack _); vm_compute; exact I.
Qed.

(** Twelve words are joined by eleven spaces. *)
Lemma C4_example_twelve_words :
  let joined :=
    "abandon ability able about above absent absorb abstract absurd abuse access accident" in
  let run := example_get_mnemonic (example_entry_world example_recovery) in
  fst run = Next true /\
  mnemonic (mem (snd run)) = Some (cstring_in ((10 + 1) * 24) joined) /\
  c_str (cstring_in ((10 + 1) * 24) joined) = joined /\
  count_spaces joined = 11 /\
  String.length joined <= (10 + 1) * 24.
Proof.
  intros joined run.
  destruct (C4_mnemonic_joined_by_single_spaces 10 example_get_bip39_word
              (example_entry_world example_recovery) TRINARY_CHOICE_LEFT [] 12
              {| word_idx := 12; words := example_words ++ replicate 12 "" |} [])
    as (_ & _ & _ & Hrun & Hstr & _ & Hspaces & _ & _ & _ & Hle).
  - vm_compute. reflexivity.
  - reflexivity.
  - reflexivity.
  - exact example_words_wordlist_entries.
  - vm_compute. reflexivity.
  - reflexivity.
  - fold run in Hrun. rewrite Hrun.
    split; [reflexivity |]. split; [reflexivity |].
    split; [exact Hstr |]. split; [exact Hspaces | exact Hle].
Defined.

(** The password loop of the specification: after the mismatch of "A" and
    "B" a declined retry ends the call with nothing stored; an accepted
    retry and the matching "C" lead to the seed being stored. *)
Lemma C5_example_mismatch_then_decline_or_match :
  let abandoned :=
    example_restore 0%Z example_unlock (example_world example_abandoned_password) in
  let retried :=
    example_restore 0%Z example_unlock (example_world example_recovery) in
  let joined :=
    "abandon ability able about above absent absorb abstract absurd abuse access accident" in
  let before script :=
    trace (snd (example_get_mnemonic (example_entry_world script))) ++
      [call_keystore_bip39_mnemonic_to_seed joined true;
       ui_status ("Recovery words" +:+ nl +:+ "valid") true] in
  (fst abandoned = Next false /\
   trace (snd abandoned) =
     before example_abandoned_password ++ [ui_password_set; ui_confirm try_again] /\
   dev (snd abandoned) = example_device) /\
  (exists ok es,
      trace (snd retried) =
        before example_recovery ++ [ui_password_set; ui_confirm try_again] ++
        [ui_password_set; call_keystore_encrypt_and_store_seed ok] ++ es).
Proof.
  intros abandoned retried joined before. split.
  - destruct (C5_password_retry_loop 10 150 0%Z example_indeterminate
                example_get_bip39_word example_mnemonic_to_seed example_store_seed
                example_counter_set example_set_initialized example_unlock
                example_request (example_world example_abandoned_password)
                (snd (example_get_mnemonic (example_entry_world example_abandoned_password)))
                (cstring_in ((10 + 1) * 24) joined) (replicate 16 Byte.x2a) [])
      as [Hdecline _].
    + vm_compute. reflexivity.
    + vm_compute. reflexivity.
    + vm_compute. reflexivity.
    + lia.
    + constructor.
    + destruct (Hdecline ("A", "B") [("C", "C")] []) as (Hflow & Htrace & Hdev & _).
      * discriminate.
      * reflexivity.
      * reflexivity.
      * split; [exact Hflow |]. split; [exact Htrace | exact Hdev].
  - destruct (C5_password_retry_loop 10 150 0%Z example_indeterminate
                example_get_bip39_word example_mnemonic_to_seed example_store_seed
                example_counter_set example_set_initialized example_unlock
                example_request (example_world example_recovery)
                (snd (example_get_mnemonic (example_entry_world example_recovery)))
                (cstring_in ((10 + 1) * 24) joined) (replicate 16 Byte.x2a)
                [("A", "B")])
      as [_ Hmatch].
    + vm_compute. reflexivity.
    + vm_compute. reflexivity.
    + vm_compute. reflexivity.
    + lia.
    + constructor; [discriminate | constructor].
    + destruct (Hmatch "C" [] [] eq_refl eq_refl) as (ok & es & Htrace).
      exists ok, es. exact Htrace.
Defined.

(** A keystore that does not unlock after the seed was stored and the
    device marked initialized halts the firmware. *)
Lemma C6_example_unlock_fatal :
  let r := example_restore 0%Z example_unlock_fatal (example_world example_recovery) in
  fst r = Abort unlock_failed /\
  call_keystore_encrypt_and_store_seed true ∈ trace (snd r) /\
  call_memory_set_initialized true ∈ trace (snd r).
Proof.
  intros r.
  destruct (C6_unlock_failure_aborts 10 150 0%Z example_indeterminate
              example_get_bip39_word example_mnemonic_to_seed example_store_seed
              example_counter_set example_set_initialized example_unlock_fatal
              example_request (example_world example_recovery))
    as (es & Htrace & Hfatal & _).
  change (trace (snd r) = es) in Htrace.
  assert (Hunlock : call_keystore_unlock KEYSTORE_ERR_FATAL ∈ es).
  { rewrite <- Htrace. vm_compute.
    repeat constructor. }
  destruct (Hfatal KEYSTORE_ERR_FATAL Hunlock) as (Hstored & Hmarked & Hflow).
  - discriminate.
  - rewrite Htrace. split; [exact Hflow |]. split; [exact Hstored | exact Hmarked].
Defined.

(** An unknown coin halts the firmware; a script type the Electrum family
    does not cover makes the call return false. *)
Lemma C7_example_unknown_coin_and_script_type :
  (exists msg,
      select_output_xpub_type BTCRegisterScriptConfigRequest_XPubType_AUTO_XPUB_TPUB
        (BTCCoin_unrecognized 7) BTCScriptConfig_Multisig_ScriptType_P2WSH = Abort msg) /\
  select_output_xpub_type BTCRegisterScriptConfigRequest_XPubType_AUTO_ELECTRUM
    BTCCoin_TLTC (BTCScriptConfig_Multisig_ScriptType_unrecognized 2) = Return false.
Proof.
  destruct C7_unrecognized_values_abort as (Hcoin & _ & _ & Hscript).
  split.
  - exact (Hcoin 7%Z BTCRegisterScriptConfigRequest_XPubType_AUTO_XPUB_TPUB
             BTCScriptConfig_Multisig_ScriptType_P2WSH).
  - apply Hscript. right. right. right. reflexivity.
Defined.

(** Delete at the first word changes nothing; Delete at the third word
    goes back to the second, which is shown with the word entered there. *)
Lemma C8_example_delete_at_first_and_third_word :
  let w :=
    example_world
      (with_word_entries [WORKFLOW_TRINARY_INPUT_RESULT_DELETE] example_recovery) in
  let back := {| word_idx := 1; words := words example_entry_state |} in
  (exists w', entry_iteration initial_entry_state w = (Next initial_entry_state, w')) /\
  (exists w',
      entry_iteration example_entry_state w = (Next back, w') /\
      word_entries (user w') = [] /\
      trace (snd (entry_iteration back w')) =
        trace w' ++ [ui_trinary_input_wordlist 1 (Some "ability")]).
Proof.
  intros w back. split.
  - destruct (C8_delete_steps_back initial_entry_state w [])
      as (w' & Hfirst & _).
    + vm_compute. lia.
    + vm_compute. lia.
    + reflexivity.
    + exists w'. exact (Hfirst eq_refl).
  - destruct (C8_delete_steps_back example_entry_state w [])
      as (w' & _ & Hstep & Hrest & _ & _ & Hpreset).
    + vm_compute. lia.
    + vm_compute. lia.
    + reflexivity.
    + exists w'. split; [exact Hstep |]. split; [exact Hrest |].
      destruct (Hpreset "ability") as [Htrace Hshown].
      * vm_compute. lia.
      * reflexivity.
      * exact Htrace.
Defined.

(** Going back from the third word and entering "ability" again gives the
    mnemonic of the twelve words entered without Delete. *)
Lemma C9_example_delete_and_reenter :
  let entries := word_entries example_recovery in
  let with_delete :=
    take 2 entries ++
      [WORKFLOW_TRINARY_INPUT_RESULT_DELETE;
       WORKFLOW_TRINARY_INPUT_RESULT_OK "ability"] ++
      drop 2 entries in
  let run_with_delete :=
    example_get_mnemonic
      (example_entry_world (with_word_entries with_delete example_recovery)) in
  let run_without := example_get_mnemonic (example_entry_world example_recovery) in
  MnemonicAssembler_run 12 initial_entry_state with_delete =
    MnemonicAssembler_run 12 initial_entry_state entries /\
  fst run_with_delete = fst run_without /\
  mem (snd run_with_delete) = mem (snd run_without).
Proof.
  intros entries with_delete run_with_delete run_without.
  destruct (C9_delete_then_same_word 10 example_get_bip39_word
              (example_entry_world example_recovery) TRINARY_CHOICE_LEFT [] 12
              (take 2 entries) (drop 2 entries) example_entry_state "ability")
    as (Hsame & Hflow & Hmem & _).
  - vm_compute. reflexivity.
  - reflexivity.
  - reflexivity.
  - vm_compute. reflexivity.
  - vm_compute. lia.
  - reflexivity.
  - split; [exact Hsame |]. split; [exact Hflow | exact Hmem].
Defined.

(** With [APP_U2F], a declined time confirmation returns false with the
    seed stored and the device not marked initialized; a U2F counter that
    cannot be set does not keep the device from being marked. *)
Lemma C10_example_time_declined_or_counter_failed :
  let declined :=
    example_restore 1%Z example_unlock (example_world example_recovery) in
  let confirmed :=
    example_restore 1%Z example_unlock (example_world example_time_confirmed) in
  (fst declined = Next false /\
   is_Some (stored_seed (dev (snd declined))) /\
   initialized (dev (snd declined)) = false) /\
  (call_securechip_u2f_counter_set 1600000000 false ∈ trace (snd confirmed) /\
   exists ok, call_memory_set_initialized ok ∈ trace (snd confirmed)).
Proof.
  intros declined confirmed. split.
  - destruct (C10_declined_time_keeps_stored_seed 10 150 1%Z example_indeterminate
                example_get_bip39_word example_mnemonic_to_seed example_store_seed
                example_counter_set example_set_initialized example_unlock
                example_request (example_world example_recovery) eq_refl)
      as (es & Htrace & Hdeclined & _).
    change (trace (snd declined) = es) in Htrace.
    destruct Hdeclined as (Hflow & _ & Hstored & Hinit & _).
    + rewrite <- Htrace. vm_compute.
      repeat constructor.
    + reflexivity.
    + split; [exact Hflow |]. split; [exact Hstored | exact Hinit].
  - destruct (C10_declined_time_keeps_stored_seed 10 150 1%Z example_indeterminate
                example_get_bip39_word example_mnemonic_to_seed example_store_seed
                example_counter_set example_set_initialized example_unlock
                example_request (example_world example_time_confirmed) eq_refl)
      as (es & Htrace & _ & Hcounter & _).
    change (trace (snd confirmed) = es) in Htrace.
    assert (Hfailed : call_securechip_u2f_counter_set 1600000000 false ∈ es).
    { rewrite <- Htrace. vm_compute.
      repeat constructor. }
    rewrite Htrace. split; [exact Hfailed |].
    exact (proj1 (Hcounter 1600000000%N Hfailed)).
Defined.

(** * The further properties on the example configurations *)

(** A coin name of 83 characters overflows the summary and halts the
    firmware; the names of the four coins fit. *)
Lemma confirm_multisig_summary_buffer_example :
  apps_btc_confirm_multisig string string 113 example_verbose_coin_name
    example_xpub_from_protobuf example_encode_xpub "Register" BTCCoin_BTC "savings"
    example_multisig true BTCRegisterScriptConfigRequest_XPubType_AUTO_ELECTRUM
    (example_world example_all_accepted) =
    (Abort "apps_btc_confirm_multisig/0", example_world example_all_accepted) /\
  String.length (summary_text string example_coin_name BTCCoin_BTC example_multisig) < 100.
Proof.
  split.
  - pose proof (confirm_multisig_summary_buffer string string 113
                  example_verbose_coin_name example_xpub_from_protobuf
                  example_encode_xpub "Register" BTCCoin_BTC "savings" example_multisig
                  true BTCRegisterScriptConfigRequest_XPubType_AUTO_ELECTRUM
                  (example_world example_all_accepted)) as [Hlong _].
    apply Hlong. vm_compute. lia.
  - pose proof (confirm_multisig_summary_buffer string string 113
                  example_coin_name example_xpub_from_protobuf
                  example_encode_xpub "Register" BTCCoin_BTC "savings" example_multisig
                  true BTCRegisterScriptConfigRequest_XPubType_AUTO_ELECTRUM
                  (example_world example_all_accepted)) as [_ Hfits].
    apply Hfits.
    + vm_compute. lia.
    + vm_compute. reflexivity.
    + vm_compute. reflexivity.
Defined.

(** Declining the summary of the 2-of-3 account: one confirmation, false. *)
Lemma confirm_multisig_declined_example :
  example_confirm_multisig (example_world example_summary_declined) =
    (Next false,
     {| user := with_confirm_answers [true] example_cosigner_answers;
        trace :=
          [ui_confirm
             {| title := "Register";
                body := "Coin: Bitcoin" +:+ nl +:+ "Multisig type: 2-of-3";
                scrollable := false; longtouch := false;
                accept_is_nextarrow := true |}];
        mem := no_secrets;
        dev := example_device |}).
Proof.
  pose proof (confirm_multisig_declined string string 113 example_coin_name
                example_xpub_from_protobuf example_encode_xpub "Register" BTCCoin_BTC
                "savings" example_multisig true
                BTCRegisterScriptConfigRequest_XPubType_AUTO_ELECTRUM
                (example_world example_summary_declined) [true]) as Hdeclined.
  destruct Hdeclined as [Hsummary _].
  - vm_compute. lia.
  - exact (Hsummary eq_refl).
Defined.

(** Without verification, a coin and a family no enumerator names do not
    keep the call from returning true after two confirmations. *)
Lemma confirm_multisig_without_verification_example :
  apps_btc_confirm_multisig string string 113 example_coin_name
    example_xpub_from_protobuf example_encode_xpub "Register" (BTCCoin_unrecognized 9)
    "savings" example_multisig false
    (BTCRegisterScriptConfigRequest_XPubType_unrecognized 7)
    (example_world example_cosigner_answers) =
    (Next true,
     {| user := with_confirm_answers [true; false] example_cosigner_answers;
        trace :=
          [ui_confirm
             {| title := "Register";
                body := "Coin: " +:+ nl +:+ "Multisig type: 2-of-3";
                scrollable := false; longtouch := false;
                accept_is_nextarrow := true |};
           ui_confirm
             {| title := "Register"; body := "savings";
                scrollable := true; longtouch := false;
                accept_is_nextarrow := true |}];
        mem := no_secrets;
        dev := example_device |}).
Proof.
  apply (confirm_multisig_without_verification string string 113 example_coin_name
           example_xpub_from_protobuf example_encode_xpub "Register"
           (BTCCoin_unrecognized 9) "savings" example_multisig
           (BTCRegisterScriptConfigRequest_XPubType_unrecognized 7)
           (example_world example_cosigner_answers) [true; false]).
  - vm_compute. lia.
  - reflexivity.
Defined.

(** With verification, the same coin halts the firmware once the two
    confirmations are accepted. *)
Lemma confirm_multisig_selection_failure_example :
  exists msg,
    apps_btc_confirm_multisig string string 113 example_coin_name
      example_xpub_from_protobuf example_encode_xpub "Register" (BTCCoin_unrecognized 9)
      "savings" example_multisig true
      BTCRegisterScriptConfigRequest_XPubType_AUTO_ELECTRUM
      (example_world example_cosigner_answers) =
      (Abort msg,
       {| user := with_confirm_answers [true; false] example_cosigner_answers;
          trace :=
            [ui_confirm
               {| title := "Register";
                  body := "Coin: " +:+ nl +:+ "Multisig type: 2-of-3";
                  scrollable := false; longtouch := false;
                  accept_is_nextarrow := true |};
             ui_confirm
               {| title := "Register"; body := "savings";
                  scrollable := true; longtouch := false;
                  accept_is_nextarrow := true |}];
          mem := no_secrets;
          dev := example_device |}).
Proof.
  pose proof (confirm_multisig_selection_failure string string 113 example_coin_name
                example_xpub_from_protobuf example_encode_xpub "Register"
                (BTCCoin_unrecognized 9) "savings" example_multisig
                BTCRegisterScriptConfigRequest_XPubType_AUTO_ELECTRUM
                (example_world example_cosigner_answers) [true; false]) as Hfailure.
  destruct Hfailure as (_ & _ & Hunknown).
  - vm_compute. lia.
  - reflexivity.
  - apply Hunknown. left. unfold recognized_coin. intros [H | [H | [H | H]]]; discriminate H.
Defined.

(** The 2-of-3 account with every confirmation accepted. *)
Lemma confirm_multisig_true_after_every_key_example :
  exists output xpub_strs rest,
    select_output_xpub_type BTCRegisterScriptConfigRequest_XPubType_AUTO_ELECTRUM
      BTCCoin_BTC (script_type example_multisig) = Next output /\
    length xpub_strs = 3 /\
    (forall i xpub_str,
        xpub_strs !! i = Some xpub_str ->
        cosigner_xpub_str string string 113 example_xpub_from_protobuf
          example_encode_xpub example_multisig output i = Some xpub_str) /\
    confirm_answers example_all_accepted = true :: true :: replicate 3 true ++ rest /\
    snd (example_confirm_multisig (example_world example_all_accepted)) =
      after_confirmations string example_coin_name (example_world example_all_accepted)
        "Register" BTCCoin_BTC "savings" example_multisig xpub_strs rest.
Proof.
  assert (Hcount : (N.of_nat (xpubs_count string example_multisig) < 2 ^ 32)%N)
    by (vm_compute; reflexivity).
  assert (Hrun :
    example_confirm_multisig (example_world example_all_accepted) =
    (Next true, snd (example_confirm_multisig (example_world example_all_accepted))))
    by (vm_compute; reflexivity).
  exact (confirm_multisig_true_after_every_key string string 113 example_coin_name
           example_xpub_from_protobuf example_encode_xpub example_encode_xpub_fits
           "Register" example_multisig Hcount BTCCoin_BTC "savings"
           BTCRegisterScriptConfigRequest_XPubType_AUTO_ELECTRUM
           (example_world example_all_accepted) _ Hrun).
Defined.

(** The 2-of-3 account with the second cosigner declined: the call returns. *)
Lemma confirm_multisig_returns_example :
  (exists b, fst (example_confirm_multisig (example_world example_cosigner_answers)) = Next b) \/
  (fst (example_confirm_multisig (example_world example_cosigner_answers)) = Waiting /\
   confirm_answers
     (user (snd (example_confirm_multisig (example_world example_cosigner_answers)))) = [] /\
   length (confirm_answers (user (example_world example_cosigner_answers))) < 2 + 3).
Proof.
  assert (Hcount : (N.of_nat (xpubs_count string example_multisig) < 2 ^ 32)%N)
    by (vm_compute; reflexivity).
  assert (Hfits : String.length
            (summary_text string example_coin_name BTCCoin_BTC example_multisig) < 100)
    by (vm_compute; lia).
  exact (confirm_multisig_returns string string 113 example_coin_name
           example_xpub_from_protobuf example_encode_xpub example_encode_xpub_fits
           "Register" example_multisig Hcount BTCCoin_BTC "savings" true
           BTCRegisterScriptConfigRequest_XPubType_AUTO_ELECTRUM
           (example_world example_cosigner_answers) Hfits (or_introl eq_refl) I).
Defined.

(** The keystore fails on word 2047: nothing is shown. *)
Lemma get_mnemonic_without_wordlist_example :
  _get_mnemonic 10 example_incomplete_wordlist (example_world example_recovery) =
    (Next false, example_world example_recovery) /\
  workflow_restore_from_mnemonic 10 150 0%Z example_indeterminate
    example_incomplete_wordlist example_mnemonic_to_seed example_store_seed
    example_counter_set example_set_initialized example_unlock example_request
    (example_world example_recovery) =
    (Next false, example_entry_world example_recovery).
Proof.
  apply (get_mnemonic_without_wordlist 10 150 0%Z example_indeterminate
           example_incomplete_wordlist example_mnemonic_to_seed example_store_seed
           example_counter_set example_set_initialized example_unlock example_request
           (example_world example_recovery) 2047).
  - vm_compute. lia.
  - reflexivity.
Defined.

(** A choice of value 3 halts the firmware after the choice screen. *)
Lemma get_mnemonic_choice_edges_example :
  example_get_mnemonic
    (example_world
       (with_number_of_words_picks [TRINARY_CHOICE_unrecognized 3] example_recovery)) =
    (Abort "restore_from_mnemonic: unreachable",
     {| user := with_number_of_words_picks [] example_recovery;
        trace := [ui_trinary_choice "How many words?" "12" "18" "24"];
        mem := no_secrets;
        dev := example_device |}).
Proof.
  pose proof (get_mnemonic_choice_edges 10 example_get_bip39_word
    (example_world
       (with_number_of_words_picks [TRINARY_CHOICE_unrecognized 3] example_recovery)))
    as Hedges.
  destruct Hedges as [_ Hunknown].
  - vm_compute. reflexivity.
  - exact (Hunknown 3%Z [] eq_refl).
Defined.

(** Cancel at the third word: the two words entered are not written. *)
Lemma get_mnemonic_cancelled_example :
  let r := example_get_mnemonic (example_entry_world example_cancelled_entry) in
  fst r = Next false /\
  mem (snd r) = mem (example_entry_world example_cancelled_entry) /\
  dev (snd r) = example_device /\
  word_entries (user (snd r)) = [] /\
  number_of_words_picks (user (snd r)) = [] /\
  password_entries (user (snd r)) = [("A", "B"); ("C", "C")] /\
  confirm_answers (user (snd r)) = [true].
Proof.
  apply (get_mnemonic_cancelled 10 example_get_bip39_word
           (example_entry_world example_cancelled_entry) TRINARY_CHOICE_LEFT [] 12
           [WORKFLOW_TRINARY_INPUT_RESULT_OK "abandon";
            WORKFLOW_TRINARY_INPUT_RESULT_OK "ability"] [] example_entry_state).
  - vm_compute. reflexivity.
  - reflexivity.
  - reflexivity.
  - vm_compute. reflexivity.
  - reflexivity.
Defined.

Lemma example_long_first_word_c_strings :
  Forall c_string_entry (word_entries example_long_first_word).
Proof.
  repeat constructor; apply (bool_decide_unpack _); vm_compute; exact I.
Qed.


(** The same entry makes no access outside an array. *)
Lemma get_mnemonic_writes_on_success_only_example :
  let r := example_get_mnemonic (example_entry_world example_long_first_word) in
  fst r <> Undefined /\
  (fst r <> Next true ->
   mem (snd r) = mem (example_entry_world example_long_first_word)) /\
  dev (snd r) = example_device.
Proof.
  apply (get_mnemonic_writes_on_success_only 10 example_get_bip39_word
           (example_entry_world example_long_first_word)).
  - exact example_long_first_word_c_strings.
  - reflexivity.
Defined.

(** Two words were fetched: exactly these are freed. *)
Lemma cleanup_wordlist_frees_each_word_once_example :
  _cleanup_wordlist example_wordlist_array =
    Some (replicate 2048 None, ["abandon"; "able"]).
Proof.
  pose proof (cleanup_wordlist_frees_each_word_once example_wordlist_array)
    as [Hfull _].
  destruct Hfull as [Hfreed _].
  - vm_compute. reflexivity.
  - exact Hfreed.
Defined.

(** The keystore rejects the twelve words. *)
Lemma restore_invalid_mnemonic_example :
  let entered := snd (example_get_mnemonic (example_entry_world example_recovery)) in
  let joined :=
    "abandon ability able about above absent absorb abstract absurd abuse access accident" in
  workflow_restore_from_mnemonic 10 150 0%Z example_indeterminate
    example_get_bip39_word example_reject_mnemonic example_store_seed
    example_counter_set example_set_initialized example_unlock example_request
    (example_world example_recovery) =
    (Next false,
     {| user := user entered;
        trace := trace entered ++
          [call_keystore_bip39_mnemonic_to_seed joined false;
           ui_status ("Recovery words" +:+ nl +:+ "invalid") false];
        mem := {| mnemonic := Some (zeroed ((10 + 1) * 24));
                  seed := Some (replicate 32 Byte.x00);
                  password := None |};
        dev := example_device |}).
Proof.
  intros entered joined.
  apply (restore_invalid_mnemonic 10 150 0%Z example_indeterminate
           example_get_bip39_word example_reject_mnemonic example_store_seed
           example_counter_set example_set_initialized example_unlock example_request
           (example_world example_recovery) entered
           (cstring_in ((10 + 1) * 24) joined)).
  - vm_compute. reflexivity.
  - vm_compute. reflexivity.
  - reflexivity.
Defined.

(** The keystore fails to store the seed. *)
Lemma restore_store_failure_example :
  let r :=
    workflow_restore_from_mnemonic 10 150 0%Z example_indeterminate
      example_get_bip39_word example_mnemonic_to_seed example_store_fails
      example_counter_set example_set_initialized example_unlock example_request
      (example_world example_recovery) in
  fst r = Next false /\
  dev (snd r) = example_device /\
  last (trace (snd r)) =
    Some (ui_status ("Could not" +:+ nl +:+ "restore backup") false).
Proof.
  intros r.
  destruct (restore_store_failure 10 150 0%Z example_indeterminate
              example_get_bip39_word example_mnemonic_to_seed example_store_fails
              example_counter_set example_set_initialized example_unlock
              example_request (example_world example_recovery))
    as (es & Htrace & Hfailed & _).
  change (trace (snd r) = es) in Htrace.
  destruct Hfailed as (Hflow & Hdev & Hlast & _).
  - rewrite <- Htrace. vm_compute. repeat constructor.
  - rewrite Htrace. split; [exact Hflow |]. split; [exact Hdev | exact Hlast].
Defined.

(** The memory fails to mark the device initialized. *)
Lemma restore_mark_initialized_failure_example :
  let r :=
    workflow_restore_from_mnemonic 10 150 0%Z example_indeterminate
      example_get_bip39_word example_mnemonic_to_seed example_store_seed
      example_counter_set example_marking_fails example_unlock example_request
      (example_world example_recovery) in
  fst r = Next false /\
  is_Some (stored_seed (dev (snd r))) /\
  initialized (dev (snd r)) = false.
Proof.
  intros r.
  destruct (restore_mark_initialized_failure 10 150 0%Z example_indeterminate
              example_get_bip39_word example_mnemonic_to_seed example_store_seed
              example_counter_set example_marking_fails example_unlock
              example_request (example_world example_recovery))
    as (es & Htrace & Hfailed).
  change (trace (snd r) = es) in Htrace.
  destruct Hfailed as (Hflow & _ & Hstored & Hmarked & _).
  - rewrite <- Htrace. vm_compute. repeat constructor.
  - split; [exact Hflow |]. split; [exact Hstored | exact Hmarked].
Defined.

(** A recovery that succeeds. *)
Lemma restore_success_example :
  let r := example_restore 0%Z example_unlock (example_world example_recovery) in
  fst r = Next true /\
  initialized (dev (snd r)) = true /\
  is_Some (stored_seed (dev (snd r))) /\
  last (trace (snd r)) = Some ui_unlock_bip39.
Proof.
  intros r.
  destruct (restore_success 10 150 0%Z example_indeterminate
              example_get_bip39_word example_mnemonic_to_seed example_store_seed
              example_counter_set example_set_initialized example_unlock
              example_request (example_world example_recovery))
    as (es & Htrace & Hunlocked & Hsuccess).
  change (trace (snd r) = es) in Htrace.
  assert (Hflow : fst r = Next true).
  { apply Hunlocked. rewrite <- Htrace. vm_compute. repeat constructor. }
  destruct (Hsuccess Hflow) as (_ & _ & _ & Hmarked & Hstored & Hlast).
  rewrite Htrace. split; [exact Hflow |]. split; [exact Hmarked |].
  split; [exact Hstored | exact Hlast].
Defined.

(** The same recovery in a firmware without [APP_U2F]. *)
Lemma restore_without_u2f_example :
  let r := example_restore 0%Z example_unlock (example_world example_recovery) in
  exists es,
    trace (snd r) = trace (example_world example_recovery) ++ es /\
    (forall ts tz, ui_confirm_time ts tz ∉ es) /\
    (forall counter ok, call_securechip_u2f_counter_set counter ok ∉ es) /\
    u2f_counter (dev (snd r)) = u2f_counter (dev (example_world example_recovery)).
Proof.
  apply (restore_without_u2f 10 150 0%Z example_indeterminate
           example_get_bip39_word example_mnemonic_to_seed example_store_seed
           example_counter_set example_set_initialized example_unlock
           example_request (example_world example_recovery)).
  discriminate.
Defined.

(** With [APP_U2F] and the time confirmed, the secure chip fails to set the
    counter. *)
Lemma restore_u2f_counter_example :
  let r := example_restore 1%Z example_unlock (example_world example_time_confirmed) in
  call_securechip_u2f_counter_set 1600000000 false ∈ trace (snd r) /\
  ui_confirm_time 1600000000 3600 ∈ trace (snd r) /\
  u2f_counter (dev (snd r)) = None.
Proof.
  intros r.
  destruct (restore_u2f_counter 10 150 1%Z example_indeterminate
              example_get_bip39_word example_mnemonic_to_seed example_store_seed
              example_counter_set example_set_initialized example_unlock
              example_request (example_world example_time_confirmed))
    as (es & Htrace & _ & Hcounter).
  change (trace (snd r) = es) in Htrace.
  assert (Hfailed : call_securechip_u2f_counter_set 1600000000 false ∈ es).
  { rewrite <- Htrace. vm_compute. repeat constructor. }
  destruct (Hcounter _ _ Hfailed) as (_ & Hshown & _ & Hvalue & _).
  rewrite Htrace. split; [exact Hfailed |]. split; [exact Hshown | exact Hvalue].
Defined.

(** The sixteen bytes derived from the twelve words are what is stored. *)
Lemma restore_stores_derived_seed_example :
  let r := example_restore 0%Z example_unlock (example_world example_recovery) in
  fst r = Next true /\
  exists stored_password,
    stored_seed (dev (snd r)) = Some (replicate 16 Byte.x2a, stored_password).
Proof.
  intros r.
  assert (Hflow : fst r = Next true) by (vm_compute; reflexivity).
  split; [exact Hflow |].
  destruct (restore_stores_derived_seed 10 150 0%Z example_indeterminate
              example_get_bip39_word example_mnemonic_to_seed example_store_seed
              example_counter_set example_set_initialized example_unlock
              example_request (example_world example_recovery)
              (snd (example_get_mnemonic (example_entry_world example_recovery)))
              (cstring_in ((10 + 1) * 24)
                 "abandon ability able about above absent absorb abstract absurd abuse access accident")
              (replicate 16 Byte.x2a))
    as [[_ Hfailed] | Hstored].
  - vm_compute. reflexivity.
  - vm_compute. reflexivity.
  - vm_compute. reflexivity.
  - vm_compute. lia.
  - contradiction.
  - exact Hstored.
Defined.

(** Entering "zoo" as the third word, going back and entering "able"
    gives the mnemonic of the twelve words entered without a mistake. *)
Lemma get_mnemonic_corrected_word_example :
  let entries := word_entries example_recovery in
  let with_mistake :=
    take 2 entries ++
      [WORKFLOW_TRINARY_INPUT_RESULT_OK "zoo";
       WORKFLOW_TRINARY_INPUT_RESULT_DELETE;
       WORKFLOW_TRINARY_INPUT_RESULT_OK "able"] ++
      drop 3 entries in
  let run_with_mistake :=
    example_get_mnemonic
      (example_entry_world (with_word_entries with_mistake example_recovery)) in
  let run_direct := example_get_mnemonic (example_entry_world example_recovery) in
  fst run_with_mistake = fst run_direct /\
  mem (snd run_with_mistake) = mem (snd run_direct).
Proof.
  intros entries with_mistake run_with_mistake run_direct.
  destruct (get_mnemonic_corrected_word 10 example_get_bip39_word
              (example_entry_world example_recovery) TRINARY_CHOICE_LEFT [] 12
              (take 2 entries) (drop 3 entries) example_entry_state "zoo" "able")
    as (Hflow & Hmem & _).
  - vm_compute. reflexivity.
  - reflexivity.
  - reflexivity.
  - vm_compute. reflexivity.
  - vm_compute. lia.
  - split; [exact Hflow | exact Hmem].
Defined.
